(** * Tablespace lifecycle manager (src/backend/commands/tablespace.c)

    A shallow embedding of the tablespace commands: the catalog rows of
    pg_tablespace, the directory tree and symbolic link that back a
    tablespace on disk, the two WAL records and their replay, and the
    default/temp tablespace resolution.

    The C code is translated function by function.  [ereport(ERROR, ...)]
    becomes the [RAISE] outcome of a state-and-error monad, messages of a
    lower level are appended to the server log, calls into collaborators
    that live outside tablespace.c are recorded in a call trace, and the
    file system is an explicit finite map from resolved paths to nodes on
    which the system calls used by the code are defined. *)

From Stdlib Require Import Ascii String ZArith Lia.
From stdpp Require Import gmap strings list fin_maps pretty.

Local Open Scope string_scope.
Local Open Scope list_scope.

(** ** Path strings

    Paths are C strings.  [psprintf("%s/%s", a, b)] is string append; the
    system calls split a path at its separators. *)

Module Path.

(** Modelled from the spec: port.h is missing.  A path is absolute when it
    starts at the root, relative otherwise (POSIX separators). *)
Definition is_absolute_path (s : string) : bool :=
  match s with
  | String c _ => bool_decide (c = "/"%char)
  | EmptyString => false
  end.

(** The segments between separators, empty ones included. *)
Fixpoint split_slash (s : string) : list string :=
  match s with
  | EmptyString => [EmptyString]
  | String c r =>
      if bool_decide (c = "/"%char) then EmptyString :: split_slash r
      else match split_slash r with
           | [] => [String c EmptyString]
           | h :: t => String c h :: t
           end
  end.

Definition nonempty (s : string) : bool :=
  match s with EmptyString => false | _ => true end.

(** The components of a path: repeated and trailing separators vanish. *)
Definition components (s : string) : list string :=
  List.filter nonempty (split_slash s).

(** [strchr(s, c) != NULL]. *)
Fixpoint strchr (s : string) (c : ascii) : bool :=
  match s with
  | EmptyString => false
  | String d r => if bool_decide (d = c) then true else strchr r c
  end.

(** [psprintf("%s/%s", a, b)]. *)
Definition slash (a b : string) : string := a +:+ "/" +:+ b.

(** The string up to its last separator, [None] when it has none. *)
Fixpoint trim_last (s : string) : option string :=
  match s with
  | EmptyString => None
  | String c r =>
      match trim_last r with
      | Some r' => Some (String c r')
      | None => if bool_decide (c = "/"%char) then Some EmptyString
                else None
      end
  end.

(** Modelled from the spec: port/path.c is missing.  The version directory
    is "<link>/<version tag>" and its parent is the link: the last
    component and the separator before it are cut off (a bare name leaves
    the empty string).  The path is taken not to end in a separator. *)
Definition get_parent_directory (s : string) : string :=
  default EmptyString (trim_last s).

End Path.

(** ** The file system

    Keys are fully resolved paths (component lists from the root); the root
    itself is always a directory.  Modes, owners and I/O failures are not
    modelled: a call fails only for the reasons the tree itself gives
    (missing entry, wrong kind, non-empty directory, link loop).  Paths are
    taken to be free of "." and ".." components. *)

Module FS.

Inductive Errno :=
| ENOENT | EEXIST | ENOTDIR | ENOTEMPTY | ELOOP | EISDIR.

#[global] Instance Errno_eq_dec : EqDecision Errno.
Proof. solve_decision. Defined.

Inductive node :=
| Dir
| File
| Symlink (target : string).

#[global] Instance node_eq_dec : EqDecision node.
Proof. solve_decision. Defined.

Abbreviation t := (gmap (list string) node).

Definition is_dir (n : node) : bool :=
  match n with Dir => true | _ => false end.

Definition node_at (fs : t) (p : list string) : option node :=
  match p with
  | [] => Some Dir
  | _ => fs !! p
  end.

(** Number of symbolic links one lookup may follow. *)
Definition MAXSYMLINKS : nat := 40.

(** Path walk.  [cur] is the resolved directory reached so far, [todo] the
    components still to look up.  A link met on the way is followed; a
    link that is the last component is followed only when [follow]. *)
Fixpoint walk (fs : t) (links : nat) :
    list string -> list string -> bool -> Errno + list string :=
  fix go (cur todo : list string) (follow : bool) {struct todo} :=
    match todo with
    | [] => inr cur
    | c :: rest =>
        match node_at fs cur with
        | Some Dir =>
            let p := cur ++ [c] in
            match fs !! p with
            | Some (Symlink tgt) =>
                if (match rest with [] => negb follow | _ => false end)
                then inr p
                else match links with
                     | O => inl ELOOP
                     | S links' =>
                         walk fs links'
                           (if Path.is_absolute_path tgt then [] else cur)
                           (Path.components tgt ++ rest) follow
                     end
            | _ => go p rest follow
            end
        | Some _ => inl ENOTDIR
        | None => inl ENOENT
        end
    end.

(** Resolution of a path string from the working directory [cwd]; the
    empty string names nothing. *)
Definition resolve (fs : t) (cwd : list string) (path : string)
    (follow : bool) : Errno + list string :=
  match path with
  | EmptyString => inl ENOENT
  | _ =>
      walk fs MAXSYMLINKS
        (if Path.is_absolute_path path then [] else cwd)
        (Path.components path) follow
  end.

Definition has_children (fs : t) (p : list string) : bool :=
  bool_decide (Exists (λ k, p `prefix_of` k ∧ k ≠ p) (map_to_list fs).*1).

(** Names of the entries directly inside directory [p]. *)
Definition children (fs : t) (p : list string) : list string :=
  omap (λ k, match drop (length p) k with
             | [c] => if bool_decide (take (length p) k = p)
                      then Some c else None
             | _ => None
             end) (map_to_list fs).*1.

(** stat(2): the kind of the node the path leads to, links followed. *)
Definition stat (fs : t) (cwd : list string) (path : string)
    : Errno + node :=
  match resolve fs cwd path true with
  | inl e => inl e
  | inr p => match node_at fs p with
             | Some n => inr n
             | None => inl ENOENT
             end
  end.

(** lstat(2): like [stat], a final link is reported, not followed. *)
Definition lstat (fs : t) (cwd : list string) (path : string)
    : Errno + node :=
  match resolve fs cwd path false with
  | inl e => inl e
  | inr p => match node_at fs p with
             | Some n => inr n
             | None => inl ENOENT
             end
  end.

(** chmod(2): modes are not kept, the call only has to find its target. *)
Definition chmod (fs : t) (cwd : list string) (path : string)
    : Errno + t :=
  match stat fs cwd path with
  | inl e => inl e
  | inr _ => inr fs
  end.

(** mkdir(2). *)
Definition mkdir (fs : t) (cwd : list string) (path : string)
    : Errno + t :=
  match resolve fs cwd path false with
  | inl e => inl e
  | inr p =>
      match node_at fs p with
      | Some _ => inl EEXIST
      | None => inr (<[p := Dir]> fs)
      end
  end.

(** rmdir(2). *)
Definition rmdir (fs : t) (cwd : list string) (path : string)
    : Errno + t :=
  match resolve fs cwd path false with
  | inl e => inl e
  | inr p =>
      match fs !! p with
      | Some Dir => if has_children fs p then inl ENOTEMPTY
                    else inr (delete p fs)
      | Some _ => inl ENOTDIR
      | None => match p with [] => inl ENOTEMPTY | _ => inl ENOENT end
      end
  end.

(** unlink(2). *)
Definition unlink (fs : t) (cwd : list string) (path : string)
    : Errno + t :=
  match resolve fs cwd path false with
  | inl e => inl e
  | inr p =>
      match fs !! p with
      | Some Dir => inl EISDIR
      | Some _ => inr (delete p fs)
      | None => match p with [] => inl EISDIR | _ => inl ENOENT end
      end
  end.

(** symlink(2): [target] is stored as given. *)
Definition symlink (fs : t) (cwd : list string) (target linkpath : string)
    : Errno + t :=
  match resolve fs cwd linkpath false with
  | inl e => inl e
  | inr p =>
      match node_at fs p with
      | Some _ => inl EEXIST
      | None => inr (<[p := Symlink target]> fs)
      end
  end.

(** opendir(3) followed by reading every entry: "." and ".." come first. *)
Definition readdir (fs : t) (cwd : list string) (path : string)
    : Errno + list string :=
  match resolve fs cwd path true with
  | inl e => inl e
  | inr p =>
      match node_at fs p with
      | Some Dir => inr ("." :: ".." :: children fs p)
      | Some _ => inl ENOTDIR
      | None => inl ENOENT
      end
  end.

(** Modelled from the spec: common/rmtree.c is missing.  [rmtree(path,
    true)] is to "forcibly remove" the directory: its entries are read
    (through a link, if [path] is one) and removed, directories with all
    they hold and anything else, links included, by unlink; then
    [rmdir(path)] is tried.  The result tells whether all of it worked. *)
Definition rmtree (fs : t) (cwd : list string) (path : string)
    : bool * t :=
  match resolve fs cwd path true with
  | inl _ => (false, fs)
  | inr d =>
      match node_at fs d with
      | Some Dir =>
          let emptied :=
            filter (λ kv, ¬ (d `prefix_of` kv.1 ∧ kv.1 ≠ d)) fs in
          match rmdir emptied cwd path with
          | inr fs' => (true, fs')
          | inl _ => (false, emptied)
          end
      | _ => (false, fs)
      end
  end.

End FS.

(** ** Backend data *)

Definition Oid := N.
Definition InvalidOid : Oid := 0%N.
Definition OidIsValid (o : Oid) : bool := negb (o =? InvalidOid)%N.

Inductive elevel := LOG | NOTICE | WARNING | ERROR | PANIC.

Inductive sqlstate :=
| ERRCODE_INSUFFICIENT_PRIVILEGE
| ERRCODE_SYNTAX_ERROR
| ERRCODE_INVALID_NAME
| ERRCODE_INVALID_OBJECT_DEFINITION
| ERRCODE_RESERVED_NAME
| ERRCODE_DUPLICATE_OBJECT
| ERRCODE_UNDEFINED_OBJECT
| ERRCODE_UNDEFINED_FILE
| ERRCODE_OBJECT_IN_USE
| ERRCODE_OBJECT_NOT_IN_PREREQUISITE_STATE
| ERRCODE_WRONG_OBJECT_TYPE
| ERRCODE_T_R_SERIALIZATION_FAILURE
| ERRCODE_INTERNAL_ERROR
| errcode_for_file_access (e : FS.Errno).

(** What [ereport] is given; hints and details are not kept. *)
Record ErrorData := mkError {
  err_level : elevel;
  sqlerrcode : sqlstate;
  message : string
}.

#[global] Instance elevel_eq_dec : EqDecision elevel.
Proof. solve_decision. Defined.
#[global] Instance sqlstate_eq_dec : EqDecision sqlstate.
Proof. solve_decision. Defined.
#[global] Instance ErrorData_eq_dec : EqDecision ErrorData.
Proof. solve_decision. Defined.

Inductive GpRoleValue := GP_ROLE_UTILITY | GP_ROLE_DISPATCH | GP_ROLE_EXECUTE.
#[global] Instance GpRoleValue_eq_dec : EqDecision GpRoleValue.
Proof. solve_decision. Defined.

Inductive AclResult := ACLCHECK_OK | ACLCHECK_NO_PRIV | ACLCHECK_NOT_OWNER.
#[global] Instance AclResult_eq_dec : EqDecision AclResult.
Proof. solve_decision. Defined.

Inductive HTSU_Result :=
| HeapTupleMayBeUpdated | HeapTupleInvisible | HeapTupleSelfUpdated
| HeapTupleUpdated | HeapTupleBeingUpdated.

(** A row of pg_tablespace. *)
Record pg_tablespace := mkRow {
  oid : Oid;
  spcname : string;
  spcowner : Oid;
  spcoptions : option (list string)
}.

Record DefElem := mkDefElem { defname : string; arg : string }.

Record CreateTableSpaceStmt := mkCreateStmt {
  create_tablespacename : string;
  create_owner : option string;
  create_location : string;
  create_options : list DefElem
}.

Record DropTableSpaceStmt := mkDropStmt {
  drop_tablespacename : string;
  drop_missing_ok : bool
}.

Inductive UtilityStmt :=
| T_CreateTableSpaceStmt (s : CreateTableSpaceStmt)
| T_DropTableSpaceStmt (s : DropTableSpaceStmt).

(** cdbdisp_query.h dispatch flags; the call takes their bitwise or. *)
Inductive DispatchFlag :=
| DF_CANCEL_ON_ERROR | DF_NEED_TWO_PHASE | DF_WITH_SNAPSHOT.
#[global] Instance DispatchFlag_eq_dec : EqDecision DispatchFlag.
Proof. solve_decision. Defined.

Inductive CheckpointFlag :=
| CHECKPOINT_IMMEDIATE | CHECKPOINT_FORCE | CHECKPOINT_WAIT.

(** A WAL record of the tablespace resource manager: the info byte and
    the payload, [xl_tblspc_create_rec] (id and path) or
    [xl_tblspc_drop_rec] (id only, [ts_path] is then unused). *)
Record XLogRecord := mkXLogRecord {
  xl_info : Z;
  ts_id : Oid;
  ts_path : string
}.

(** The values of commands/tablespace.h and access/xlog.h. *)
Definition XLOG_TBLSPC_CREATE : Z := 0x00.
Definition XLOG_TBLSPC_DROP : Z := 0x10.
Definition XLR_INFO_MASK : Z := 0x0F.

(** Calls into collaborators outside tablespace.c, in program order. *)
Inductive Call :=
| LWLockAcquire_TablespaceCreateLock
| LWLockRelease_TablespaceCreateLock
| XLogInsert (rec : XLogRecord)
| ForceSyncCommit
| RequestCheckpoint (flags : list CheckpointFlag)
| ResolveRecoveryConflictWithTablespace (ts : Oid)
| CdbDispatchUtilityStatement (stmt : UtilityStmt) (flags : list DispatchFlag)
| MetaTrackAddObject (o : Oid)
| MetaTrackDropObject (o : Oid)
| MetaTrackUpdObject (o : Oid)
| recordDependencyOnOwner (o owner : Oid)
| InvokeObjectPostCreateHook (o : Oid)
| InvokeObjectDropHook (o : Oid)
| InvokeObjectPostAlterHook (o : Oid)
| DeleteSharedComments (o : Oid)
| DeleteSharedSecurityLabel (o : Oid)
| deleteSharedDependencyRecordsFor (o : Oid)
| heap_lock_tuple_KeyShare (o : Oid).

(** Process globals, constants of headers that are not among the sources
    (the two built-in tablespace ids, the path length limits) and
    collaborators that tablespace.c calls but does not define.  What a
    collaborator does to the files (a checkpoint, the resolution of a
    recovery conflict) is a function on the tree; what the row lock of
    [get_tablespace_oid] answers is a function of the row's id. *)
Record Env := mkEnv {
  GLOBALTABLESPACE_OID : Oid;
  DEFAULTTABLESPACE_OID : Oid;
  MyDatabaseTableSpace : Oid;
  InRecovery : bool;
  Gp_role : GpRoleValue;
  GpIdentity_segindex : Z;
  getgpsegmentCount : Z;
  superuser : bool;
  GetUserId : Oid;
  get_role_oid : string -> option Oid;
  allowSystemTableMods : bool;
  IsReservedName : string -> bool;
  pg_tablespace_ownercheck : Oid -> Oid -> bool;
  pg_tablespace_aclcheck_CREATE : Oid -> Oid -> AclResult;
  IsTransactionState : bool;
  default_tablespace : option string;
  temp_tablespaces : string;
  SplitIdentifierString : string -> option (list string);
  canonicalize_path : string -> string;
  pg_atoi_int16 : string -> ErrorData + Z;
  tablespace_reloptions : list DefElem -> ErrorData + option (list string);
  tablespace_version_directory : string;
  GetDatabasePath : Oid -> Oid -> string;
  DataDir : list string;
  MAXPGPATH : nat;
  OIDCHARS : nat;
  FORKNAMECHARS : nat;
  heap_lock_tuple : Oid -> HTSU_Result;
  checkpoint_files : FS.t -> FS.t;
  recovery_conflict_files : Oid -> FS.t -> FS.t;
  random : nat
}.

(** What the code changes: the catalog, the file system, the server log,
    the trace of collaborator calls, the OID counter and fd.c's list of
    temp tablespaces ([None] while [numTempTableSpaces] is -1). *)
Record State := mkState {
  catalog : list pg_tablespace;
  fs : FS.t;
  log : list ErrorData;
  calls : list Call;
  nextOid : Oid;
  tempTableSpaces : option (list Oid);
  nextTempTableSpace : nat
}.

Definition set_catalog (c : list pg_tablespace) (st : State) : State :=
  mkState c (fs st) (log st) (calls st) (nextOid st)
          (tempTableSpaces st) (nextTempTableSpace st).
Definition set_fs (f : FS.t) (st : State) : State :=
  mkState (catalog st) f (log st) (calls st) (nextOid st)
          (tempTableSpaces st) (nextTempTableSpace st).
Definition add_log (e : ErrorData) (st : State) : State :=
  mkState (catalog st) (fs st) (log st ++ [e]) (calls st) (nextOid st)
          (tempTableSpaces st) (nextTempTableSpace st).
Definition add_call (c : Call) (st : State) : State :=
  mkState (catalog st) (fs st) (log st) (calls st ++ [c]) (nextOid st)
          (tempTableSpaces st) (nextTempTableSpace st).
Definition set_nextOid (o : Oid) (st : State) : State :=
  mkState (catalog st) (fs st) (log st) (calls st) o
          (tempTableSpaces st) (nextTempTableSpace st).
Definition set_temp (l : option (list Oid)) (n : nat) (st : State) : State :=
  mkState (catalog st) (fs st) (log st) (calls st) (nextOid st) l n.

(** ** The monad of backend code *)

Inductive Result (A : Type) :=
| OK (a : A)
| RAISE (e : ErrorData).
Arguments OK {A} a.
Arguments RAISE {A} e.

Definition M (A : Type) : Type := State -> Result A * State.

Definition ret {A} (a : A) : M A := fun st => (OK a, st).

Definition bind {A B} (m : M A) (k : A -> M B) : M B :=
  fun st => match m st with
            | (OK a, st') => k a st'
            | (RAISE e, st') => (RAISE e, st')
            end.

Notation "'let*' x ':=' m 'in' k" := (bind m (fun x => k))
  (at level 10, x name, m at level 100, k at level 200).
Notation "m ';;' k" := (bind m (fun _ => k))
  (at level 100, k at level 200, right associativity).

Definition get : M State := fun st => (OK st, st).
Definition modify (f : State -> State) : M unit := fun st => (OK tt, f st).

(** [ereport(level, (errcode(code), errmsg(msg)))]: ERROR and above leave
    the function through the error exit, lower levels write the log. *)
Definition ereport (level : elevel) (code : sqlstate) (msg : string)
    : M unit :=
  match level with
  | ERROR | PANIC => fun st => (RAISE (mkError level code msg), st)
  | _ => modify (add_log (mkError level code msg))
  end.

Definition call (c : Call) : M unit := modify (add_call c).

(** A system call on the state's file system: the new tree on success, the
    errno otherwise. *)
Definition sys (f : FS.t -> FS.Errno + FS.t) : M (option FS.Errno) :=
  fun st => match f (fs st) with
            | inl e => (OK (Some e), st)
            | inr fs' => (OK None, set_fs fs' st)
            end.

Definition when (b : bool) (m : M unit) : M unit :=
  if b then m else ret tt.

(** ** Directory layout and lifecycle *)

Section Directories.

Variable env : Env.

Definition S_ISDIR (r : FS.Errno + FS.node) : bool :=
  match r with inr FS.Dir => true | _ => false end.

Definition stat (path : string) : M (FS.Errno + FS.node) :=
  fun st => (OK (FS.stat (fs st) (DataDir env) path), st).
Definition lstat (path : string) : M (FS.Errno + FS.node) :=
  fun st => (OK (FS.lstat (fs st) (DataDir env) path), st).
Definition chmod (path : string) : M (option FS.Errno) :=
  sys (fun f => FS.chmod f (DataDir env) path).
Definition mkdir (path : string) : M (option FS.Errno) :=
  sys (fun f => FS.mkdir f (DataDir env) path).
Definition rmdir (path : string) : M (option FS.Errno) :=
  sys (fun f => FS.rmdir f (DataDir env) path).
Definition unlink (path : string) : M (option FS.Errno) :=
  sys (fun f => FS.unlink f (DataDir env) path).
Definition symlink (target linkpath : string) : M (option FS.Errno) :=
  sys (fun f => FS.symlink f (DataDir env) target linkpath).
Definition rmtree (path : string) : M bool :=
  fun st => let r := FS.rmtree (fs st) (DataDir env) path in
            (OK r.1, set_fs r.2 st).

(** Modelled from the spec: storage/file/fd.c is missing.  [AllocateDir]
    opens the directory; here it gives all its entries at once, or the
    errno. *)
Definition AllocateDir (path : string) : M (FS.Errno + list string) :=
  fun st => (OK (FS.readdir (fs st) (DataDir env) path), st).

(** Modelled from the spec: storage/file/fd.c is missing.  [ReadDir] on a
    directory that failed to open reports the failure itself ("let
    ReadDir report the error"). *)
Definition ReadDir_NULL (e : FS.Errno) (dirname : string) : M unit :=
  ereport ERROR (errcode_for_file_access e)
          ("could not open directory " +:+ dirname).

Definition is_dot (name : string) : bool :=
  bool_decide (name = ".") || bool_decide (name = "..").

(** [TablespaceCreateDbspace]; the two [Assert]s are compiled out. *)
Definition TablespaceCreateDbspace (spcNode dbNode : Oid) (isRedo : bool)
    : M unit :=
  if (spcNode =? GLOBALTABLESPACE_OID env)%N then ret tt
  else
    let dir := GetDatabasePath env dbNode spcNode in
    let* st := stat dir in
    match st with
    | inl e =>
        if bool_decide (e = FS.ENOENT) then
          call LWLockAcquire_TablespaceCreateLock ;;
          (let* st2 := stat dir in
           if S_ISDIR st2 then ret tt
           else
             let* r := mkdir dir in
             match r with
             | None => ret tt
             | Some e1 =>
                 if negb (bool_decide (e1 = FS.ENOENT)) || negb isRedo then
                   ereport ERROR (errcode_for_file_access e1)
                           ("could not create directory " +:+ dir)
                 else
                   let parentdir := Path.get_parent_directory dir in
                   let* r1 := mkdir parentdir in
                   match r1 with
                   | Some e2 =>
                       when (negb (bool_decide (e2 = FS.EEXIST)))
                         (ereport ERROR (errcode_for_file_access e2)
                            ("could not create directory " +:+ parentdir))
                   | None => ret tt
                   end ;;
                   let parentdir := Path.get_parent_directory dir in
                   let* r2 := mkdir parentdir in
                   match r2 with
                   | Some e2 =>
                       when (negb (bool_decide (e2 = FS.EEXIST)))
                         (ereport ERROR (errcode_for_file_access e2)
                            ("could not create directory " +:+ parentdir))
                   | None => ret tt
                   end ;;
                   let* r3 := mkdir dir in
                   match r3 with
                   | Some e3 =>
                       ereport ERROR (errcode_for_file_access e3)
                               ("could not create directory " +:+ dir)
                   | None => ret tt
                   end
             end) ;;
          call LWLockRelease_TablespaceCreateLock
        else
          ereport ERROR (errcode_for_file_access e)
                  ("could not stat directory " +:+ dir)
    | inr n =>
        if negb (FS.is_dir n) then
          ereport ERROR ERRCODE_WRONG_OBJECT_TYPE
                  (dir +:+ " exists but is not a directory")
        else ret tt
    end.

(** [psprintf("pg_tblspc/%u", tablespaceoid)]. *)
Definition linkloc_of (tablespaceoid : Oid) : string :=
  "pg_tblspc/" +:+ pretty tablespaceoid.

Definition create_tablespace_directories (location : string)
    (tablespaceoid : Oid) : M unit :=
  let linkloc := linkloc_of tablespaceoid in
  let location_with_version_dir :=
    Path.slash location (tablespace_version_directory env) in
  let* r := chmod location in
  match r with
  | Some e =>
      if bool_decide (e = FS.ENOENT) then
        ereport ERROR ERRCODE_UNDEFINED_FILE
                ("directory " +:+ location +:+ " does not exist")
      else
        ereport ERROR (errcode_for_file_access e)
                ("could not set permissions on directory " +:+ location)
  | None => ret tt
  end ;;
  when (InRecovery env)
    (let* st := stat location_with_version_dir in
     if S_ISDIR st then
       let* ok := rmtree location_with_version_dir in
       when (negb ok)
         (ereport WARNING ERRCODE_INTERNAL_ERROR
            ("some useless files may be left behind in old database directory "
               +:+ location_with_version_dir))
     else ret tt) ;;
  (let* r := mkdir location_with_version_dir in
   match r with
   | Some e =>
       if bool_decide (e = FS.EEXIST) then
         ereport ERROR ERRCODE_OBJECT_IN_USE
                 ("directory " +:+ location_with_version_dir
                    +:+ " already in use as a tablespace")
       else
         ereport ERROR (errcode_for_file_access e)
                 ("could not create directory "
                    +:+ location_with_version_dir)
   | None => ret tt
   end) ;;
  when (InRecovery env)
    (let* st := lstat linkloc in
     if S_ISDIR st then
       let* r := rmdir linkloc in
       match r with
       | Some e => ereport ERROR (errcode_for_file_access e)
                           ("could not remove directory " +:+ linkloc)
       | None => ret tt
       end
     else
       let* r := unlink linkloc in
       match r with
       | Some e =>
           when (negb (bool_decide (e = FS.ENOENT)))
             (ereport ERROR (errcode_for_file_access e)
                      ("could not remove symbolic link " +:+ linkloc))
       | None => ret tt
       end) ;;
  let* r := symlink location linkloc in
  match r with
  | Some e => ereport ERROR (errcode_for_file_access e)
                      ("could not create symbolic link " +:+ linkloc)
  | None => ret tt
  end.

(** The scan of [directory_is_empty] over the entries read. *)
Fixpoint directory_is_empty_scan (entries : list string) : bool :=
  match entries with
  | [] => true
  | name :: rest =>
      if is_dot name then directory_is_empty_scan rest else false
  end.

Definition directory_is_empty (path : string) : M bool :=
  let* dirdesc := AllocateDir path in
  match dirdesc with
  | inl e => ReadDir_NULL e path ;; ret true
  | inr entries => ret (directory_is_empty_scan entries)
  end.

(** The [while ((de = ReadDir(...)) != NULL)] loop of
    [destroy_tablespace_directories]: [Some false] is its early
    [return false], [None] is the loop running to its end. *)
Fixpoint destroy_scan (redo : bool) (linkloc_with_version_dir : string)
    (entries : list string) : M (option bool) :=
  match entries with
  | [] => ret None
  | d_name :: rest =>
      if is_dot d_name then
        destroy_scan redo linkloc_with_version_dir rest
      else
        let subfile := Path.slash linkloc_with_version_dir d_name in
        let* empty := (if redo then ret true
                       else directory_is_empty subfile) in
        if negb redo && negb empty then ret (Some false)
        else
          let* r := rmdir subfile in
          match r with
          | Some e =>
              ereport (if redo then LOG else ERROR)
                      (errcode_for_file_access e)
                      ("could not remove directory " +:+ subfile)
          | None => ret tt
          end ;;
          destroy_scan redo linkloc_with_version_dir rest
  end.

(** The code from the label [remove_symlink] to the end. *)
Definition remove_symlink (redo : bool) (linkloc_with_version_dir : string)
    : M bool :=
  let linkloc := Path.get_parent_directory linkloc_with_version_dir in
  let* st := lstat linkloc in
  (if S_ISDIR st then
     let* r := rmdir linkloc in
     match r with
     | Some e => ereport (if redo then LOG else ERROR)
                         (errcode_for_file_access e)
                         ("could not remove directory " +:+ linkloc)
     | None => ret tt
     end
   else
     let* r := unlink linkloc in
     match r with
     | Some saved_errno =>
         ereport (if redo then LOG
                  else if bool_decide (saved_errno = FS.ENOENT)
                       then WARNING else ERROR)
                 (errcode_for_file_access saved_errno)
                 ("could not remove symbolic link " +:+ linkloc)
     | None => ret tt
     end) ;;
  ret true.

Definition destroy_tablespace_directories (tablespaceoid : Oid)
    (redo : bool) : M bool :=
  let linkloc_with_version_dir :=
    Path.slash (linkloc_of tablespaceoid)
               (tablespace_version_directory env) in
  let* dirdesc := AllocateDir linkloc_with_version_dir in
  match dirdesc with
  | inl e =>
      if bool_decide (e = FS.ENOENT) then
        when (negb redo)
          (ereport WARNING (errcode_for_file_access e)
                   ("could not open directory "
                      +:+ linkloc_with_version_dir)) ;;
        remove_symlink redo linkloc_with_version_dir
      else if redo then
        ereport LOG (errcode_for_file_access e)
                ("could not open directory " +:+ linkloc_with_version_dir) ;;
        ret false
      else
        ReadDir_NULL e linkloc_with_version_dir ;; ret false
  | inr entries =>
      let* early := destroy_scan redo linkloc_with_version_dir entries in
      match early with
      | Some b => ret b
      | None =>
          let* r := rmdir linkloc_with_version_dir in
          match r with
          | Some e =>
              ereport (if redo then LOG else ERROR)
                      (errcode_for_file_access e)
                      ("could not remove directory "
                         +:+ linkloc_with_version_dir) ;;
              ret false
          | None => remove_symlink redo linkloc_with_version_dir
          end
      end
  end.

End Directories.

(** ** Catalog commands *)

Section Commands.

Variable env : Env.

(** Modelled from the spec: catalog/aclchk.c is missing; a failed
    permission or ownership check is reported as a privilege error
    (PermissionDenied: not privileged / not owner). *)
Definition aclcheck_error (aclerr : AclResult) (objectname : string)
    : M unit :=
  match aclerr with
  | ACLCHECK_OK => ret tt
  | ACLCHECK_NO_PRIV =>
      ereport ERROR ERRCODE_INSUFFICIENT_PRIVILEGE
              ("permission denied for tablespace " +:+ objectname)
  | ACLCHECK_NOT_OWNER =>
      ereport ERROR ERRCODE_INSUFFICIENT_PRIVILEGE
              ("must be owner of tablespace " +:+ objectname)
  end.

(** Heap scan of pg_tablespace with a key on spcname: the first match,
    with its position in the heap (its [t_self]). *)
Definition scan_by_name (name : string) (rows : list pg_tablespace)
    : option (nat * pg_tablespace) :=
  list_find (fun r => spcname r = name) rows.

Definition scan_by_oid (o : Oid) (rows : list pg_tablespace)
    : option (nat * pg_tablespace) :=
  list_find (fun r => oid r = o) rows.

Definition simple_heap_delete (t_self : nat) : M unit :=
  modify (fun st => set_catalog (delete t_self (catalog st)) st).

Definition simple_heap_update (t_self : nat) (newtuple : pg_tablespace)
    : M unit :=
  modify (fun st => set_catalog (<[t_self := newtuple]> (catalog st)) st).

(** The new row takes the next id of the 32-bit OID counter. *)
Definition simple_heap_insert (name : string) (owner : Oid)
    (options : option (list string)) : M Oid :=
  fun st =>
    let o := nextOid st in
    (OK o, set_nextOid ((o + 1) mod 2 ^ 32)%N
             (set_catalog (catalog st ++ [mkRow o name owner options]) st)).

Definition get_tablespace_oid (tablespacename : string) (missing_ok : bool)
    : M Oid :=
  let* st := get in
  let result := match scan_by_name tablespacename (catalog st) with
                | Some (_, tuple) => oid tuple
                | None => InvalidOid
                end in
  when (OidIsValid result)
    (call (heap_lock_tuple_KeyShare result) ;;
     match heap_lock_tuple env result with
     | HeapTupleMayBeUpdated => ret tt
     | HeapTupleSelfUpdated | HeapTupleBeingUpdated | HeapTupleUpdated =>
         ereport ERROR ERRCODE_T_R_SERIALIZATION_FAILURE
                 ("could not serialize access to tablespace "
                    +:+ tablespacename +:+ " due to concurrent update")
     | _ =>
         ereport ERROR ERRCODE_INTERNAL_ERROR
                 "unrecognized heap_lock_tuple_status"
     end) ;;
  when (negb (OidIsValid result) && negb missing_ok)
    (ereport ERROR ERRCODE_UNDEFINED_OBJECT
             ("tablespace " +:+ tablespacename +:+ " does not exist")) ;;
  ret result.

Definition get_tablespace_name (spc_oid : Oid) : M (option string) :=
  let* st := get in
  ret ((fun t => spcname t.2) <$> scan_by_oid spc_oid (catalog st)).

(** The [foreach(option, stmt->options)] loop of [CreateTableSpace]: the
    location given for this segment's content id, if any. *)
Fixpoint segment_location (options : list DefElem) : M (option string) :=
  match options with
  | [] => ret None
  | defel :: rest =>
      if (String.length "content" <? String.length (defname defel))%nat
         && String.prefix "content" (defname defel)
      then
        match pg_atoi_int16 env
                (String.substring (String.length "content")
                   (String.length (defname defel)
                      - String.length "content") (defname defel)) with
        | inl e => (fun st => (RAISE e, st))
        | inr contentId =>
            if bool_decide (Gp_role env = GP_ROLE_DISPATCH) then
              when ((contentId <? 0)%Z
                    || (getgpsegmentCount env <=? contentId)%Z)
                (ereport ERROR ERRCODE_SYNTAX_ERROR
                         "segment content ID does not exist") ;;
              segment_location rest
            else if (contentId =? GpIdentity_segindex env)%Z then
              ret (Some (arg defel))
            else segment_location rest
        end
      else
        ereport ERROR ERRCODE_SYNTAX_ERROR
                "invalid segment specification" ;;
        ret None
  end.

Definition CreateTableSpace (stmt : CreateTableSpaceStmt) : M Oid :=
  when (negb (superuser env))
    (ereport ERROR ERRCODE_INSUFFICIENT_PRIVILEGE
             ("permission denied to create tablespace "
                +:+ create_tablespacename stmt)) ;;
  let* ownerId :=
    match create_owner stmt with
    | Some owner =>
        match get_role_oid env owner with
        | Some o => ret o
        | None =>
            ereport ERROR ERRCODE_UNDEFINED_OBJECT
                    ("role " +:+ owner +:+ " does not exist") ;;
            ret InvalidOid
        end
    | None => ret (GetUserId env)
    end in
  let* location := segment_location (create_options stmt) in
  let location := match location with
                  | Some l => l
                  | None => create_location stmt
                  end in
  let location := canonicalize_path env location in
  when (Path.strchr location "'"%char)
    (ereport ERROR ERRCODE_INVALID_NAME
             "tablespace location cannot contain single quotes") ;;
  when (negb (Path.is_absolute_path location))
    (ereport ERROR ERRCODE_INVALID_OBJECT_DEFINITION
             "tablespace location must be an absolute path") ;;
  when (MAXPGPATH env <?
          String.length location + 1
          + String.length (tablespace_version_directory env) + 1
          + OIDCHARS env + 1 + OIDCHARS env + 1 + FORKNAMECHARS env + 1
          + OIDCHARS env)%nat
    (ereport ERROR ERRCODE_INVALID_OBJECT_DEFINITION
             ("tablespace location " +:+ location +:+ " is too long")) ;;
  when (negb (allowSystemTableMods env)
        && IsReservedName env (create_tablespacename stmt))
    (ereport ERROR ERRCODE_RESERVED_NAME
             ("unacceptable tablespace name "
                +:+ create_tablespacename stmt)) ;;
  let* existing := get_tablespace_oid (create_tablespacename stmt) true in
  when (OidIsValid existing)
    (ereport ERROR ERRCODE_DUPLICATE_OBJECT
             ("tablespace " +:+ create_tablespacename stmt
                +:+ " already exists")) ;;
  let* newOptions :=
    match tablespace_reloptions env (create_options stmt) with
    | inl e => (fun st => (RAISE e, st))
    | inr o => ret o
    end in
  let* tablespaceoid :=
    simple_heap_insert (create_tablespacename stmt) ownerId newOptions in
  call (recordDependencyOnOwner tablespaceoid ownerId) ;;
  call (InvokeObjectPostCreateHook tablespaceoid) ;;
  create_tablespace_directories env location tablespaceoid ;;
  call (XLogInsert (mkXLogRecord XLOG_TBLSPC_CREATE tablespaceoid location)) ;;
  call ForceSyncCommit ;;
  when (bool_decide (Gp_role env = GP_ROLE_DISPATCH))
    (call (CdbDispatchUtilityStatement (T_CreateTableSpaceStmt stmt)
             [DF_CANCEL_ON_ERROR; DF_WITH_SNAPSHOT; DF_NEED_TWO_PHASE]) ;;
     call (MetaTrackAddObject tablespaceoid)) ;;
  ret tablespaceoid.

(** bgwriter's [RequestCheckpoint] with CHECKPOINT_WAIT: the checkpoint
    has run when the call returns. *)
Definition RequestCheckpoint_wait (flags : list CheckpointFlag) : M unit :=
  call (RequestCheckpoint flags) ;;
  modify (fun st => set_fs (checkpoint_files env (fs st)) st).

(** [DropTableSpace], first part: the target row is found, checked and
    deleted, and TablespaceCreateLock is taken.  [None] is the early
    [return] of the IF EXISTS case. *)
Definition DropTableSpace_catalog (stmt : DropTableSpaceStmt)
    : M (option Oid) :=
  let tablespacename := drop_tablespacename stmt in
  let* st := get in
  match scan_by_name tablespacename (catalog st) with
  | None =>
      (if negb (drop_missing_ok stmt) then
         ereport ERROR ERRCODE_UNDEFINED_OBJECT
                 ("tablespace " +:+ tablespacename +:+ " does not exist")
       else
         ereport NOTICE ERRCODE_UNDEFINED_OBJECT
                 ("tablespace " +:+ tablespacename
                    +:+ " does not exist, skipping")) ;;
      ret None
  | Some (t_self, tuple) =>
      let tablespaceoid := oid tuple in
      when (negb (pg_tablespace_ownercheck env tablespaceoid (GetUserId env)))
        (aclcheck_error ACLCHECK_NOT_OWNER tablespacename) ;;
      when ((tablespaceoid =? GLOBALTABLESPACE_OID env)%N
            || (tablespaceoid =? DEFAULTTABLESPACE_OID env)%N)
        (aclcheck_error ACLCHECK_NO_PRIV tablespacename) ;;
      call (InvokeObjectDropHook tablespaceoid) ;;
      simple_heap_delete t_self ;;
      call (DeleteSharedComments tablespaceoid) ;;
      call (DeleteSharedSecurityLabel tablespaceoid) ;;
      call (deleteSharedDependencyRecordsFor tablespaceoid) ;;
      when (bool_decide (Gp_role env = GP_ROLE_DISPATCH))
        (call (MetaTrackDropObject tablespaceoid)) ;;
      call LWLockAcquire_TablespaceCreateLock ;;
      ret (Some tablespaceoid)
  end.

(** [DropTableSpace], second part: "Try to remove the physical
    infrastructure". *)
Definition DropTableSpace_directories (tablespacename : string)
    (tablespaceoid : Oid) : M unit :=
  let* ok := destroy_tablespace_directories env tablespaceoid false in
  if negb ok then
    RequestCheckpoint_wait
      [CHECKPOINT_IMMEDIATE; CHECKPOINT_FORCE; CHECKPOINT_WAIT] ;;
    let* ok2 := destroy_tablespace_directories env tablespaceoid false in
    when (negb ok2)
      (ereport ERROR ERRCODE_OBJECT_NOT_IN_PREREQUISITE_STATE
               ("tablespace " +:+ tablespacename +:+ " is not empty"))
  else ret tt.

(** [DropTableSpace], last part: WAL, commit mode, lock release and
    dispatch. *)
Definition DropTableSpace_finish (stmt : DropTableSpaceStmt)
    (tablespaceoid : Oid) : M unit :=
  call (XLogInsert (mkXLogRecord XLOG_TBLSPC_DROP tablespaceoid "")) ;;
  call ForceSyncCommit ;;
  call LWLockRelease_TablespaceCreateLock ;;
  when (bool_decide (Gp_role env = GP_ROLE_DISPATCH))
    (call (CdbDispatchUtilityStatement (T_DropTableSpaceStmt stmt)
             [DF_CANCEL_ON_ERROR; DF_WITH_SNAPSHOT; DF_NEED_TWO_PHASE])).

Definition DropTableSpace (stmt : DropTableSpaceStmt) : M unit :=
  let* found := DropTableSpace_catalog stmt in
  match found with
  | None => ret tt
  | Some tablespaceoid =>
      DropTableSpace_directories (drop_tablespacename stmt) tablespaceoid ;;
      DropTableSpace_finish stmt tablespaceoid
  end.

(** [namestrcpy(&(newform->spcname), newname)] on a copy of the row. *)
Definition namestrcpy_spcname (tup : pg_tablespace) (newname : string)
    : pg_tablespace :=
  mkRow (oid tup) newname (spcowner tup) (spcoptions tup).

Definition RenameTableSpace (oldname newname : string) : M Oid :=
  let* st := get in
  match scan_by_name oldname (catalog st) with
  | None =>
      ereport ERROR ERRCODE_UNDEFINED_OBJECT
              ("tablespace " +:+ oldname +:+ " does not exist") ;;
      ret InvalidOid
  | Some (t_self, tup) =>
      let tspId := oid tup in
      let tablespaceoid := oid tup in
      when (negb (pg_tablespace_ownercheck env tablespaceoid (GetUserId env)))
        (aclcheck_error ACLCHECK_NO_PRIV oldname) ;;
      when (negb (allowSystemTableMods env) && IsReservedName env newname)
        (ereport ERROR ERRCODE_RESERVED_NAME
                 ("unacceptable tablespace name " +:+ newname)) ;;
      match scan_by_name newname (catalog st) with
      | Some _ =>
          ereport ERROR ERRCODE_DUPLICATE_OBJECT
                  ("tablespace " +:+ newname +:+ " already exists")
      | None => ret tt
      end ;;
      simple_heap_update t_self (namestrcpy_spcname tup newname) ;;
      when (bool_decide (Gp_role env = GP_ROLE_DISPATCH))
        (call (MetaTrackUpdObject tablespaceoid)) ;;
      call (InvokeObjectPostAlterHook tspId) ;;
      ret tspId
  end.

(** Modelled from the spec: storage/file/fd.c is missing.  The list is
    "parsed once per transaction" and used "in round-robin fashion"; the
    start of the rotation is picked at random. *)
Definition TempTablespacesAreSet (st : State) : bool :=
  match tempTableSpaces st with Some _ => true | None => false end.

(** Modelled from the spec: storage/file/fd.c is missing.  The list is
    kept for the transaction, with a starting point for its rotation. *)
Definition SetTempTablespaces (tableSpaces : list Oid) : M unit :=
  modify (set_temp (Some tableSpaces)
            (if (1 <? length tableSpaces)%nat
             then random env `mod` length tableSpaces else 0)).

(** Modelled from the spec: storage/file/fd.c is missing.  The ids are
    returned "round-robin on successive calls"; an empty or unset list
    gives the sentinel. *)
Definition GetNextTempTableSpace : M Oid :=
  fun st =>
    match tempTableSpaces st with
    | Some (x :: l) =>
        let n := if (length (x :: l) <=? S (nextTempTableSpace st))%nat
                 then 0 else S (nextTempTableSpace st) in
        (OK (default InvalidOid ((x :: l) !! n)),
         set_temp (Some (x :: l)) n st)
    | _ => (OK InvalidOid, st)
    end.

(** The [foreach(l, namelist)] loop of [PrepareTempTablespaces]:
    [tblSpcs] is the array being filled, [numSpcs] the number of slots
    in use. *)
Fixpoint PrepareTempTablespaces_loop (namelist : list string)
    (tblSpcs : list Oid) (numSpcs : nat) : M (list Oid * nat) :=
  match namelist with
  | [] => ret (tblSpcs, numSpcs)
  | curname :: rest =>
      if bool_decide (curname = "") then
        PrepareTempTablespaces_loop rest
          (<[numSpcs := InvalidOid]> tblSpcs) (S numSpcs)
      else
        let* curoid := get_tablespace_oid curname true in
        if (curoid =? InvalidOid)%N then
          PrepareTempTablespaces_loop rest tblSpcs numSpcs
        else if (curoid =? MyDatabaseTableSpace env)%N then
          PrepareTempTablespaces_loop rest
            (<[numSpcs := InvalidOid]> tblSpcs) (S numSpcs)
        else
          let aclresult :=
            pg_tablespace_aclcheck_CREATE env curoid (GetUserId env) in
          if negb (bool_decide (aclresult = ACLCHECK_OK)) then
            PrepareTempTablespaces_loop rest tblSpcs numSpcs
          else
            PrepareTempTablespaces_loop rest
              (<[numSpcs := curoid]> tblSpcs) (S numSpcs)
  end.

Definition PrepareTempTablespaces : M unit :=
  let* st := get in
  if TempTablespacesAreSet st then ret tt
  else if negb (IsTransactionState env) then ret tt
  else
    let rawname := temp_tablespaces env in
    match SplitIdentifierString env rawname with
    | None => SetTempTablespaces []
    | Some namelist =>
        let tblSpcs := replicate (length namelist) InvalidOid in
        let* r := PrepareTempTablespaces_loop namelist tblSpcs 0 in
        SetTempTablespaces (take r.2 r.1)
    end.

Definition RELPERSISTENCE_TEMP : ascii := "t"%char.

Definition GetDefaultTablespace (relpersistence : ascii) : M Oid :=
  if bool_decide (relpersistence = RELPERSISTENCE_TEMP) then
    PrepareTempTablespaces ;;
    GetNextTempTableSpace
  else
    match default_tablespace env with
    | None => ret InvalidOid
    | Some EmptyString => ret InvalidOid
    | Some name =>
        let* result := get_tablespace_oid name true in
        if (result =? MyDatabaseTableSpace env)%N then ret InvalidOid
        else ret result
    end.

(** ** WAL replay *)

Definition ResolveRecoveryConflict (ts : Oid) : M unit :=
  call (ResolveRecoveryConflictWithTablespace ts) ;;
  modify (fun st => set_fs (recovery_conflict_files env ts (fs st)) st).

(** [record->xl_info & ~XLR_INFO_MASK], as a uint8. *)
Definition record_info (record : XLogRecord) : Z :=
  (Z.land (xl_info record) (Z.lnot XLR_INFO_MASK) mod 2 ^ 8)%Z.

Definition tblspc_redo (record : XLogRecord) : M unit :=
  let info := record_info record in
  if (info =? XLOG_TBLSPC_CREATE)%Z then
    let location := ts_path record in
    create_tablespace_directories env location (ts_id record)
  else if (info =? XLOG_TBLSPC_DROP)%Z then
    let* ok := destroy_tablespace_directories env (ts_id record) true in
    if negb ok then
      ResolveRecoveryConflict (ts_id record) ;;
      let* ok2 := destroy_tablespace_directories env (ts_id record) true in
      when (negb ok2)
        (ereport LOG ERRCODE_OBJECT_NOT_IN_PREREQUISITE_STATE
                 ("directories for tablespace " +:+ pretty (ts_id record)
                    +:+ " could not be removed"))
    else ret tt
  else
    ereport PANIC ERRCODE_INTERNAL_ERROR "tblspc_redo: unknown op code".

End Commands.

(** ** ALTER TABLESPACE ... SET / RESET *)

Record AlterTableSpaceOptionsStmt := mkOptionsStmt {
  alter_tablespacename : string;
  alter_options : list DefElem;
  isReset : bool
}.

Section Options.

Variable env : Env.

(** access/common/reloptions.c is not among the sources:
    [transformRelOptions], with the validating [tablespace_reloptions]
    that follows it, is a parameter.  It gives the new text array ([None]
    is the null datum) from the old one, the statement's list and
    [isReset], or the error it reports. *)
Variable transformRelOptions :
  option (list string) -> list DefElem -> bool
  -> ErrorData + option (list string).

(** [heap_modify_tuple] replacing the spcoptions column only. *)
Definition heap_modify_tuple_spcoptions (tup : pg_tablespace)
    (newOptions : option (list string)) : pg_tablespace :=
  mkRow (oid tup) (spcname tup) (spcowner tup) newOptions.

Definition AlterTableSpaceOptions (stmt : AlterTableSpaceOptionsStmt)
    : M Oid :=
  let* st := get in
  match scan_by_name (alter_tablespacename stmt) (catalog st) with
  | None =>
      ereport ERROR ERRCODE_UNDEFINED_OBJECT
              ("tablespace " +:+ alter_tablespacename stmt
                 +:+ " does not exist") ;;
      ret InvalidOid
  | Some (t_self, tup) =>
      let tablespaceoid := oid tup in
      when (negb (pg_tablespace_ownercheck env (oid tup) (GetUserId env)))
        (aclcheck_error ACLCHECK_NOT_OWNER (alter_tablespacename stmt)) ;;
      let* newOptions :=
        match transformRelOptions (spcoptions tup) (alter_options stmt)
                (isReset stmt) with
        | inl e => (fun st => (RAISE e, st))
        | inr o => ret o
        end in
      simple_heap_update t_self
        (heap_modify_tuple_spcoptions tup newOptions) ;;
      call (InvokeObjectPostAlterHook (oid tup)) ;;
      ret tablespaceoid
  end.

End Options.

(** ** The setting temp_tablespaces *)

(** utils/guc.h is not among the sources: the two values of [GucSource]
    that the hooks compare a source with are parameters, and so is whether
    [malloc] gives the hook the memory for so many ids. *)
Record GucEnv := mkGucEnv {
  PGC_S_INTERACTIVE : Z;
  PGC_S_TEST : Z;
  malloc_ok : nat -> bool
}.

(** What a check hook answers: [true], with what it left in [*extra]
    ([None] when it did not touch it), or [false], with the text it gave to
    [GUC_check_errdetail], if any. *)
Inductive check_hook_result :=
| hook_true (extra : option (list Oid))
| hook_false (errdetail : option string).

Section Settings.

Variable env : Env.
Variable guc : GucEnv.

(** The [foreach(l, namelist)] loop of [check_temp_tablespaces]. *)
Fixpoint check_temp_tablespaces_loop (source : Z) (namelist : list string)
    (tblSpcs : list Oid) (numSpcs : nat) : M (list Oid * nat) :=
  match namelist with
  | [] => ret (tblSpcs, numSpcs)
  | curname :: rest =>
      if bool_decide (curname = "") then
        check_temp_tablespaces_loop source rest
          (<[numSpcs := InvalidOid]> tblSpcs) (S numSpcs)
      else
        let* curoid :=
          get_tablespace_oid env curname (source <=? PGC_S_TEST guc)%Z in
        if (curoid =? InvalidOid)%N then
          when (source =? PGC_S_TEST guc)%Z
            (ereport NOTICE ERRCODE_UNDEFINED_OBJECT
                     ("tablespace " +:+ curname +:+ " does not exist")) ;;
          check_temp_tablespaces_loop source rest tblSpcs numSpcs
        else if (curoid =? MyDatabaseTableSpace env)%N then
          check_temp_tablespaces_loop source rest
            (<[numSpcs := InvalidOid]> tblSpcs) (S numSpcs)
        else
          let aclresult :=
            pg_tablespace_aclcheck_CREATE env curoid (GetUserId env) in
          if negb (bool_decide (aclresult = ACLCHECK_OK)) then
            when (PGC_S_INTERACTIVE guc <=? source)%Z
              (aclcheck_error aclresult curname) ;;
            check_temp_tablespaces_loop source rest tblSpcs numSpcs
          else
            check_temp_tablespaces_loop source rest
              (<[numSpcs := curoid]> tblSpcs) (S numSpcs)
  end.

Definition check_temp_tablespaces (newval : string) (source : Z)
    : M check_hook_result :=
  match SplitIdentifierString env newval with
  | None => ret (hook_false (Some "List syntax is invalid."))
  | Some namelist =>
      if IsTransactionState env then
        let tblSpcs := replicate (length namelist) InvalidOid in
        let* r := check_temp_tablespaces_loop source namelist tblSpcs 0 in
        if negb (malloc_ok guc r.2) then ret (hook_false None)
        else ret (hook_true (Some (take r.2 r.1)))
      else ret (hook_true None)
  end.

Definition assign_temp_tablespaces (extra : option (list Oid)) : M unit :=
  match extra with
  | Some tblSpcs => SetTempTablespaces env tblSpcs
  | None => SetTempTablespaces env []
  end.

End Settings.

(** ** Transactions *)

(** Modelled from the spec: access/transam/xact.c is missing.  An error
    aborts the transaction and "the catalog change rolls back"; directory
    operations are "not part of the transactional rollback domain", and the
    log and the calls already made stay as they are. *)
Definition in_transaction {A} (m : M A) : M A :=
  fun st => match m st with
            | (OK a, st') => (OK a, st')
            | (RAISE e, st') => (RAISE e, set_catalog (catalog st) st')
            end.

(** ** Notions used in the statements

    Observations of states and runs, the specification-level list of temp
    tablespaces, the errors named in the theorems, and what replay of a
    Create record asks of the tree it is run on. *)

(** The parts of the state outside the file system and the log. *)
Definition same_backend (st st' : State) : Prop :=
  catalog st' = catalog st /\ calls st' = calls st
  /\ nextOid st' = nextOid st /\ tempTableSpaces st' = tempTableSpaces st
  /\ nextTempTableSpace st' = nextTempTableSpace st.

Definition fs_only {A} (m : M A) : Prop :=
  forall st r st', m st = (r, st') -> same_backend st st'.

(** The dispatches to the workers found in a call trace. *)
Definition dispatches (cs : list Call)
    : list (UtilityStmt * list DispatchFlag) :=
  omap (fun c => match c with
                 | CdbDispatchUtilityStatement stmt flags => Some (stmt, flags)
                 | _ => None
                 end) cs.

Definition all_dispatch_flags : list DispatchFlag :=
  [DF_CANCEL_ON_ERROR; DF_WITH_SNAPSHOT; DF_NEED_TWO_PHASE].

(** The location CreateTableSpace goes on to check and use: the segment's
    own location if the options give one, the statement's otherwise, made
    canonical. *)
Definition location_of (env : Env) (stmt : CreateTableSpaceStmt)
    (segment : option string) : string :=
  canonicalize_path env
    (match segment with
     | Some l => l
     | None => create_location stmt
     end).

Definition location_too_long (env : Env) (location : string) : bool :=
  (MAXPGPATH env <?
     String.length location + 1
     + String.length (tablespace_version_directory env) + 1
     + OIDCHARS env + 1 + OIDCHARS env + 1 + FORKNAMECHARS env + 1
     + OIDCHARS env)%nat.

(** [m] returns normally from every state. *)
Definition total {A} (m : M A) : Prop :=
  forall st, exists a st', m st = (OK a, st').

(** The state in which the second attempt of replay starts. *)
Definition after_conflict_resolution (env : Env) (ts : Oid) (st : State)
    : State :=
  set_fs (recovery_conflict_files env ts (fs st))
         (add_call (ResolveRecoveryConflictWithTablespace ts) st).

Definition directories_not_removed (ts : Oid) : ErrorData :=
  mkError LOG ERRCODE_OBJECT_NOT_IN_PREREQUISITE_STATE
          ("directories for tablespace " +:+ pretty ts
             +:+ " could not be removed").

Definition immediate_checkpoint : Call :=
  RequestCheckpoint [CHECKPOINT_IMMEDIATE; CHECKPOINT_FORCE; CHECKPOINT_WAIT].

(** The state in which the second attempt of DropTableSpace starts. *)
Definition after_checkpoint (env : Env) (st : State) : State :=
  set_fs (checkpoint_files env (fs st)) (add_call immediate_checkpoint st).

Definition not_empty_error (tablespacename : string) : ErrorData :=
  mkError ERROR ERRCODE_OBJECT_NOT_IN_PREREQUISITE_STATE
          ("tablespace " +:+ tablespacename +:+ " is not empty").

(** What one name of the temp_tablespaces list contributes, in the words of
    the specification: the sentinel for an empty entry and for the
    database's default tablespace, nothing for a name that does not resolve
    or a tablespace the caller may not create in, the id otherwise.  (A row
    bearing the invalid id cannot be told from a missing one.) *)
Definition temp_entry (env : Env) (rows : list pg_tablespace)
    (name : string) : option Oid :=
  if bool_decide (name = "") then Some InvalidOid
  else match scan_by_name name rows with
       | None => None
       | Some (_, tup) =>
           if bool_decide (oid tup = InvalidOid) then None
           else if bool_decide (oid tup = MyDatabaseTableSpace env)
           then Some InvalidOid
           else if bool_decide
                     (pg_tablespace_aclcheck_CREATE env (oid tup)
                        (GetUserId env) = ACLCHECK_OK)
           then Some (oid tup)
           else None
       end.

Definition temp_list (env : Env) (rows : list pg_tablespace)
    (names : list string) : list Oid :=
  omap (temp_entry env rows) names.

Definition in_use_error (env : Env) (location : string) : ErrorData :=
  mkError ERROR ERRCODE_OBJECT_IN_USE
          ("directory "
             +:+ Path.slash location (tablespace_version_directory env)
             +:+ " already in use as a tablespace").

(** Every proper prefix of [p] is a directory. *)
Definition below_dirs (fs : FS.t) (p : list string) : Prop :=
  forall q, q `prefix_of` p -> q <> p -> FS.node_at fs q = Some FS.Dir.

(** The tree without [V] and all below it. *)
Definition remove_tree (V : list string) (f : FS.t) : FS.t :=
  filter (λ kv, ¬ V `prefix_of` kv.1) f.

(** The prefixes of a path, itself included. *)
Definition prefixes (p : list string) : list (list string) :=
  (fun n => take n p) <$> seq 0 (S (length p)).

Definition is_dir_at (f : FS.t) (q : list string) : bool :=
  bool_decide (FS.node_at f q = Some FS.Dir).

(** Every entry lies in a directory: the tree is a tree. *)
Definition well_formed (f : FS.t) : Prop :=
  forall k x, f !! k = Some x -> below_dirs f k.

(** [h] is [f] but for what lies inside the directory [V] and for what is
    at [K]. *)
Definition same_outside (V K : list string) (f h : FS.t) : Prop :=
  forall k, ¬ (V `prefix_of` k /\ k <> V) -> k <> K -> h !! k = f !! k.

(** The two conditions as checks that can be run on a given tree. *)
Definition well_formed_b (f : FS.t) : bool :=
  forallb (fun k => forallb (fun q => bool_decide (q = k) || is_dir_at f q)
                            (prefixes k))
          (map_to_list f).*1.

Definition same_outside_b (V K : list string) (f h : FS.t) : bool :=
  forallb (fun k => bool_decide (V `prefix_of` k /\ k <> V)
                    || bool_decide (k = K)
                    || bool_decide (h !! k = f !! k))
          ((map_to_list f).*1 ++ (map_to_list h).*1).

(** [m] never changes what [f] observes of the state. *)
Definition preserves {X : Type} (f : State -> X) {A} (m : M A) : Prop :=
  forall st r st', m st = (r, st') -> f st' = f st.

(** The WAL records found in a call trace. *)
Definition wal_records (cs : list Call) : list XLogRecord :=
  omap (fun c => match c with
                 | XLogInsert rec => Some rec
                 | _ => None
                 end) cs.

(** The unique indexes of pg_tablespace: no two rows bear the same name,
    no two the same id. *)
Definition unique_names (rows : list pg_tablespace) : Prop :=
  NoDup (spcname <$> rows).

Definition unique_oids (rows : list pg_tablespace) : Prop :=
  NoDup (oid <$> rows).

(** The state a rename leaves. *)
Definition renamed (env : Env) (t_self : nat) (tup : pg_tablespace)
    (newname : string) (st : State) : State :=
  add_call (InvokeObjectPostAlterHook (oid tup))
    ((if bool_decide (Gp_role env = GP_ROLE_DISPATCH)
      then add_call (MetaTrackUpdObject (oid tup)) else fun s => s)
       (set_catalog (<[t_self := namestrcpy_spcname tup newname]> (catalog st))
          st)).

(** The state in which CreateTableSpace makes the directories, and the one
    it leaves when they are made. *)
Definition row_inserted (o owner : Oid) (name : string)
    (options : option (list string)) (st : State) : State :=
  add_call (InvokeObjectPostCreateHook o)
    (add_call (recordDependencyOnOwner o owner)
       (set_nextOid ((o + 1) mod 2 ^ 32)%N
          (set_catalog (catalog st ++ [mkRow o name owner options]) st))).

Definition create_logged (env : Env) (stmt : CreateTableSpaceStmt) (o : Oid)
    (location : string) (st : State) : State :=
  (if bool_decide (Gp_role env = GP_ROLE_DISPATCH)
   then fun s =>
          add_call (MetaTrackAddObject o)
            (add_call (CdbDispatchUtilityStatement (T_CreateTableSpaceStmt stmt)
                         [DF_CANCEL_ON_ERROR; DF_WITH_SNAPSHOT;
                          DF_NEED_TWO_PHASE]) s)
   else fun s => s)
    (add_call ForceSyncCommit
       (add_call (XLogInsert (mkXLogRecord XLOG_TBLSPC_CREATE o location)) st)).

(** What the check hook has verified of a name when it goes on. *)
Definition temp_name_verified (env : Env) (rows : list pg_tablespace)
    (name : string) : Prop :=
  name = ""
  \/ exists t_self tup,
      scan_by_name name rows = Some (t_self, tup)
      /\ OidIsValid (oid tup) = true
      /\ (oid tup = MyDatabaseTableSpace env
          \/ pg_tablespace_aclcheck_CREATE env (oid tup) (GetUserId env)
             = ACLCHECK_OK).

(** ** A concrete installation, for running the code *)

Module Example.

Local Open Scope N_scope.

Definition split_commas (s : string) : list string :=
  let fix go (s : string) : list string :=
    match s with
    | EmptyString => [EmptyString]
    | String c r =>
        if bool_decide (c = ","%char) then EmptyString :: go r
        else match go r with
             | [] => [String c EmptyString]
             | h :: t => String c h :: t
             end
    end in
  match s with
  | EmptyString => []
  | _ => go s
  end.

Definition env_with (inRecovery : bool) (role : GpRoleValue)
    (default_ts : option string) (inTransaction : bool) : Env := {|
  GLOBALTABLESPACE_OID := 1664;
  DEFAULTTABLESPACE_OID := 1663;
  MyDatabaseTableSpace := 1663;
  InRecovery := inRecovery;
  Gp_role := role;
  GpIdentity_segindex := (-1)%Z;
  getgpsegmentCount := 3%Z;
  superuser := true;
  GetUserId := 10;
  get_role_oid := fun _ => Some 10;
  allowSystemTableMods := false;
  IsReservedName := String.prefix "pg_";
  pg_tablespace_ownercheck := fun _ _ => true;
  pg_tablespace_aclcheck_CREATE :=
    fun o _ => if (o =? 16385)%N then ACLCHECK_NO_PRIV else ACLCHECK_OK;
  IsTransactionState := inTransaction;
  default_tablespace := default_ts;
  temp_tablespaces := "ts1,,nosuch,pg_default,ts2";
  SplitIdentifierString := fun s => Some (split_commas s);
  canonicalize_path := fun s => s;
  pg_atoi_int16 := fun _ => inr 0%Z;
  tablespace_reloptions := fun _ => inr None;
  tablespace_version_directory := "GPDB_6_db1";
  GetDatabasePath := fun db spc =>
    "pg_tblspc/" +:+ pretty spc +:+ "/GPDB_6_db1/" +:+ pretty db;
  DataDir := ["pgdata"];
  MAXPGPATH := 1024%nat;
  OIDCHARS := 10%nat;
  FORKNAMECHARS := 4%nat;
  heap_lock_tuple := fun _ => HeapTupleMayBeUpdated;
  checkpoint_files := fun f => f;
  recovery_conflict_files := fun _ f => f;
  random := 0%nat
|}.

Definition env_of (inRecovery : bool) (role : GpRoleValue)
    (default_ts : option string) : Env :=
  env_with inRecovery role default_ts true.

(** A coordinator in normal operation. *)
Definition env0 : Env := env_of false GP_ROLE_DISPATCH (Some "ts1").

(** The same installation replaying WAL. *)
Definition env_redo : Env := env_of true GP_ROLE_DISPATCH (Some "ts1").

Definition row_pg_default : pg_tablespace := mkRow 1663 "pg_default" 10 None.
Definition row_pg_global : pg_tablespace := mkRow 1664 "pg_global" 10 None.
Definition row_ts1 : pg_tablespace := mkRow 16384 "ts1" 10 None.
Definition row_ts2 : pg_tablespace := mkRow 16385 "ts2" 10 None.

Definition catalog0 : list pg_tablespace :=
  [ row_pg_default; row_pg_global; row_ts1; row_ts2 ].

(** Data directory with an empty location /data/ts1 ready for use. *)
Definition fs_fresh : FS.t :=
  list_to_map
    [ (["data"], FS.Dir); (["data"; "ts1"], FS.Dir);
      (["pgdata"], FS.Dir); (["pgdata"; "pg_tblspc"], FS.Dir) ].

(** Tablespace 16384 at /data/ts1, database 1 holding one file in it. *)
Definition fs_in_use : FS.t :=
  list_to_map
    [ (["data"], FS.Dir); (["data"; "ts1"], FS.Dir);
      (["data"; "ts1"; "GPDB_6_db1"], FS.Dir);
      (["data"; "ts1"; "GPDB_6_db1"; "1"], FS.Dir);
      (["data"; "ts1"; "GPDB_6_db1"; "1"; "16400"], FS.File);
      (["pgdata"], FS.Dir); (["pgdata"; "pg_tblspc"], FS.Dir);
      (["pgdata"; "pg_tblspc"; "16384"], FS.Symlink "/data/ts1") ].

(** Tablespace 16384 at /data/ts1 with nothing left in it but the empty
    directory of database 1. *)
Definition fs_idle : FS.t :=
  list_to_map
    [ (["data"], FS.Dir); (["data"; "ts1"], FS.Dir);
      (["data"; "ts1"; "GPDB_6_db1"], FS.Dir);
      (["data"; "ts1"; "GPDB_6_db1"; "1"], FS.Dir);
      (["pgdata"], FS.Dir); (["pgdata"; "pg_tblspc"], FS.Dir);
      (["pgdata"; "pg_tblspc"; "16384"], FS.Symlink "/data/ts1") ].

(** The place of the link of tablespace 16384 taken by a directory that
    holds something, over the version directory of /data/ts1. *)
Definition fs_directory_for_link : FS.t :=
  list_to_map
    [ (["data"], FS.Dir); (["data"; "ts1"], FS.Dir);
      (["data"; "ts1"; "GPDB_6_db1"], FS.Dir);
      (["pgdata"], FS.Dir); (["pgdata"; "pg_tblspc"], FS.Dir);
      (["pgdata"; "pg_tblspc"; "16384"], FS.Dir);
      (["pgdata"; "pg_tblspc"; "16384"; "GPDB_6_db1"], FS.Dir) ].

(** A location /data/ts1 that is a link to the disk /mnt/disk1, ready for
    use. *)
Definition fs_linked_fresh : FS.t :=
  list_to_map
    [ (["mnt"], FS.Dir); (["mnt"; "disk1"], FS.Dir);
      (["data"], FS.Dir); (["data"; "ts1"], FS.Symlink "/mnt/disk1");
      (["pgdata"], FS.Dir); (["pgdata"; "pg_tblspc"], FS.Dir) ].

(** Tablespace 16384 at that location, database 1 holding one file in it. *)
Definition fs_linked_in_use : FS.t :=
  list_to_map
    [ (["mnt"], FS.Dir); (["mnt"; "disk1"], FS.Dir);
      (["mnt"; "disk1"; "GPDB_6_db1"], FS.Dir);
      (["mnt"; "disk1"; "GPDB_6_db1"; "1"], FS.Dir);
      (["mnt"; "disk1"; "GPDB_6_db1"; "1"; "16400"], FS.File);
      (["data"], FS.Dir); (["data"; "ts1"], FS.Symlink "/mnt/disk1");
      (["pgdata"], FS.Dir); (["pgdata"; "pg_tblspc"], FS.Dir);
      (["pgdata"; "pg_tblspc"; "16384"], FS.Symlink "/data/ts1") ].

Definition state_of (f : FS.t) : State :=
  mkState catalog0 f [] [] 16386 None 0%nat.

End Example.

Import Example.

(** ** Stepping through monadic code *)

Lemma bind_OK {A B} (m : M A) (k : A -> M B) st a st' :
  m st = (OK a, st') -> bind m k st = k a st'.
Proof. unfold bind. intros ->. reflexivity. Qed.

Lemma bind_RAISE {A B} (m : M A) (k : A -> M B) st e st' :
  m st = (RAISE e, st') -> bind m k st = (RAISE e, st').
Proof. unfold bind. intros ->. reflexivity. Qed.

Lemma bind_inv_OK {A B} (m : M A) (k : A -> M B) st b st2 :
  bind m k st = (OK b, st2) ->
  exists a st1, m st = (OK a, st1) /\ k a st1 = (OK b, st2).
Proof.
  unfold bind. destruct (m st) as [[a|e] st1]; intros H.
  - eauto.
  - discriminate.
Qed.

(** ** The global tablespace has no per-database directories *)

(** C10: called with the global tablespace id, TablespaceCreateDbspace
    returns at once for every database id and either value of the redo
    flag: the state is the one it was given, so no directory has been made
    and no lock has been taken. *)
Theorem TablespaceCreateDbspace_global (env : Env) (dbNode : Oid)
    (isRedo : bool) (st : State) :
  TablespaceCreateDbspace env (GLOBALTABLESPACE_OID env) dbNode isRedo st
  = (OK tt, st).
Proof.
  unfold TablespaceCreateDbspace.
  rewrite N.eqb_refl. reflexivity.
Qed.

(** ** Name lookup *)

(** What [get_tablespace_oid] does when a missing name is tolerated. *)
Lemma get_tablespace_oid_missing_ok (env : Env) (name : string) (st : State) :
  get_tablespace_oid env name true st =
  match scan_by_name name (catalog st) with
  | Some (_, tup) =>
      if OidIsValid (oid tup) then
        match heap_lock_tuple env (oid tup) with
        | HeapTupleMayBeUpdated =>
            (OK (oid tup), add_call (heap_lock_tuple_KeyShare (oid tup)) st)
        | HeapTupleInvisible =>
            (RAISE (mkError ERROR ERRCODE_INTERNAL_ERROR
                      "unrecognized heap_lock_tuple_status"),
             add_call (heap_lock_tuple_KeyShare (oid tup)) st)
        | _ =>
            (RAISE (mkError ERROR ERRCODE_T_R_SERIALIZATION_FAILURE
                      ("could not serialize access to tablespace "
                         +:+ name +:+ " due to concurrent update")),
             add_call (heap_lock_tuple_KeyShare (oid tup)) st)
        end
      else (OK InvalidOid, st)
  | None => (OK InvalidOid, st)
  end.
Proof.
  unfold get_tablespace_oid, bind, get.
  destruct (scan_by_name name (catalog st)) as [[i tup]|]; simpl.
  - destruct (OidIsValid (oid tup)) eqn:V; simpl.
    + destruct (heap_lock_tuple env (oid tup)); simpl; reflexivity.
    + unfold OidIsValid in V. apply negb_false_iff, N.eqb_eq in V.
      rewrite V. reflexivity.
  - reflexivity.
Qed.

Lemma get_tablespace_oid_no_missing_error (env : Env) (name : string)
    (st : State) e st' :
  get_tablespace_oid env name true st = (RAISE e, st') ->
  sqlerrcode e <> ERRCODE_UNDEFINED_OBJECT.
Proof.
  rewrite get_tablespace_oid_missing_ok.
  destruct (scan_by_name name (catalog st)) as [[i tup]|]; [|discriminate].
  destruct (OidIsValid (oid tup)); [|discriminate].
  destruct (heap_lock_tuple env (oid tup)); intros H; inversion H; subst;
    simpl; discriminate.
Qed.

(** ** Default tablespace *)

(** C9: for a persistence other than temporary, GetDefaultTablespace never
    fails with the missing-tablespace error; a default_tablespace setting
    that names no existing tablespace gives the sentinel InvalidOid and
    leaves the state alone, exactly as an unset or empty setting does, and
    a setting that names the database's own default tablespace gives the
    sentinel too. *)
Theorem GetDefaultTablespace_missing_is_sentinel (env : Env)
    (relpersistence : ascii) (st : State) :
  relpersistence <> RELPERSISTENCE_TEMP ->
  (forall e st',
      GetDefaultTablespace env relpersistence st = (RAISE e, st') ->
      sqlerrcode e <> ERRCODE_UNDEFINED_OBJECT)
  /\ (forall name,
        default_tablespace env = Some name ->
        scan_by_name name (catalog st) = None ->
        GetDefaultTablespace env relpersistence st = (OK InvalidOid, st))
  /\ (default_tablespace env = None \/ default_tablespace env = Some "" ->
      GetDefaultTablespace env relpersistence st = (OK InvalidOid, st))
  /\ (forall name i tup,
        default_tablespace env = Some name ->
        scan_by_name name (catalog st) = Some (i, tup) ->
        oid tup = MyDatabaseTableSpace env ->
        heap_lock_tuple env (oid tup) = HeapTupleMayBeUpdated ->
        exists st',
          GetDefaultTablespace env relpersistence st = (OK InvalidOid, st')).
Proof.
  intros Hp. unfold GetDefaultTablespace.
  rewrite bool_decide_eq_false_2 by exact Hp.
  repeat split.
  - intros e st'. destruct (default_tablespace env) as [[|c name]|];
      try discriminate.
    unfold bind.
    destruct (get_tablespace_oid env (String c name) true st)
      as [[r|e0] st0] eqn:G.
    + destruct (r =? MyDatabaseTableSpace env)%N; discriminate.
    + intros H; inversion H; subst.
      eapply get_tablespace_oid_no_missing_error; eassumption.
  - intros name -> Hscan. destruct name as [|c name]; [reflexivity|].
    unfold bind. rewrite get_tablespace_oid_missing_ok, Hscan.
    destruct (InvalidOid =? MyDatabaseTableSpace env)%N; reflexivity.
  - intros [-> | ->]; reflexivity.
  - intros name i tup -> Hscan Hoid Hlock.
    destruct name as [|c name]; [eexists; reflexivity|].
    unfold bind. rewrite get_tablespace_oid_missing_ok, Hscan.
    destruct (OidIsValid (oid tup)).
    + rewrite Hlock, Hoid, N.eqb_refl. eexists; reflexivity.
    + destruct (InvalidOid =? MyDatabaseTableSpace env)%N;
        eexists; reflexivity.
Qed.

Lemma GetDefaultTablespace_missing_is_sentinel_witness :
  "p"%char <> RELPERSISTENCE_TEMP
  /\ default_tablespace (env_of false GP_ROLE_DISPATCH (Some "gone"))
     = Some "gone"
  /\ scan_by_name "gone" (catalog (state_of fs_in_use)) = None
  /\ GetDefaultTablespace (env_of false GP_ROLE_DISPATCH (Some "gone"))
       "p"%char (state_of fs_in_use)
     = (OK InvalidOid, state_of fs_in_use).
Proof.
  split; [discriminate|]. split; [reflexivity|]. split; [reflexivity|].
  refine (proj1 (proj2 (GetDefaultTablespace_missing_is_sentinel
            (env_of false GP_ROLE_DISPATCH (Some "gone")) "p"%char
            (state_of fs_in_use) _)) "gone" _ _).
  - discriminate.
  - reflexivity.
  - reflexivity.
Defined.

(** ** Code that touches only the file system and the log *)

Lemma same_backend_refl st : same_backend st st.
Proof. repeat split. Qed.

Lemma same_backend_trans st1 st2 st3 :
  same_backend st1 st2 -> same_backend st2 st3 -> same_backend st1 st3.
Proof.
  unfold same_backend. intros (?&?&?&?&?) (?&?&?&?&?).
  repeat split; congruence.
Qed.

Lemma fs_only_ret {A} (a : A) : fs_only (ret a).
Proof. intros st r st' H. inversion H. apply same_backend_refl. Qed.

Lemma fs_only_bind {A B} (m : M A) (k : A -> M B) :
  fs_only m -> (forall a, fs_only (k a)) -> fs_only (bind m k).
Proof.
  intros Hm Hk st r st'. unfold bind.
  destruct (m st) as [[a|e] st1] eqn:E; intros H.
  - eapply same_backend_trans; [eapply Hm; eassumption|].
    eapply Hk; eassumption.
  - inversion H; subst. eapply Hm; eassumption.
Qed.

Lemma fs_only_ereport level code msg : fs_only (ereport level code msg).
Proof.
  intros st r st'. destruct level; simpl; intros H; inversion H;
    repeat split.
Qed.

Lemma fs_only_when b (m : M unit) : fs_only m -> fs_only (when b m).
Proof. destruct b; simpl; [trivial|]. intros _. apply fs_only_ret. Qed.

Lemma fs_only_sys f : fs_only (sys f).
Proof.
  intros st r st'. unfold sys.
  destruct (f (fs st)); intros H; inversion H; repeat split.
Qed.

Lemma fs_only_if {A} (b : bool) (m1 m2 : M A) :
  fs_only m1 -> fs_only m2 -> fs_only (if b then m1 else m2).
Proof. destruct b; trivial. Qed.

Lemma fs_only_stat env path : fs_only (stat env path).
Proof. intros st r st' H. inversion H. apply same_backend_refl. Qed.

Lemma fs_only_lstat env path : fs_only (lstat env path).
Proof. intros st r st' H. inversion H. apply same_backend_refl. Qed.

Lemma fs_only_AllocateDir env path : fs_only (AllocateDir env path).
Proof. intros st r st' H. inversion H. apply same_backend_refl. Qed.

Lemma fs_only_rmtree env path : fs_only (rmtree env path).
Proof. intros st r st' H. inversion H. repeat split. Qed.

Create HintDb frame.
#[local] Hint Resolve fs_only_ret fs_only_ereport fs_only_sys fs_only_stat
  fs_only_lstat fs_only_AllocateDir fs_only_rmtree : frame.

Ltac fs_only_step :=
  match goal with
  | |- fs_only (bind _ _) => apply fs_only_bind; [|intros ?; cbv beta]
  | |- fs_only (when _ _) => apply fs_only_when
  | |- fs_only (if _ then _ else _) => apply fs_only_if
  | |- fs_only (match ?x with _ => _ end) => destruct x
  | |- fs_only _ => solve [auto with frame]
  end.

Lemma fs_only_directory_is_empty env path :
  fs_only (directory_is_empty env path).
Proof.
  unfold directory_is_empty, ReadDir_NULL. repeat fs_only_step.
Qed.

Lemma fs_only_destroy_scan env redo dir entries :
  fs_only (destroy_scan env redo dir entries).
Proof.
  induction entries as [|d rest IH]; simpl.
  - auto with frame.
  - unfold rmdir.
    repeat (fs_only_step || apply fs_only_directory_is_empty).
Qed.

Lemma fs_only_remove_symlink env redo dir :
  fs_only (remove_symlink env redo dir).
Proof.
  unfold remove_symlink, rmdir, unlink. repeat fs_only_step.
Qed.

Lemma fs_only_destroy env o redo :
  fs_only (destroy_tablespace_directories env o redo).
Proof.
  unfold destroy_tablespace_directories, ReadDir_NULL, rmdir.
  apply fs_only_bind; [auto with frame|]. intros [e|entries].
  - repeat fs_only_step; apply fs_only_remove_symlink.
  - apply fs_only_bind; [apply fs_only_destroy_scan|].
    intros [b|]; [auto with frame|].
    repeat fs_only_step; apply fs_only_remove_symlink.
Qed.

Lemma fs_only_create env location o :
  fs_only (create_tablespace_directories env location o).
Proof.
  unfold create_tablespace_directories, chmod, mkdir, rmdir, unlink, symlink.
  repeat fs_only_step.
Qed.

(** ** Inversion of successful runs *)

Lemma call_run c st : call c st = (OK tt, add_call c st).
Proof. reflexivity. Qed.

Ltac bind_inv H :=
  let a := fresh "a" in
  let s := fresh "st" in
  let E := fresh "E" in
  apply bind_inv_OK in H as (a & s & E & H).

Lemma dispatches_app cs1 cs2 :
  dispatches (cs1 ++ cs2) = dispatches cs1 ++ dispatches cs2.
Proof. apply omap_app. Qed.

(** The successful runs of the first part of [DropTableSpace]. *)
Lemma DropTableSpace_catalog_OK env stmt st found st1 :
  DropTableSpace_catalog env stmt st = (OK found, st1) ->
  (found = None
   /\ scan_by_name (drop_tablespacename stmt) (catalog st) = None
   /\ drop_missing_ok stmt = true
   /\ same_backend st st1 /\ fs st1 = fs st)
  \/ (exists t_self tuple,
        scan_by_name (drop_tablespacename stmt) (catalog st)
        = Some (t_self, tuple)
        /\ found = Some (oid tuple)
        /\ pg_tablespace_ownercheck env (oid tuple) (GetUserId env) = true
        /\ oid tuple <> GLOBALTABLESPACE_OID env
        /\ oid tuple <> DEFAULTTABLESPACE_OID env
        /\ catalog st1 = delete t_self (catalog st)
        /\ fs st1 = fs st
        /\ log st1 = log st
        /\ dispatches (calls st1) = dispatches (calls st)).
Proof.
  unfold DropTableSpace_catalog, bind, get.
  destruct (scan_by_name (drop_tablespacename stmt) (catalog st))
    as [[t_self tuple]|] eqn:Hscan.
  - intros H. right. exists t_self, tuple.
    destruct (pg_tablespace_ownercheck env (oid tuple) (GetUserId env));
      simpl in H; [|discriminate].
    destruct (oid tuple =? GLOBALTABLESPACE_OID env)%N eqn:Hg;
      simpl in H; [discriminate|].
    destruct (oid tuple =? DEFAULTTABLESPACE_OID env)%N eqn:Hd;
      simpl in H; [discriminate|].
    apply N.eqb_neq in Hg, Hd.
    destruct (bool_decide (Gp_role env = GP_ROLE_DISPATCH));
      simpl in H; inversion H; subst; simpl;
      repeat split; auto; rewrite !dispatches_app; simpl;
      rewrite !app_nil_r; reflexivity.
  - intros H. left.
    destruct (drop_missing_ok stmt); simpl in H; [|discriminate].
    inversion H; subst. repeat split.
Qed.

(** The second part asks for at most one checkpoint and nothing else of
    the collaborators. *)
Lemma DropTableSpace_directories_calls env name o st r st' :
  DropTableSpace_directories env name o st = (r, st') ->
  catalog st' = catalog st
  /\ (calls st' = calls st
      \/ calls st' = calls st ++ [RequestCheckpoint
           [CHECKPOINT_IMMEDIATE; CHECKPOINT_FORCE; CHECKPOINT_WAIT]]).
Proof.
  unfold DropTableSpace_directories, bind.
  destruct (destroy_tablespace_directories env o false st)
    as [[ok|e] st1] eqn:D1.
  - apply fs_only_destroy in D1 as (Hc & Hk & _).
    destruct ok; simpl.
    + intros H; inversion H; subst. auto.
    + destruct (destroy_tablespace_directories env o false _)
        as [[ok2|e2] st2] eqn:D2.
      * apply fs_only_destroy in D2 as (Hc2 & Hk2 & _). simpl in Hc2, Hk2.
        destruct ok2; simpl; intros H; inversion H; subst;
          (split; [congruence|right; congruence]).
      * apply fs_only_destroy in D2 as (Hc2 & Hk2 & _). simpl in Hc2, Hk2.
        intros H; inversion H; subst.
        split; [congruence|right; congruence].
  - apply fs_only_destroy in D1 as (Hc & Hk & _).
    intros H; inversion H; subst. auto.
Qed.

(** ** Built-in tablespaces *)

(** C2, as the code has it: dropping a tablespace whose id is one of the
    two reserved ids fails with a privilege error whatever the caller's
    rights, and nothing is changed.  RenameTableSpace has no test on the
    ids: a tablespace is renamed, reserved id or not, as soon as the caller
    passes the ownership check, the new name is not a reserved name (or
    allowSystemTableMods is set) and no tablespace bears the new name. *)
Theorem reserved_tablespaces_drop_and_rename (env : Env) (st : State) :
  (forall stmt t_self tuple,
      scan_by_name (drop_tablespacename stmt) (catalog st)
      = Some (t_self, tuple) ->
      oid tuple = GLOBALTABLESPACE_OID env
      \/ oid tuple = DEFAULTTABLESPACE_OID env ->
      exists e,
        DropTableSpace env stmt st = (RAISE e, st)
        /\ err_level e = ERROR
        /\ sqlerrcode e = ERRCODE_INSUFFICIENT_PRIVILEGE)
  /\ (forall oldname newname t_self tup,
        scan_by_name oldname (catalog st) = Some (t_self, tup) ->
        pg_tablespace_ownercheck env (oid tup) (GetUserId env) = true ->
        allowSystemTableMods env = true
        \/ IsReservedName env newname = false ->
        scan_by_name newname (catalog st) = None ->
        exists st',
          RenameTableSpace env oldname newname st = (OK (oid tup), st')
          /\ catalog st'
             = <[t_self := namestrcpy_spcname tup newname]> (catalog st)).
Proof.
  split.
  - intros stmt t_self tuple Hscan Hres.
    unfold DropTableSpace, DropTableSpace_catalog, bind, get.
    rewrite Hscan.
    destruct (pg_tablespace_ownercheck env (oid tuple) (GetUserId env));
      simpl.
    + assert ((oid tuple =? GLOBALTABLESPACE_OID env)%N
              || (oid tuple =? DEFAULTTABLESPACE_OID env)%N = true) as ->.
      { destruct Hres as [-> | ->]; rewrite N.eqb_refl;
          [reflexivity|apply orb_true_r]. }
      simpl. eexists; repeat split.
    + eexists; repeat split.
  - intros oldname newname t_self tup Hold Hown Hname Hnew.
    unfold RenameTableSpace, bind, get. rewrite Hold, Hown. simpl.
    assert (negb (allowSystemTableMods env) && IsReservedName env newname
            = false) as ->.
    { destruct Hname as [-> | ->]; [reflexivity|apply andb_false_r]. }
    simpl. rewrite Hnew. simpl.
    destruct (bool_decide (Gp_role env = GP_ROLE_DISPATCH)); simpl;
      eexists; split; reflexivity.
Qed.

Lemma reserved_tablespaces_drop_and_rename_witness :
  (scan_by_name "pg_global" (catalog (state_of fs_in_use))
   = Some (1, row_pg_global)
   /\ (oid row_pg_global = GLOBALTABLESPACE_OID env0
       \/ oid row_pg_global = DEFAULTTABLESPACE_OID env0)
   /\ exists e,
       DropTableSpace env0 (mkDropStmt "pg_global" false) (state_of fs_in_use)
       = (RAISE e, state_of fs_in_use)
       /\ err_level e = ERROR
       /\ sqlerrcode e = ERRCODE_INSUFFICIENT_PRIVILEGE)
  /\ (scan_by_name "pg_default" (catalog (state_of fs_in_use))
      = Some (0, row_pg_default)
      /\ pg_tablespace_ownercheck env0 (oid row_pg_default) (GetUserId env0)
         = true
      /\ IsReservedName env0 "mine" = false
      /\ scan_by_name "mine" (catalog (state_of fs_in_use)) = None
      /\ exists st',
          RenameTableSpace env0 "pg_default" "mine" (state_of fs_in_use)
          = (OK (oid row_pg_default), st')
          /\ catalog st'
             = <[0 := namestrcpy_spcname row_pg_default "mine"]>
                 (catalog (state_of fs_in_use))).
Proof.
  pose proof (reserved_tablespaces_drop_and_rename env0 (state_of fs_in_use))
    as [Hdrop Hrename].
  split.
  - split; [reflexivity|]. split; [left; reflexivity|].
    apply (Hdrop (mkDropStmt "pg_global" false) 1 row_pg_global).
    + reflexivity.
    + left; reflexivity.
  - split; [reflexivity|]. split; [reflexivity|]. split; [reflexivity|].
    split; [reflexivity|].
    apply (Hrename "pg_default" "mine" 0 row_pg_default).
    + reflexivity.
    + reflexivity.
    + right; reflexivity.
    + reflexivity.
Defined.

(** C2 as stated fails for renaming: on the example installation
    "pg_default" (reserved id 1663) is renamed without complaint. *)
Lemma rename_of_reserved_tablespace_succeeds :
  ~ (forall env oldname newname st t_self tup,
        scan_by_name oldname (catalog st) = Some (t_self, tup) ->
        oid tup = GLOBALTABLESPACE_OID env
        \/ oid tup = DEFAULTTABLESPACE_OID env ->
        exists e st', RenameTableSpace env oldname newname st = (RAISE e, st')).
Proof.
  intros H.
  destruct (H env0 "pg_default" "mine" (state_of fs_in_use) 0
              row_pg_default) as (e & st' & Hr).
  - reflexivity.
  - right; reflexivity.
  - apply (f_equal fst) in Hr. vm_compute in Hr. discriminate.
Qed.

(** ** Code that leaves an observation of the state alone *)

Section Preserves.

Context {X : Type} (f : State -> X).

Local Abbreviation preserves := (preserves f).

Lemma preserves_ret {A} (a : A) : preserves (ret a).
Proof. intros st r st' H; inversion H; reflexivity. Qed.

Lemma preserves_get : preserves get.
Proof. intros st r st' H; inversion H; reflexivity. Qed.

Lemma preserves_raise {A} (e : ErrorData) :
  preserves (fun st => (@RAISE A e, st)).
Proof. intros st r st' H; inversion H; reflexivity. Qed.

Lemma preserves_bind {A B} (m : M A) (k : A -> M B) :
  preserves m -> (forall a, preserves (k a)) -> preserves (bind m k).
Proof.
  intros Hm Hk st r st'. unfold bind.
  destruct (m st) as [[a|e] st1] eqn:E; intros H.
  - rewrite (Hk _ _ _ _ H). eapply Hm; eassumption.
  - inversion H; subst. eapply Hm; eassumption.
Qed.

Lemma preserves_when b (m : M unit) : preserves m -> preserves (when b m).
Proof. destruct b; simpl; [trivial|]. intros _. apply preserves_ret. Qed.

Lemma preserves_if {A} (b : bool) (m1 m2 : M A) :
  preserves m1 -> preserves m2 -> preserves (if b then m1 else m2).
Proof. destruct b; trivial. Qed.

Hypothesis log_blind : forall e st, f (add_log e st) = f st.

Lemma preserves_ereport level code msg :
  preserves (ereport level code msg).
Proof.
  intros st r st'. destruct level; simpl; intros H; inversion H;
    auto using log_blind.
Qed.

Hypothesis backend_only : forall st st', same_backend st st' -> f st' = f st.

Lemma preserves_fs_only {A} (m : M A) : fs_only m -> preserves m.
Proof. intros Hm st r st' H. apply backend_only. eapply Hm; eassumption. Qed.

End Preserves.

Lemma preserves_call {X} (f : State -> X) c :
  (forall st, f (add_call c st) = f st) -> preserves f (call c).
Proof. intros Hc st r st' H; inversion H; apply Hc. Qed.

Abbreviation no_dispatch := (preserves (fun st => dispatches (calls st))).

Lemma dispatches_add_call c st :
  match c with CdbDispatchUtilityStatement _ _ => False | _ => True end ->
  dispatches (calls (add_call c st)) = dispatches (calls st).
Proof.
  intros Hc. simpl. rewrite dispatches_app.
  destruct c; simpl; try apply app_nil_r. contradiction.
Qed.

Lemma dispatches_same_backend st st' :
  same_backend st st' -> dispatches (calls st') = dispatches (calls st).
Proof. intros (_ & -> & _). reflexivity. Qed.

Ltac preserves_step :=
  match goal with
  | |- preserves _ (bind _ _) => apply preserves_bind; [|intros ?; cbv beta]
  | |- preserves _ (when _ _) => apply preserves_when
  | |- preserves _ (ret _) => apply preserves_ret
  | |- preserves _ get => apply preserves_get
  | |- preserves _ (fun st => (RAISE _, st)) => apply preserves_raise
  | |- preserves _ (ereport _ _ _) =>
      apply preserves_ereport; intros; reflexivity
  | |- preserves _ (call _) =>
      apply preserves_call; intros;
      first [reflexivity | apply dispatches_add_call; exact I]
  | |- preserves _ (if _ then _ else _) => apply preserves_if
  | |- preserves _ (match ?x with _ => _ end) => destruct x
  end.

Lemma no_dispatch_get_tablespace_oid env name missing_ok :
  no_dispatch (get_tablespace_oid env name missing_ok).
Proof. unfold get_tablespace_oid. repeat preserves_step. Qed.

Lemma no_dispatch_segment_location env options :
  no_dispatch (segment_location env options).
Proof.
  induction options as [|defel rest IH]; simpl;
    repeat (preserves_step || exact IH).
Qed.

Lemma no_dispatch_create_directories env location o :
  no_dispatch (create_tablespace_directories env location o).
Proof.
  apply preserves_fs_only; [apply dispatches_same_backend|].
  apply fs_only_create.
Qed.

Lemma no_dispatch_simple_heap_insert name owner options :
  no_dispatch (simple_heap_insert name owner options).
Proof. intros st r st' H; inversion H; reflexivity. Qed.

(** ** Dispatch to the workers *)

(** C3, as the code has it: on a coordinator a successful DropTableSpace
    that found its tablespace dispatches the statement to the workers
    exactly once, and so does a successful CreateTableSpace; both pass the
    same flags: cancel on error, with snapshot, and two-phase commit
    required. *)
Theorem create_and_drop_dispatch_flags (env : Env) :
  Gp_role env = GP_ROLE_DISPATCH ->
  (forall stmt st st',
      DropTableSpace env stmt st = (OK tt, st') ->
      dispatches (calls st')
      = dispatches (calls st)
        ++ match scan_by_name (drop_tablespacename stmt) (catalog st) with
           | Some _ => [(T_DropTableSpaceStmt stmt, all_dispatch_flags)]
           | None => []
           end)
  /\ (forall stmt st o st',
        CreateTableSpace env stmt st = (OK o, st') ->
        dispatches (calls st')
        = dispatches (calls st)
          ++ [(T_CreateTableSpaceStmt stmt, all_dispatch_flags)]).
Proof.
  intros Hrole. split.
  - intros stmt st st' H. unfold DropTableSpace in H.
    bind_inv H.
    apply DropTableSpace_catalog_OK in E
      as [(-> & -> & _ & (_ & Hk & _) & _)
         |(t_self & tuple & -> & -> & _ & _ & _ & _ & _ & _ & Hd)].
    + inversion H; subst. rewrite Hk. symmetry; apply app_nil_r.
    + bind_inv H.
      apply DropTableSpace_directories_calls in E as (_ & Hc).
      unfold DropTableSpace_finish in H.
      rewrite bool_decide_eq_true_2 in H by exact Hrole.
      inversion H; subst; simpl. rewrite !dispatches_app; simpl.
      rewrite <- Hd.
      destruct Hc as [-> | ->]; [|rewrite dispatches_app; simpl];
        rewrite ?app_nil_r; reflexivity.
  - intros stmt st o st' H. unfold CreateTableSpace in H.
    repeat match type of H with
    | bind ?m _ _ = _ =>
        lazymatch m with
        | call (XLogInsert _) => fail
        | _ => idtac
        end;
        let E := fresh "E" in
        let Hd := fresh "Hd" in
        apply bind_inv_OK in H as (? & ? & E & H);
        assert (Hd : no_dispatch m)
          by (repeat (preserves_step
                      || apply no_dispatch_get_tablespace_oid
                      || apply no_dispatch_segment_location
                      || apply no_dispatch_create_directories
                      || apply no_dispatch_simple_heap_insert));
        apply Hd in E; cbv beta in E; rewrite <- E; clear E Hd
    end.
    rewrite bool_decide_eq_true_2 in H by exact Hrole.
    inversion H; subst; simpl. rewrite !dispatches_app; simpl.
    rewrite !app_nil_r. reflexivity.
Qed.

Lemma run_eq {A} (x : Result A * State) (r : Result A) :
  x.1 = r -> x = (r, x.2).
Proof. destruct x; simpl; intros ->; reflexivity. Qed.

Lemma create_and_drop_dispatch_flags_witness :
  Gp_role env0 = GP_ROLE_DISPATCH
  /\ (DropTableSpace env0 (mkDropStmt "ts1" false) (state_of fs_idle)).1
     = OK tt
  /\ dispatches
       (calls (DropTableSpace env0 (mkDropStmt "ts1" false)
                 (state_of fs_idle)).2)
     = [(T_DropTableSpaceStmt (mkDropStmt "ts1" false), all_dispatch_flags)].
Proof.
  split; [reflexivity|]. split; [vm_compute; reflexivity|].
  apply (proj1 (create_and_drop_dispatch_flags env0 eq_refl)
           (mkDropStmt "ts1" false) (state_of fs_idle)).
  apply run_eq. vm_compute. reflexivity.
Defined.

(** C3 as stated fails: the coordinator's dispatch of DROP TABLESPACE also
    carries the two-phase flag. *)
Lemma drop_dispatch_requires_two_phase :
  ~ (forall env stmt st st' flags,
        Gp_role env = GP_ROLE_DISPATCH ->
        DropTableSpace env stmt st = (OK tt, st') ->
        In (T_DropTableSpaceStmt stmt, flags) (dispatches (calls st')) ->
        In DF_CANCEL_ON_ERROR flags /\ ~ In DF_NEED_TWO_PHASE flags).
Proof.
  intros H.
  destruct (H env0 (mkDropStmt "ts1" false) (state_of fs_idle)
              (DropTableSpace env0 (mkDropStmt "ts1" false)
                 (state_of fs_idle)).2
              all_dispatch_flags) as [_ Hno].
  - reflexivity.
  - apply run_eq. vm_compute. reflexivity.
  - vm_compute. left. reflexivity.
  - apply Hno. simpl. auto.
Qed.

(** ** Equations for stepping through a run *)

Lemma bind_ret {A B} (a : A) (k : A -> M B) st : bind (ret a) k st = k a st.
Proof. reflexivity. Qed.

Lemma bind_when {B} b (m : M unit) (k : unit -> M B) st :
  bind (when b m) k st = if b then bind m k st else k tt st.
Proof. destruct b; reflexivity. Qed.

Lemma bind_ereport_ERROR {B} code msg (k : unit -> M B) st :
  bind (ereport ERROR code msg) k st = (RAISE (mkError ERROR code msg), st).
Proof. reflexivity. Qed.

Lemma bind_bind {A B C} (m : M A) (k1 : A -> M B) (k2 : B -> M C) st :
  bind (bind m k1) k2 st = bind m (fun a => bind (k1 a) k2) st.
Proof. unfold bind. destruct (m st) as [[a|e] st1]; reflexivity. Qed.

Lemma bind_run {A B} (m : M A) (k : A -> M B) st r st' :
  m st = (r, st') ->
  bind m k st = match r with
                | OK a => k a st'
                | RAISE e => (RAISE e, st')
                end.
Proof. unfold bind. intros ->. reflexivity. Qed.

(** ** Validation in CreateTableSpace *)

(** The options loop reads the state and never changes it. *)
Lemma segment_location_state env options st r st' :
  segment_location env options st = (r, st') -> st' = st.
Proof.
  revert st r st'. induction options as [|defel rest IH]; simpl; intros st r st'.
  - intros H; inversion H; reflexivity.
  - destruct ((_ <? _)%nat && _).
    + destruct (pg_atoi_int16 env _) as [e|contentId].
      * intros H; inversion H; reflexivity.
      * destruct (bool_decide (Gp_role env = GP_ROLE_DISPATCH)).
        -- unfold bind.
           destruct ((contentId <? 0)%Z || (getgpsegmentCount env <=? contentId)%Z);
             simpl; [intros H; inversion H; reflexivity|apply IH].
        -- destruct (contentId =? GpIdentity_segindex env)%Z; [|apply IH].
           intros H; inversion H; reflexivity.
    + intros H; inversion H; reflexivity.
Qed.

(** C6: a CreateTableSpace call whose location contains a single quote, or
    is a relative path, or whose name is reserved while
    allowSystemTableMods is off, fails with an ERROR and the state it
    leaves is the state it was given: nothing has been inserted in the
    catalog.  For a superuser whose owner clause resolves, the error is the
    one of the first check that fails: invalid name for the quote, invalid
    object definition for a relative (or over-long) path, reserved name
    for the name. *)
Theorem CreateTableSpace_rejects_bad_location_or_name (env : Env)
    (stmt : CreateTableSpaceStmt) (st : State) (segment : option string) :
  segment_location env (create_options stmt) st = (OK segment, st) ->
  Path.strchr (location_of env stmt segment) "'"%char = true
  \/ Path.is_absolute_path (location_of env stmt segment) = false
  \/ (allowSystemTableMods env = false
      /\ IsReservedName env (create_tablespacename stmt) = true) ->
  exists e,
    CreateTableSpace env stmt st = (RAISE e, st)
    /\ err_level e = ERROR
    /\ (superuser env = true ->
        (forall owner, create_owner stmt = Some owner ->
                       is_Some (get_role_oid env owner)) ->
        sqlerrcode e =
          if Path.strchr (location_of env stmt segment) "'"%char
          then ERRCODE_INVALID_NAME
          else if negb (Path.is_absolute_path (location_of env stmt segment))
          then ERRCODE_INVALID_OBJECT_DEFINITION
          else if location_too_long env (location_of env stmt segment)
          then ERRCODE_INVALID_OBJECT_DEFINITION
          else ERRCODE_RESERVED_NAME).
Proof.
  intros Hseg Hbad. unfold CreateTableSpace.
  rewrite bind_when.
  destruct (superuser env) eqn:Hsu; cbn [negb].
  2:{ rewrite bind_ereport_ERROR. eexists; repeat split. intros; discriminate. }
  destruct (create_owner stmt) as [owner|] eqn:Ho;
    [destruct (get_role_oid env owner) as [o|] eqn:Hr|].
  2:{ rewrite bind_bind, bind_ereport_ERROR.
      eexists; repeat split. intros _ Hres.
      destruct (Hres owner eq_refl) as [o Ho']. congruence. }
  all: rewrite bind_ret, (bind_run _ _ _ _ _ Hseg);
    fold (location_of env stmt segment);
    set (location := location_of env stmt segment) in *;
    rewrite bind_when;
    destruct (Path.strchr location "'"%char) eqn:Hq;
    [rewrite bind_ereport_ERROR; eexists; repeat split|];
    rewrite bind_when;
    destruct (Path.is_absolute_path location) eqn:Ha; cbn [negb];
    [|rewrite bind_ereport_ERROR; eexists; repeat split];
    rewrite bind_when;
    fold (location_too_long env location);
    destruct (location_too_long env location) eqn:Hl;
    [rewrite bind_ereport_ERROR; eexists; repeat split|];
    destruct Hbad as [Hbad | [Hbad | [Hmods Hres]]]; try discriminate;
    rewrite bind_when, Hmods, Hres; cbn [negb andb];
    rewrite bind_ereport_ERROR; eexists; repeat split.
Qed.

Lemma CreateTableSpace_rejects_bad_location_or_name_witness :
  segment_location env0 [] (state_of fs_fresh) = (OK None, state_of fs_fresh)
  /\ Path.is_absolute_path
       (location_of env0 (mkCreateStmt "ts3" None "data/ts1" []) None) = false
  /\ exists e,
      CreateTableSpace env0 (mkCreateStmt "ts3" None "data/ts1" [])
        (state_of fs_fresh) = (RAISE e, state_of fs_fresh)
      /\ err_level e = ERROR
      /\ sqlerrcode e = ERRCODE_INVALID_OBJECT_DEFINITION.
Proof.
  split; [reflexivity|]. split; [reflexivity|].
  destruct (CreateTableSpace_rejects_bad_location_or_name env0
              (mkCreateStmt "ts3" None "data/ts1" []) (state_of fs_fresh) None)
    as (e & Hrun & Hlevel & Hcode).
  - reflexivity.
  - right; left; reflexivity.
  - exists e. split; [exact Hrun|]. split; [exact Hlevel|].
    apply Hcode; [reflexivity|]. intros owner Ho; discriminate.
Defined.

(** ** Code that cannot fail *)

Lemma total_ret {A} (a : A) : total (ret a).
Proof. intros st; eauto. Qed.

Lemma total_bind {A B} (m : M A) (k : A -> M B) :
  total m -> (forall a, total (k a)) -> total (bind m k).
Proof.
  intros Hm Hk st. destruct (Hm st) as (a & st1 & E).
  destruct (Hk a st1) as (b & st2 & E2).
  exists b, st2. rewrite (bind_OK _ _ _ _ _ E). exact E2.
Qed.

Lemma total_when b (m : M unit) : total m -> total (when b m).
Proof. destruct b; simpl; [trivial|]. intros _; apply total_ret. Qed.

Lemma total_if {A} (b : bool) (m1 m2 : M A) :
  total m1 -> total m2 -> total (if b then m1 else m2).
Proof. destruct b; trivial. Qed.

Lemma total_ereport_LOG code msg : total (ereport LOG code msg).
Proof. intros st; simpl; eauto. Qed.

Lemma total_ereport_WARNING code msg : total (ereport WARNING code msg).
Proof. intros st; simpl; eauto. Qed.

Lemma total_modify f : total (modify f).
Proof. intros st; unfold modify; eauto. Qed.

Lemma total_sys f : total (sys f).
Proof. intros st. unfold sys. destruct (f (fs st)); eauto. Qed.

Lemma total_lstat env path : total (lstat env path).
Proof. intros st; unfold lstat; eauto. Qed.

Lemma total_AllocateDir env path : total (AllocateDir env path).
Proof. intros st; unfold AllocateDir; eauto. Qed.

Ltac total_step :=
  match goal with
  | |- total (bind _ _) => apply total_bind; [|intros ?; cbv beta]
  | |- total (when _ _) => apply total_when
  | |- total (ret _) => apply total_ret
  | |- total (ereport LOG _ _) => apply total_ereport_LOG
  | |- total (ereport WARNING _ _) => apply total_ereport_WARNING
  | |- total (modify _) => apply total_modify
  | |- total (sys _) => apply total_sys
  | |- total (lstat _ _) => apply total_lstat
  | |- total (AllocateDir _ _) => apply total_AllocateDir
  | |- total (if _ then _ else _) => apply total_if
  | |- total (match ?x with _ => _ end) => destruct x
  end.

Lemma total_destroy_scan_redo env dir entries :
  total (destroy_scan env true dir entries).
Proof.
  induction entries as [|d rest IH]; simpl.
  - apply total_ret.
  - unfold rmdir. cbn [negb andb].
    repeat (total_step || exact IH).
Qed.

Lemma total_remove_symlink_redo env dir : total (remove_symlink env true dir).
Proof. unfold remove_symlink, rmdir, unlink. repeat total_step. Qed.

(** During replay [destroy_tablespace_directories] reports every failure
    in the log and returns. *)
Lemma total_destroy_redo env o :
  total (destroy_tablespace_directories env o true).
Proof.
  unfold destroy_tablespace_directories, rmdir.
  cbn [negb]. cbv iota.
  repeat (total_step || apply total_destroy_scan_redo
          || apply total_remove_symlink_redo).
Qed.

(** ** Replay of a Drop record *)

(** C5: replay of a Drop record calls destroy_tablespace_directories with
    redo set.  If the call returns true, replay is over and no collaborator
    has been called.  If it returns false, the recovery-conflict resolver
    is invoked once and the destruction is tried once more; a second false
    only adds a LOG message.  Replay returns normally in every case. *)
Theorem tblspc_redo_drop (env : Env) (record : XLogRecord) (st : State) :
  record_info record = XLOG_TBLSPC_DROP ->
  exists ok st1,
    destroy_tablespace_directories env (ts_id record) true st = (OK ok, st1)
    /\ calls st1 = calls st
    /\ if ok then tblspc_redo env record st = (OK tt, st1)
       else exists ok2 st2,
           destroy_tablespace_directories env (ts_id record) true
             (after_conflict_resolution env (ts_id record) st1)
           = (OK ok2, st2)
           /\ calls st2
              = calls st ++ [ResolveRecoveryConflictWithTablespace
                               (ts_id record)]
           /\ tblspc_redo env record st
              = (OK tt,
                 if ok2 then st2
                 else add_log (directories_not_removed (ts_id record)) st2).
Proof.
  intros Hinfo.
  destruct (total_destroy_redo env (ts_id record) st) as (ok & st1 & D1).
  exists ok, st1. split; [exact D1|].
  pose proof (fs_only_destroy _ _ _ _ _ _ D1) as (_ & Hk1 & _).
  split; [exact Hk1|].
  unfold tblspc_redo. rewrite Hinfo. simpl.
  rewrite (bind_OK _ _ _ _ _ D1).
  destruct ok; simpl; [reflexivity|].
  destruct (total_destroy_redo env (ts_id record)
              (after_conflict_resolution env (ts_id record) st1))
    as (ok2 & st2 & D2).
  exists ok2, st2. split; [exact D2|].
  pose proof (fs_only_destroy _ _ _ _ _ _ D2) as (_ & Hk2 & _).
  split; [rewrite Hk2; simpl; rewrite Hk1; reflexivity|].
  unfold ResolveRecoveryConflict.
  rewrite bind_bind. unfold bind at 1. simpl.
  unfold bind at 1. simpl.
  fold (after_conflict_resolution env (ts_id record) st1).
  rewrite (bind_OK _ _ _ _ _ D2).
  destruct ok2; reflexivity.
Qed.

Lemma tblspc_redo_drop_witness :
  record_info (mkXLogRecord 0x10 16384%N "") = XLOG_TBLSPC_DROP
  /\ (tblspc_redo env_redo (mkXLogRecord 0x10 16384%N "")
        (state_of fs_in_use)).1 = OK tt
  /\ calls (tblspc_redo env_redo (mkXLogRecord 0x10 16384%N "")
              (state_of fs_in_use)).2
     = [ResolveRecoveryConflictWithTablespace 16384%N].
Proof.
  split; [reflexivity|].
  destruct (tblspc_redo_drop env_redo (mkXLogRecord 0x10 16384%N "")
              (state_of fs_in_use) eq_refl)
    as (ok & st1 & D1 & Hk1 & Hrest).
  assert (ok = false) as ->.
  { apply (f_equal fst) in D1. vm_compute in D1. congruence. }
  destruct Hrest as (ok2 & st2 & D2 & Hk2 & Hrun).
  rewrite Hrun. split; [reflexivity|].
  destruct ok2; simpl; exact Hk2.
Defined.

(** ** Dropping a tablespace that is not empty *)

(** C1: in normal operation, when the first call of
    destroy_tablespace_directories returns false, DropTableSpace requests
    one immediate checkpoint and calls destroy_tablespace_directories once
    more on the state the checkpoint left, whatever that call then gives.
    If it gives false again, the command fails with the error "tablespace
    is not empty" in the state that second call left, no WAL record is
    written and nothing is dispatched; the abort of the transaction then
    restores the catalog, so the row is still there. *)
Theorem DropTableSpace_not_empty_after_checkpoint (env : Env)
    (stmt : DropTableSpaceStmt) (st st1 st2 : State) (tablespaceoid : Oid) :
  DropTableSpace_catalog env stmt st = (OK (Some tablespaceoid), st1) ->
  destroy_tablespace_directories env tablespaceoid false st1
  = (OK false, st2) ->
  (forall r st4,
      destroy_tablespace_directories env tablespaceoid false
        (after_checkpoint env st2) = (r, st4) ->
      calls st4 = calls st1 ++ [immediate_checkpoint]
      /\ DropTableSpace_directories env (drop_tablespacename stmt)
           tablespaceoid st1
         = (match r with
            | OK true => OK tt
            | OK false => RAISE (not_empty_error (drop_tablespacename stmt))
            | RAISE e => RAISE e
            end, st4))
  /\ (forall st4,
        destroy_tablespace_directories env tablespaceoid false
          (after_checkpoint env st2) = (OK false, st4) ->
        DropTableSpace env stmt st
        = (RAISE (not_empty_error (drop_tablespacename stmt)), st4)
        /\ in_transaction (DropTableSpace env stmt) st
           = (RAISE (not_empty_error (drop_tablespacename stmt)),
              set_catalog (catalog st) st4)
        /\ scan_by_name (drop_tablespacename stmt)
             (catalog (in_transaction (DropTableSpace env stmt) st).2)
           = scan_by_name (drop_tablespacename stmt) (catalog st)).
Proof.
  intros Hcat D1.
  pose proof (fs_only_destroy _ _ _ _ _ _ D1) as (_ & Hk1 & _).
  assert (Hdirs : forall r st4,
    destroy_tablespace_directories env tablespaceoid false
      (after_checkpoint env st2) = (r, st4) ->
    DropTableSpace_directories env (drop_tablespacename stmt)
      tablespaceoid st1
    = (match r with
       | OK true => OK tt
       | OK false => RAISE (not_empty_error (drop_tablespacename stmt))
       | RAISE e => RAISE e
       end, st4)).
  { intros r st4 D2. unfold DropTableSpace_directories.
    rewrite (bind_OK _ _ _ _ _ D1). cbn [negb].
    unfold RequestCheckpoint_wait. rewrite bind_bind.
    unfold bind at 1. rewrite call_run.
    unfold bind at 1. unfold modify.
    fold immediate_checkpoint. fold (after_checkpoint env st2).
    rewrite (bind_run _ _ _ _ _ D2).
    destruct r as [[|]|e]; reflexivity. }
  split.
  - intros r st4 D2. split; [|apply Hdirs; exact D2].
    pose proof (fs_only_destroy _ _ _ _ _ _ D2) as (_ & Hk2 & _).
    rewrite Hk2. simpl. rewrite Hk1. reflexivity.
  - intros st4 D2.
    assert (Hrun : DropTableSpace env stmt st
                   = (RAISE (not_empty_error (drop_tablespacename stmt)), st4)).
    { unfold DropTableSpace. rewrite (bind_OK _ _ _ _ _ Hcat).
      rewrite (bind_RAISE _ _ _ _ _ (Hdirs _ _ D2)). reflexivity. }
    split; [exact Hrun|].
    unfold in_transaction. rewrite Hrun. split; reflexivity.
Qed.

Lemma DropTableSpace_not_empty_after_checkpoint_witness :
  (DropTableSpace_catalog env0 (mkDropStmt "ts1" false)
     (state_of fs_in_use)).1 = OK (Some 16384%N)
  /\ (DropTableSpace env0 (mkDropStmt "ts1" false) (state_of fs_in_use)).1
     = RAISE (not_empty_error "ts1")
  /\ catalog (in_transaction (DropTableSpace env0 (mkDropStmt "ts1" false))
                (state_of fs_in_use)).2
     = catalog (state_of fs_in_use).
Proof.
  split; [vm_compute; reflexivity|].
  destruct (DropTableSpace_catalog env0 (mkDropStmt "ts1" false)
              (state_of fs_in_use)) as [r1 st1] eqn:Hcat.
  assert (r1 = OK (Some 16384%N)) as ->.
  { apply (f_equal fst) in Hcat. vm_compute in Hcat. congruence. }
  destruct (destroy_tablespace_directories env0 16384%N false st1)
    as [r2 st2] eqn:D1.
  assert (r2 = OK false) as ->.
  { apply (f_equal fst) in D1.
    apply (f_equal snd) in Hcat. simpl in Hcat. subst st1.
    vm_compute in D1. congruence. }
  destruct (destroy_tablespace_directories env0 16384%N false
              (after_checkpoint env0 st2)) as [r3 st4] eqn:D2.
  assert (r3 = OK false) as ->.
  { apply (f_equal fst) in D2.
    apply (f_equal snd) in D1. simpl in D1. subst st2.
    apply (f_equal snd) in Hcat. simpl in Hcat. subst st1.
    vm_compute in D2. congruence. }
  destruct (proj2 (DropTableSpace_not_empty_after_checkpoint env0
                     (mkDropStmt "ts1" false) (state_of fs_in_use)
                     st1 st2 16384%N Hcat D1) st4 D2)
    as (Hrun & Htx & _).
  split; [rewrite Hrun; reflexivity|].
  rewrite Htx. reflexivity.
Defined.

(** ** Temp tablespaces *)

(** The loop with every row lock granted: the slots in use are the old ones
    followed by the entries of the names read. *)
Lemma PrepareTempTablespaces_loop_spec (env : Env) (names : list string) :
  (forall o, heap_lock_tuple env o = HeapTupleMayBeUpdated) ->
  forall (tblSpcs : list Oid) (numSpcs : nat) (st : State),
    numSpcs + length names <= length tblSpcs ->
    exists tbl' n' st',
      PrepareTempTablespaces_loop env names tblSpcs numSpcs st
      = (OK (tbl', n'), st')
      /\ take n' tbl'
         = take numSpcs tblSpcs ++ temp_list env (catalog st) names
      /\ catalog st' = catalog st /\ log st' = log st /\ fs st' = fs st
      /\ tempTableSpaces st' = tempTableSpaces st.
Proof.
  intros Hlock. induction names as [|curname rest IH];
    intros tblSpcs numSpcs st Hlen; simpl in *.
  - exists tblSpcs, numSpcs, st. rewrite app_nil_r. repeat split.
  - assert (Hput : forall x,
      take (S numSpcs) (<[numSpcs := x]> tblSpcs)
      = take numSpcs tblSpcs ++ [x]).
    { intros x. erewrite take_S_r
        by (apply list_lookup_insert_eq; lia).
      rewrite take_insert_ge by lia. reflexivity. }
    assert (Hstore : forall x st0,
      catalog st0 = catalog st -> log st0 = log st -> fs st0 = fs st ->
      tempTableSpaces st0 = tempTableSpaces st ->
      exists tbl' n' st',
        PrepareTempTablespaces_loop env rest (<[numSpcs := x]> tblSpcs)
          (S numSpcs) st0 = (OK (tbl', n'), st')
        /\ take n' tbl'
           = take numSpcs tblSpcs ++ x :: temp_list env (catalog st) rest
        /\ catalog st' = catalog st /\ log st' = log st /\ fs st' = fs st
        /\ tempTableSpaces st' = tempTableSpaces st).
    { intros x st0 Hc Hl Hf Ht.
      destruct (IH (<[numSpcs := x]> tblSpcs) (S numSpcs) st0)
        as (tbl' & n' & st' & Hrun & Htake & Hc' & Hl' & Hf' & Ht').
      { rewrite length_insert. lia. }
      exists tbl', n', st'. rewrite Hrun, Htake, Hput, Hc.
      rewrite <- app_assoc. repeat split; congruence. }
    assert (Hskip : forall st0,
      catalog st0 = catalog st -> log st0 = log st -> fs st0 = fs st ->
      tempTableSpaces st0 = tempTableSpaces st ->
      exists tbl' n' st',
        PrepareTempTablespaces_loop env rest tblSpcs numSpcs st0
        = (OK (tbl', n'), st')
        /\ take n' tbl'
           = take numSpcs tblSpcs ++ temp_list env (catalog st) rest
        /\ catalog st' = catalog st /\ log st' = log st /\ fs st' = fs st
        /\ tempTableSpaces st' = tempTableSpaces st).
    { intros st0 Hc Hl Hf Ht.
      destruct (IH tblSpcs numSpcs st0)
        as (tbl' & n' & st' & Hrun & Htake & Hc' & Hl' & Hf' & Ht');
        [lia|].
      exists tbl', n', st'. rewrite Hrun, Htake, Hc.
      repeat split; congruence. }
    unfold temp_list; simpl. unfold temp_entry at 1.
    destruct (bool_decide (curname = "")); [apply Hstore; reflexivity|].
    unfold bind at 1. rewrite get_tablespace_oid_missing_ok.
    destruct (scan_by_name curname (catalog st)) as [[i tup]|].
    2:{ simpl. apply Hskip; reflexivity. }
    unfold OidIsValid. rewrite Hlock.
    destruct (oid tup =? InvalidOid)%N eqn:Hinv; cbn [negb].
    { apply N.eqb_eq in Hinv.
      rewrite (bool_decide_eq_true_2 _ Hinv). simpl.
      apply Hskip; reflexivity. }
    rewrite Hinv.
    apply N.eqb_neq in Hinv.
    rewrite (bool_decide_eq_false_2 _ Hinv).
    destruct (oid tup =? MyDatabaseTableSpace env)%N eqn:Hmy.
    { apply N.eqb_eq in Hmy.
      rewrite (bool_decide_eq_true_2 _ Hmy). apply Hstore; reflexivity. }
    apply N.eqb_neq in Hmy. rewrite (bool_decide_eq_false_2 _ Hmy).
    destruct (bool_decide (pg_tablespace_aclcheck_CREATE env (oid tup)
                             (GetUserId env) = ACLCHECK_OK)); cbn [negb].
    + apply Hstore; reflexivity.
    + apply Hskip; reflexivity.
Qed.

(** Whatever the locks do, the loop never fails for a name that is missing
    or a right that is lacking. *)
Lemma PrepareTempTablespaces_loop_errors (env : Env) (names : list string) :
  forall tblSpcs numSpcs st e st',
    PrepareTempTablespaces_loop env names tblSpcs numSpcs st = (RAISE e, st') ->
    sqlerrcode e <> ERRCODE_UNDEFINED_OBJECT
    /\ sqlerrcode e <> ERRCODE_INSUFFICIENT_PRIVILEGE.
Proof.
  induction names as [|curname rest IH]; intros tblSpcs numSpcs st e st';
    simpl.
  - discriminate.
  - destruct (bool_decide (curname = "")); [apply IH|].
    unfold bind at 1. rewrite get_tablespace_oid_missing_ok.
    destruct (scan_by_name curname (catalog st)) as [[i tup]|].
    2:{ simpl. apply IH. }
    destruct (OidIsValid (oid tup)).
    2:{ simpl. apply IH. }
    destruct (heap_lock_tuple env (oid tup));
      try (intros H; inversion H; subst; simpl; split; discriminate).
    destruct (oid tup =? InvalidOid)%N; [apply IH|].
    destruct (oid tup =? MyDatabaseTableSpace env)%N; [apply IH|].
    destruct (negb _); apply IH.
Qed.

(** The call when there is work to do. *)
Lemma PrepareTempTablespaces_run (env : Env) (st : State) :
  TempTablespacesAreSet st = false ->
  IsTransactionState env = true ->
  PrepareTempTablespaces env st =
  match SplitIdentifierString env (temp_tablespaces env) with
  | None => SetTempTablespaces env [] st
  | Some namelist =>
      bind (PrepareTempTablespaces_loop env namelist
              (replicate (length namelist) InvalidOid) 0)
           (fun r => SetTempTablespaces env (take r.2 r.1)) st
  end.
Proof.
  intros Hunset Htx. unfold PrepareTempTablespaces, bind at 1, get.
  cbv beta iota. rewrite Hunset, Htx. cbn [negb].
  destruct (SplitIdentifierString env (temp_tablespaces env)); reflexivity.
Qed.

(** C8, as the code has it: PrepareTempTablespaces does nothing when the
    list is already set, and nothing either when no transaction is in
    progress.  Otherwise a temp_tablespaces value that does not parse sets
    the empty list, and one that parses is turned, in order, into the list
    of [temp_list]: the sentinel for every empty entry and every entry
    naming the database's default tablespace, no slot for an entry that
    does not resolve or that the caller may not create in.  Such an entry
    is passed over in silence: it never makes the call fail (the only
    failures left are those of the row lock) and nothing is written to the
    log. *)
Theorem PrepareTempTablespaces_spec (env : Env) (st : State) :
  (TempTablespacesAreSet st = true \/ IsTransactionState env = false ->
   PrepareTempTablespaces env st = (OK tt, st))
  /\ (TempTablespacesAreSet st = false ->
      IsTransactionState env = true ->
      (SplitIdentifierString env (temp_tablespaces env) = None ->
       exists st',
         PrepareTempTablespaces env st = (OK tt, st')
         /\ tempTableSpaces st' = Some [])
      /\ (forall names,
            SplitIdentifierString env (temp_tablespaces env) = Some names ->
            (forall e st',
                PrepareTempTablespaces env st = (RAISE e, st') ->
                sqlerrcode e <> ERRCODE_UNDEFINED_OBJECT
                /\ sqlerrcode e <> ERRCODE_INSUFFICIENT_PRIVILEGE)
            /\ ((forall o, heap_lock_tuple env o = HeapTupleMayBeUpdated) ->
                exists st',
                  PrepareTempTablespaces env st = (OK tt, st')
                  /\ tempTableSpaces st'
                     = Some (temp_list env (catalog st) names)
                  /\ log st' = log st
                  /\ catalog st' = catalog st
                  /\ fs st' = fs st))).
Proof.
  split.
  - unfold PrepareTempTablespaces. intros [Hset | Htx]; unfold bind, get.
    + rewrite Hset. reflexivity.
    + rewrite Htx. destruct (TempTablespacesAreSet st); reflexivity.
  - intros Hunset Htx.
    rewrite (PrepareTempTablespaces_run env st Hunset Htx). split.
    + intros ->. eexists; split; reflexivity.
    + intros names ->. split.
      * intros e st'. unfold bind.
        destruct (PrepareTempTablespaces_loop env names
                    (replicate (length names) InvalidOid) 0 st)
          as [[r|e0] st0] eqn:L; [discriminate|].
        intros H; inversion H; subst.
        eapply PrepareTempTablespaces_loop_errors; eassumption.
      * intros Hlock.
        destruct (PrepareTempTablespaces_loop_spec env names Hlock
                    (replicate (length names) InvalidOid) 0 st)
          as (tbl' & n' & st' & Hrun & Htake & Hc & Hl & Hf & Ht).
        { rewrite length_replicate. lia. }
        rewrite (bind_OK _ _ _ _ _ Hrun). simpl in *.
        eexists; split; [reflexivity|]. simpl.
        rewrite Htake. auto.
Qed.

Lemma PrepareTempTablespaces_spec_witness :
  TempTablespacesAreSet (state_of fs_in_use) = false
  /\ IsTransactionState env0 = true
  /\ SplitIdentifierString env0 (temp_tablespaces env0)
     = Some ["ts1"; ""; "nosuch"; "pg_default"; "ts2"]
  /\ (forall o, heap_lock_tuple env0 o = HeapTupleMayBeUpdated)
  /\ exists st',
      PrepareTempTablespaces env0 (state_of fs_in_use) = (OK tt, st')
      /\ tempTableSpaces st' = Some [16384%N; InvalidOid; InvalidOid]
      /\ log st' = [].
Proof.
  split; [reflexivity|]. split; [reflexivity|]. split; [reflexivity|].
  split; [reflexivity|].
  destruct (proj2 (proj2 (proj2 (PrepareTempTablespaces_spec env0
                                   (state_of fs_in_use))
                            eq_refl eq_refl)
                     ["ts1"; ""; "nosuch"; "pg_default"; "ts2"] eq_refl)
              (fun _ => eq_refl))
    as (st' & Hrun & Hlist & Hlog & _).
  exists st'. split; [exact Hrun|]. split; [exact Hlist|exact Hlog].
Defined.

(** C8 as stated fails: the entry "nosuch", which names no tablespace, is
    dropped from the list without any notice in the log. *)
Lemma PrepareTempTablespaces_skips_without_notice :
  ~ (forall env st names,
        TempTablespacesAreSet st = false ->
        SplitIdentifierString env (temp_tablespaces env) = Some names ->
        exists st',
          PrepareTempTablespaces env st = (OK tt, st')
          /\ tempTableSpaces st' = Some (temp_list env (catalog st) names)
          /\ (forall name,
                In name names -> name <> "" ->
                temp_entry env (catalog st) name = None ->
                exists notice,
                  In notice (log st') /\ err_level notice = NOTICE)).
Proof.
  intros H.
  destruct (H env0 (state_of fs_in_use)
              ["ts1"; ""; "nosuch"; "pg_default"; "ts2"] eq_refl eq_refl)
    as (st' & Hrun & _ & Hnotice).
  destruct (Hnotice "nosuch") as (notice & Hin & _).
  - simpl; auto.
  - discriminate.
  - reflexivity.
  - replace st' with (PrepareTempTablespaces env0 (state_of fs_in_use)).2
      in Hin by (rewrite Hrun; reflexivity).
    vm_compute in Hin. exact Hin.
Qed.

(** Outside a transaction the list is not parsed at all. *)
Lemma PrepareTempTablespaces_outside_transaction :
  tempTableSpaces
    (PrepareTempTablespaces
       (env_with false GP_ROLE_DISPATCH None false) (state_of fs_in_use)).2
  = None.
Proof. reflexivity. Qed.

(** ** Paths and the file system *)

Lemma split_slash_not_nil s : Path.split_slash s <> [].
Proof.
  destruct s as [|c r]; simpl; [discriminate|].
  destruct (bool_decide (c = "/"%char)); [discriminate|].
  destruct (Path.split_slash r); discriminate.
Qed.

Lemma split_slash_app a b :
  Path.split_slash (a +:+ String "/" b)
  = Path.split_slash a ++ Path.split_slash b.
Proof.
  induction a as [|c r IH]; simpl.
  - reflexivity.
  - rewrite IH. destruct (bool_decide (c = "/"%char)); [reflexivity|].
    pose proof (split_slash_not_nil r).
    destruct (Path.split_slash r); [congruence|reflexivity].
Qed.

Lemma components_slash a b :
  Path.components (Path.slash a b)
  = Path.components a ++ Path.components b.
Proof.
  unfold Path.components, Path.slash.
  change (a +:+ "/" +:+ b) with (a +:+ String "/" b).
  rewrite split_slash_app. apply List.filter_app.
Qed.

Lemma is_absolute_path_inv s :
  Path.is_absolute_path s = true -> exists r, s = String "/" r.
Proof.
  destruct s as [|c r]; simpl; [discriminate|].
  intros H. apply bool_decide_eq_true in H. subst. eauto.
Qed.

Lemma resolve_absolute_slash fs cwd a b follow :
  Path.is_absolute_path a = true ->
  FS.resolve fs cwd (Path.slash a b) follow
  = FS.walk fs FS.MAXSYMLINKS [] (Path.components a ++ Path.components b)
            follow.
Proof.
  intros Ha. rewrite <- components_slash.
  destruct (is_absolute_path_inv a Ha) as [r ->]. reflexivity.
Qed.

Lemma resolve_absolute fs cwd a follow :
  Path.is_absolute_path a = true ->
  FS.resolve fs cwd a follow
  = FS.walk fs FS.MAXSYMLINKS [] (Path.components a) follow.
Proof.
  intros Ha. destruct (is_absolute_path_inv a Ha) as [r ->]. reflexivity.
Qed.

Lemma walk_nil fs n cur follow : FS.walk fs n cur [] follow = inr cur.
Proof. destruct n; reflexivity. Qed.

Lemma walk_cons fs n cur c rest follow :
  FS.walk fs n cur (c :: rest) follow =
  match FS.node_at fs cur with
  | Some FS.Dir =>
      match fs !! (cur ++ [c]) with
      | Some (FS.Symlink tgt) =>
          if (match rest with [] => negb follow | _ => false end)
          then inr (cur ++ [c])
          else match n with
               | O => inl FS.ELOOP
               | S n' =>
                   FS.walk fs n'
                     (if Path.is_absolute_path tgt then [] else cur)
                     (Path.components tgt ++ rest) follow
               end
      | _ => FS.walk fs n (cur ++ [c]) rest follow
      end
  | Some _ => inl FS.ENOTDIR
  | None => inl FS.ENOENT
  end.
Proof. destruct n; reflexivity. Qed.

(** A walk that gets past a prefix of its components has found a directory
    there, and the prefix alone leads to it. *)
Lemma walk_prefix fs n :
  forall xs ys cur follow p,
    ys <> [] ->
    FS.walk fs n cur (xs ++ ys) follow = inr p ->
    exists q, FS.walk fs n cur xs true = inr q
              /\ FS.node_at fs q = Some FS.Dir.
Proof.
  induction n as [|n IHn]; intros xs; induction xs as [|c xs IHxs];
    intros ys cur follow p Hys; simpl app.
  1,3: destruct ys as [|y ys]; [congruence|];
       rewrite walk_cons, walk_nil;
       destruct (FS.node_at fs cur) as [[| |]|] eqn:Hcur; try discriminate;
       intros _; eauto.
  all: rewrite !walk_cons;
       destruct (FS.node_at fs cur) as [[| |]|] eqn:Hcur; try discriminate;
       destruct (fs !! (cur ++ [c])) as [[| |tgt]|] eqn:Hc;
       try (apply IHxs; assumption).
  - assert ((match xs ++ ys with [] => negb follow | _ :: _ => false end)
            = false) as ->.
    { destruct xs; simpl; [destruct ys; congruence|reflexivity]. }
    discriminate.
  - assert ((match xs ++ ys with [] => negb follow | _ :: _ => false end)
            = false) as ->.
    { destruct xs; simpl; [destruct ys; congruence|reflexivity]. }
    assert ((match xs with [] => negb true | _ :: _ => false end) = false)
      as -> by (destruct xs; reflexivity).
    rewrite app_assoc. apply IHn. assumption.
Qed.

Lemma set_fs_same st : set_fs (fs st) st = st.
Proof. destruct st; reflexivity. Qed.

(** ** A location already in use *)

(** C7: outside recovery, create_tablespace_directories called for an
    absolute location under which the version directory already exists
    fails with the object-in-use error, for every tablespace id, and
    leaves the state as it was: a second tablespace cannot be created on
    the location of another.  (CreateTableSpace, the only caller outside
    recovery, has checked that the location is absolute; the version
    directory name has at least one component.) *)
Theorem create_tablespace_directories_in_use (env : Env) (location : string)
    (tablespaceoid : Oid) (st : State) (n : FS.node) :
  InRecovery env = false ->
  Path.is_absolute_path location = true ->
  Path.components (tablespace_version_directory env) <> [] ->
  FS.lstat (fs st) (DataDir env)
    (Path.slash location (tablespace_version_directory env)) = inr n ->
  create_tablespace_directories env location tablespaceoid st
  = (RAISE (in_use_error env location), st).
Proof.
  intros Hrec Habs Hver Hexists.
  unfold FS.lstat in Hexists.
  destruct (FS.resolve (fs st) (DataDir env)
              (Path.slash location (tablespace_version_directory env)) false)
    as [e|p] eqn:Hres; [discriminate|].
  assert (Hchmod : FS.chmod (fs st) (DataDir env) location = inr (fs st)).
  { rewrite resolve_absolute_slash in Hres by exact Habs.
    destruct (walk_prefix _ _ _ _ _ _ _ Hver Hres) as (q & Hq & Hdir).
    unfold FS.chmod, FS.stat.
    rewrite resolve_absolute by exact Habs. rewrite Hq, Hdir. reflexivity. }
  assert (Hmkdir : FS.mkdir (fs st) (DataDir env)
                     (Path.slash location (tablespace_version_directory env))
                   = inl FS.EEXIST).
  { unfold FS.mkdir. rewrite Hres.
    destruct (FS.node_at (fs st) p); [reflexivity|discriminate]. }
  assert (Hc : chmod env location st = (OK None, st)).
  { unfold chmod, sys. rewrite Hchmod, set_fs_same. reflexivity. }
  assert (Hm : mkdir env (Path.slash location
                            (tablespace_version_directory env)) st
               = (OK (Some FS.EEXIST), st)).
  { unfold mkdir, sys. rewrite Hmkdir. reflexivity. }
  unfold create_tablespace_directories.
  rewrite (bind_run _ _ _ _ _ Hc). cbv beta iota.
  rewrite bind_ret, bind_when, Hrec, bind_bind.
  rewrite (bind_run _ _ _ _ _ Hm). cbv beta iota.
  rewrite bool_decide_eq_true_2 by reflexivity.
  rewrite bind_ereport_ERROR. reflexivity.
Qed.

Lemma create_tablespace_directories_in_use_witness :
  InRecovery env0 = false
  /\ Path.is_absolute_path "/data/ts1" = true
  /\ Path.components (tablespace_version_directory env0) <> []
  /\ FS.lstat (fs (state_of fs_in_use)) (DataDir env0)
       (Path.slash "/data/ts1" (tablespace_version_directory env0))
     = inr FS.Dir
  /\ create_tablespace_directories env0 "/data/ts1" 16386%N
       (state_of fs_in_use)
     = (RAISE (in_use_error env0 "/data/ts1"), state_of fs_in_use).
Proof.
  split; [reflexivity|]. split; [reflexivity|]. split; [discriminate|].
  split; [vm_compute; reflexivity|].
  apply (create_tablespace_directories_in_use env0 "/data/ts1" 16386%N
           (state_of fs_in_use) FS.Dir).
  - reflexivity.
  - reflexivity.
  - discriminate.
  - vm_compute; reflexivity.
Defined.

(** ** Lookups in the tree *)

Lemma node_at_snoc fs cur c :
  FS.node_at fs (cur ++ [c]) = fs !! (cur ++ [c]).
Proof. destruct cur; reflexivity. Qed.

Lemma node_at_ne fs p : p <> [] -> FS.node_at fs p = fs !! p.
Proof. destruct p; [congruence|reflexivity]. Qed.

Lemma has_children_true fs p :
  FS.has_children fs p = true <->
  exists k x, fs !! k = Some x /\ p `prefix_of` k /\ k <> p.
Proof.
  unfold FS.has_children. rewrite bool_decide_eq_true, Exists_exists.
  split.
  - intros (k & Hin & Hp & Hne).
    apply list_elem_of_fmap in Hin as ([k' x] & -> & Hin).
    apply elem_of_map_to_list in Hin. eauto.
  - intros (k & x & Hk & Hp & Hne). exists k. split; [|auto].
    apply list_elem_of_fmap. exists (k, x). split; [reflexivity|].
    apply elem_of_map_to_list, Hk.
Qed.

Lemma has_children_false fs p :
  FS.has_children fs p = false <->
  forall k, p `prefix_of` k -> k <> p -> fs !! k = None.
Proof.
  rewrite <- not_true_iff_false, has_children_true. split.
  - intros H k Hp Hne. destruct (fs !! k) eqn:Hk; [|reflexivity].
    exfalso. apply H. eauto.
  - intros H (k & x & Hk & Hp & Hne). rewrite (H k Hp Hne) in Hk.
    discriminate.
Qed.

Lemma lookup_remove_tree V f k :
  remove_tree V f !! k = if decide (V `prefix_of` k) then None else f !! k.
Proof.
  unfold remove_tree. destruct (decide (V `prefix_of` k)) as [Hp|Hp].
  - apply map_lookup_filter_None. right. intros x _ Hn. apply Hn, Hp.
  - destruct (f !! k) as [x|] eqn:Hk.
    + apply map_lookup_filter_Some. auto.
    + apply map_lookup_filter_None. auto.
Qed.

Lemma sys_ok g st fs' :
  g (fs st) = inr fs' -> sys g st = (OK None, set_fs fs' st).
Proof. unfold sys. intros ->. reflexivity. Qed.

Lemma sys_err g st e :
  g (fs st) = inl e -> sys g st = (OK (Some e), st).
Proof. unfold sys. intros ->. reflexivity. Qed.

Lemma prefix_in_prefixes (q p : list string) :
  q `prefix_of` p -> q ∈ prefixes p.
Proof.
  intros [k ->]. unfold prefixes. apply list_elem_of_fmap.
  exists (length q). split.
  - rewrite take_app_length. reflexivity.
  - apply elem_of_seq. rewrite length_app. lia.
Qed.

(** ** Walks in a larger tree *)

(** A walk that ends well in [f] ends in the same place in every tree that
    holds all of [f]: what [f] lacks can only be looked at as the last
    component, where it matters only if links are followed. *)
Lemma walk_mono (f g : FS.t) n :
  f ⊆ g ->
  forall todo cur follow p,
    FS.walk f n cur todo follow = inr p ->
    (follow = true -> FS.node_at f p = None ->
     forall tgt, g !! p <> Some (FS.Symlink tgt)) ->
    FS.walk g n cur todo follow = inr p.
Proof.
  intros Hsub.
  induction n as [|n IHn]; intros todo; induction todo as [|c rest IHrest];
    intros cur follow p; rewrite ?walk_nil; try (intros; assumption).
  all: rewrite !walk_cons;
       destruct (FS.node_at f cur) as [[| |]|] eqn:Hcur; try discriminate;
       assert (Hgcur : FS.node_at g cur = Some FS.Dir)
         by (destruct cur; [reflexivity|];
             apply (lookup_weaken f g _ _ Hcur Hsub));
       rewrite Hgcur;
       destruct (f !! (cur ++ [c])) as [x|] eqn:Hc.
  all: try (rewrite (lookup_weaken f g _ _ Hc Hsub);
            destruct x as [| |tgt]; try (apply IHrest);
            destruct (match rest with [] => negb follow | _ => false end);
            [intros; assumption|]).
  - discriminate.
  - destruct rest as [|r rest].
    + rewrite walk_nil. intros Hp Hside. injection Hp as <-.
      destruct (g !! (cur ++ [c])) as [[| |tgt]|] eqn:Hg;
        rewrite ?walk_nil; try reflexivity.
      destruct follow; [|reflexivity].
      exfalso.
      eapply (Hside eq_refl); [rewrite node_at_snoc; exact Hc|reflexivity].
    + rewrite walk_cons, node_at_snoc, Hc. discriminate.
  - apply IHn.
  - destruct rest as [|r rest].
    + rewrite walk_nil. intros Hp Hside. injection Hp as <-.
      destruct (g !! (cur ++ [c])) as [[| |tgt]|] eqn:Hg;
        rewrite ?walk_nil; try reflexivity.
      destruct follow; [|reflexivity].
      exfalso.
      eapply (Hside eq_refl); [rewrite node_at_snoc; exact Hc|reflexivity].
    + rewrite walk_cons, node_at_snoc, Hc. discriminate.
Qed.

(** A walk that does not follow a last link ends where the walk that
    follows it ends, when there is no link there. *)
Lemma walk_follow (g : FS.t) n :
  forall todo cur p,
    FS.walk g n cur todo false = inr p ->
    (forall tgt, g !! p <> Some (FS.Symlink tgt)) ->
    FS.walk g n cur todo true = inr p.
Proof.
  induction n as [|n IHn]; intros todo; induction todo as [|c rest IHrest];
    intros cur p; rewrite ?walk_nil; try (intros; assumption).
  all: rewrite !walk_cons;
       destruct (FS.node_at g cur) as [[| |]|] eqn:Hcur; try discriminate;
       destruct (g !! (cur ++ [c])) as [[| |tgt]|] eqn:Hc;
       try (apply IHrest).
  all: destruct rest as [|r rest]; cbn [negb];
       try discriminate; try (apply IHn).
  all: intros Hp Hside; injection Hp as <-; exfalso;
       apply (Hside tgt); exact Hc.
Qed.

Lemma resolve_mono (f g : FS.t) cwd path follow p :
  f ⊆ g ->
  FS.resolve f cwd path follow = inr p ->
  (follow = true -> FS.node_at f p = None ->
   forall tgt, g !! p <> Some (FS.Symlink tgt)) ->
  FS.resolve g cwd path follow = inr p.
Proof.
  intros Hsub. unfold FS.resolve. destruct path; [discriminate|].
  apply walk_mono, Hsub.
Qed.

Lemma resolve_follow (g : FS.t) cwd path p :
  FS.resolve g cwd path false = inr p ->
  (forall tgt, g !! p <> Some (FS.Symlink tgt)) ->
  FS.resolve g cwd path true = inr p.
Proof.
  unfold FS.resolve. destruct path; [discriminate|]. apply walk_follow.
Qed.

Lemma well_formed_b_true f : well_formed_b f = true -> well_formed f.
Proof.
  unfold well_formed_b. rewrite forallb_forall. intros H k x Hk q Hq Hne.
  assert (Hin : In k (map_to_list f).*1).
  { apply list_elem_of_In, list_elem_of_fmap. exists (k, x).
    split; [reflexivity|]. apply elem_of_map_to_list, Hk. }
  specialize (H k Hin). rewrite forallb_forall in H.
  specialize (H q (proj1 (list_elem_of_In _ _) (prefix_in_prefixes q k Hq))).
  apply orb_true_iff in H as [H|H].
  - apply bool_decide_eq_true in H. contradiction.
  - apply bool_decide_eq_true in H. exact H.
Qed.

Lemma same_outside_b_true V K f h :
  same_outside_b V K f h = true -> same_outside V K f h.
Proof.
  unfold same_outside_b. rewrite forallb_forall. intros H k HV HK.
  destruct (f !! k) as [x|] eqn:Hf.
  - assert (Hin : In k ((map_to_list f).*1 ++ (map_to_list h).*1)).
    { apply in_or_app. left. apply list_elem_of_In, list_elem_of_fmap.
      exists (k, x). split; [reflexivity|]. apply elem_of_map_to_list, Hf. }
    specialize (H k Hin). rewrite !orb_true_iff, !bool_decide_eq_true in H.
    destruct H as [[H|H]|H]; [contradiction|contradiction|congruence].
  - destruct (h !! k) as [y|] eqn:Hh; [|reflexivity].
    assert (Hin : In k ((map_to_list f).*1 ++ (map_to_list h).*1)).
    { apply in_or_app. right. apply list_elem_of_In, list_elem_of_fmap.
      exists (k, y). split; [reflexivity|]. apply elem_of_map_to_list, Hh. }
    specialize (H k Hin). rewrite !orb_true_iff, !bool_decide_eq_true in H.
    destruct H as [[H|H]|H]; [contradiction|contradiction|congruence].
Qed.

Tactic Notation "binv" hyp(H) "as" ident(a) ident(s) ident(E) :=
  apply bind_inv_OK in H as (a & s & E & H).

(** What a create in normal operation that returns has found and done:
    the location is there, the version directory was not and has been
    made, the link was not there and has been made. *)
Lemma create_normal_OK env location o st st' :
  InRecovery env = false ->
  create_tablespace_directories env location o st = (OK tt, st') ->
  exists n V K,
    FS.stat (fs st) (DataDir env) location = inr n
    /\ FS.resolve (fs st) (DataDir env)
         (Path.slash location (tablespace_version_directory env)) false
       = inr V
    /\ FS.node_at (fs st) V = None
    /\ FS.resolve (<[V := FS.Dir]> (fs st)) (DataDir env) (linkloc_of o) false
       = inr K
    /\ FS.node_at (<[V := FS.Dir]> (fs st)) K = None
    /\ st' = set_fs (<[K := FS.Symlink location]> (<[V := FS.Dir]> (fs st))) st.
Proof.
  intros Hrec H. unfold create_tablespace_directories in H.
  rewrite Hrec in H.
  binv H as r1 s1 E1.
  unfold chmod, sys in E1.
  destruct (FS.chmod (fs st) (DataDir env) location) as [e|f'] eqn:Hchmod.
  { injection E1 as <- <-.
    destruct (bool_decide (e = FS.ENOENT));
      rewrite bind_ereport_ERROR in H; discriminate. }
  injection E1 as <- <-.
  unfold FS.chmod in Hchmod.
  destruct (FS.stat (fs st) (DataDir env) location) as [e|n] eqn:Hstat;
    [discriminate|].
  injection Hchmod as <-. rewrite set_fs_same in H.
  rewrite bind_ret, bind_when, bind_bind in H.
  binv H as r3 s3 E3.
  unfold mkdir, sys in E3.
  destruct (FS.mkdir (fs st) (DataDir env)
              (Path.slash location (tablespace_version_directory env)))
    as [e|f1] eqn:Hmkdir.
  { injection E3 as <- <-.
    destruct (bool_decide (e = FS.EEXIST));
      rewrite bind_ereport_ERROR in H; discriminate. }
  injection E3 as <- <-.
  unfold FS.mkdir in Hmkdir.
  destruct (FS.resolve (fs st) (DataDir env)
              (Path.slash location (tablespace_version_directory env)) false)
    as [e|V] eqn:HV; [discriminate|].
  destruct (FS.node_at (fs st) V) eqn:HVn; [discriminate|].
  injection Hmkdir as <-.
  rewrite bind_ret, bind_when in H.
  binv H as r5 s5 E5.
  unfold symlink, sys in E5. cbn [fs set_fs] in E5.
  destruct (FS.symlink (<[V:=FS.Dir]> (fs st)) (DataDir env) location
              (linkloc_of o)) as [e|f2] eqn:Hsym.
  { injection E5 as <- <-. discriminate. }
  injection E5 as <- <-. injection H as <-.
  unfold FS.symlink in Hsym.
  destruct (FS.resolve (<[V:=FS.Dir]> (fs st)) (DataDir env) (linkloc_of o)
              false) as [e|K] eqn:HK; [discriminate|].
  destruct (FS.node_at (<[V:=FS.Dir]> (fs st)) K) eqn:HKn; [discriminate|].
  injection Hsym as <-.
  exists n, V, K. repeat split; assumption.
Qed.

(** The removal of what is in the link's place, as replay of a Create
    does it, when that is not a directory that holds something. *)
Lemma run_remove_link env o st Kp :
  FS.resolve (fs st) (DataDir env) (linkloc_of o) false = inr Kp ->
  Kp <> [] ->
  (fs st !! Kp = Some FS.Dir -> FS.has_children (fs st) Kp = false) ->
  (let* st0 := lstat env (linkloc_of o) in
   if S_ISDIR st0 then
     let* r := rmdir env (linkloc_of o) in
     match r with
     | Some e => ereport ERROR (errcode_for_file_access e)
                         ("could not remove directory " +:+ linkloc_of o)
     | None => ret tt
     end
   else
     let* r := unlink env (linkloc_of o) in
     match r with
     | Some e =>
         when (negb (bool_decide (e = FS.ENOENT)))
           (ereport ERROR (errcode_for_file_access e)
                    ("could not remove symbolic link " +:+ linkloc_of o))
     | None => ret tt
     end) st
  = (OK tt, set_fs (delete Kp (fs st)) st).
Proof.
  intros Hres Hne Hempty.
  assert (H5 : lstat env (linkloc_of o) st
               = (OK (match fs st !! Kp with
                      | Some n => inr n
                      | None => inl FS.ENOENT
                      end), st)).
  { unfold lstat, FS.lstat. rewrite Hres, node_at_ne by exact Hne.
    reflexivity. }
  rewrite (bind_run _ _ _ _ _ H5).
  destruct (fs st !! Kp) as [[| |tgt]|] eqn:HK; cbv beta iota delta [S_ISDIR].
  - unfold rmdir.
    erewrite bind_run
      by (apply sys_ok; unfold FS.rmdir; rewrite Hres, HK, Hempty;
          reflexivity).
    reflexivity.
  - unfold unlink.
    erewrite bind_run
      by (apply sys_ok; unfold FS.unlink; rewrite Hres, HK; reflexivity).
    reflexivity.
  - unfold unlink.
    erewrite bind_run
      by (apply sys_ok; unfold FS.unlink; rewrite Hres, HK; reflexivity).
    reflexivity.
  - unfold unlink.
    erewrite bind_run
      by (apply sys_err; unfold FS.unlink; rewrite Hres, HK;
          destruct Kp; [congruence|reflexivity]).
    cbv beta iota. rewrite bool_decide_eq_true_2 by reflexivity.
    cbn [negb when]. unfold ret. f_equal.
    rewrite delete_id by exact HK. symmetry. apply set_fs_same.
Qed.

Section ReplayAfterCreate.

Variables (env : Env) (location : string) (o : Oid).
Variables (f0 : FS.t) (n0 : FS.node) (V K : list string).

Local Abbreviation cwd := (DataDir env).
Local Abbreviation lvd :=
  (Path.slash location (tablespace_version_directory env)).
Local Abbreviation f1 := (<[V := FS.Dir]> f0).
Local Abbreviation f2 := (<[K := FS.Symlink location]> (<[V := FS.Dir]> f0)).

Hypothesis wf : well_formed f0.
Hypothesis Hloc : FS.stat f0 cwd location = inr n0.
Hypothesis HV : FS.resolve f0 cwd lvd false = inr V.
Hypothesis HVn : FS.node_at f0 V = None.
Hypothesis HK : FS.resolve f1 cwd (linkloc_of o) false = inr K.
Hypothesis HKn : FS.node_at f1 K = None.

Lemma made_V_ne : V <> [].
Proof. intros E. rewrite E in HVn. discriminate. Qed.

Lemma made_K_ne : K <> [].
Proof. intros E. rewrite E in HKn. discriminate. Qed.

Lemma made_f0_V : f0 !! V = None.
Proof. rewrite <- node_at_ne by apply made_V_ne. exact HVn. Qed.

Lemma made_f1_K : f1 !! K = None.
Proof. rewrite <- node_at_ne by apply made_K_ne. exact HKn. Qed.

Lemma made_K_ne_V : K <> V.
Proof.
  intros E. pose proof made_f1_K as H. rewrite E, lookup_insert_eq in H.
  discriminate.
Qed.

Lemma made_f0_K : f0 !! K = None.
Proof.
  pose proof made_f1_K as H.
  rewrite lookup_insert_ne in H by (apply not_eq_sym, made_K_ne_V). exact H.
Qed.

(** In a tree nothing lies below a place that is free. *)
Lemma made_below_V k : V `prefix_of` k -> k <> V -> f0 !! k = None.
Proof.
  intros Hp Hne. destruct (f0 !! k) as [x|] eqn:Hk; [|reflexivity].
  pose proof (wf k x Hk V Hp (not_eq_sym Hne)) as HVd.
  rewrite HVn in HVd. discriminate.
Qed.

Lemma made_lookup_f2 k :
  f2 !! k = if decide (k = K) then Some (FS.Symlink location)
            else if decide (k = V) then Some FS.Dir
            else f0 !! k.
Proof.
  destruct (decide (k = K)) as [->|N1]; [apply lookup_insert_eq|].
  rewrite lookup_insert_ne by congruence.
  destruct (decide (k = V)) as [->|N2]; [apply lookup_insert_eq|].
  apply lookup_insert_ne. congruence.
Qed.

(** The three paths lead where they led before in every tree that holds
    what the tree held before the create. *)
Lemma step_chmod_in g : f0 ⊆ g -> FS.chmod g cwd location = inr g.
Proof.
  intros Hsub. unfold FS.chmod. unfold FS.stat in *.
  destruct (FS.resolve f0 cwd location true) as [e|q] eqn:Hq; [discriminate|].
  destruct (FS.node_at f0 q) as [n|] eqn:Hn; [|discriminate].
  rewrite (resolve_mono f0 g _ _ _ _ Hsub Hq) by (intros; congruence).
  assert (FS.node_at g q = Some n) as ->; [|reflexivity].
  destruct q; [exact Hn|]. apply (lookup_weaken f0 g _ _ Hn Hsub).
Qed.

Lemma step_resolve_V g : f0 ⊆ g -> FS.resolve g cwd lvd false = inr V.
Proof.
  intros Hsub. apply (resolve_mono f0 g _ _ _ _ Hsub HV). discriminate.
Qed.

Lemma step_resolve_K g :
  f1 ⊆ g -> FS.resolve g cwd (linkloc_of o) false = inr K.
Proof.
  intros Hsub. apply (resolve_mono f1 g _ _ _ _ Hsub HK). discriminate.
Qed.

Lemma f0_sub g :
  (forall k, ¬ V `prefix_of` k -> k <> K -> g !! k = f0 !! k) -> f0 ⊆ g.
Proof.
  intros Hg. apply map_subseteq_spec. intros k x Hk.
  rewrite Hg; [exact Hk| |].
  - intros Hp. destruct (decide (k = V)) as [->|Hne].
    + rewrite made_f0_V in Hk. discriminate.
    + rewrite made_below_V in Hk by assumption. discriminate.
  - intros ->. rewrite made_f0_K in Hk. discriminate.
Qed.

Lemma f1_sub g :
  (forall k, ¬ V `prefix_of` k -> k <> K -> g !! k = f0 !! k) ->
  g !! V = Some FS.Dir -> f1 ⊆ g.
Proof.
  intros Hg HgV. apply map_subseteq_spec. intros k x Hk.
  destruct (decide (k = V)) as [->|Hne].
  - rewrite lookup_insert_eq in Hk. congruence.
  - rewrite lookup_insert_ne in Hk by congruence.
    apply (lookup_weaken f0 g _ _ Hk (f0_sub g Hg)).
Qed.

(** Replay on the tree as it was before the create. *)
Lemma replay_clean_run st :
  InRecovery env = true ->
  fs st = f0 ->
  create_tablespace_directories env location o st = (OK tt, set_fs f2 st).
Proof.
  intros Hrec Hfs.
  assert (Hsub0 : f0 ⊆ f0) by reflexivity.
  assert (H1 : chmod env location st = (OK None, st)).
  { unfold chmod. erewrite sys_ok by (rewrite Hfs; apply step_chmod_in, Hsub0).
    rewrite <- Hfs. rewrite set_fs_same. reflexivity. }
  assert (H2 : stat env lvd st = (OK (inl FS.ENOENT), st)).
  { unfold stat, FS.stat. rewrite Hfs.
    rewrite (resolve_follow f0 _ _ V HV)
      by (intros tgt; rewrite made_f0_V; discriminate).
    rewrite HVn. reflexivity. }
  assert (H4 : mkdir env lvd st = (OK None, set_fs f1 st)).
  { unfold mkdir. apply sys_ok. rewrite Hfs. unfold FS.mkdir.
    rewrite HV, HVn. reflexivity. }
  assert (H5 := run_remove_link env o (set_fs f1 st) K HK made_K_ne).
  cbn [fs set_fs] in H5. rewrite delete_id in H5 by apply made_f1_K.
  specialize (H5 ltac:(rewrite made_f1_K; discriminate)).
  assert (H7 : symlink env location (linkloc_of o) (set_fs f1 st)
               = (OK None, set_fs f2 st)).
  { unfold symlink. erewrite sys_ok; [reflexivity|].
    cbn [fs set_fs]. unfold FS.symlink. rewrite HK, HKn. reflexivity. }
  unfold create_tablespace_directories.
  rewrite (bind_run _ _ _ _ _ H1). cbv beta iota.
  rewrite bind_ret, bind_when, Hrec.
  rewrite bind_bind, (bind_run _ _ _ _ _ H2). cbv beta iota delta [S_ISDIR].
  rewrite bind_ret.
  rewrite bind_bind, (bind_run _ _ _ _ _ H4). cbv beta iota.
  rewrite bind_ret, bind_when.
  rewrite (bind_run _ _ _ _ _ H5).
  cbv beta iota. rewrite (bind_run _ _ _ _ _ H7). reflexivity.
Qed.

Variable h : FS.t.
Hypothesis Hh : same_outside V K f2 h.
Hypothesis HhK : h !! K = Some FS.Dir -> FS.has_children h K = false.

Lemma h_outside k : ¬ V `prefix_of` k -> k <> K -> h !! k = f0 !! k.
Proof.
  intros Hp Hne. rewrite Hh; [|tauto|exact Hne].
  rewrite made_lookup_f2, decide_False by exact Hne.
  rewrite decide_False; [reflexivity|].
  intros ->. apply Hp. reflexivity.
Qed.

Lemma h_V : h !! V = Some FS.Dir.
Proof.
  rewrite Hh; [|tauto|apply not_eq_sym, made_K_ne_V].
  rewrite made_lookup_f2, decide_False by (apply not_eq_sym, made_K_ne_V).
  rewrite decide_True; reflexivity.
Qed.

Local Abbreviation emptied :=
  (filter (λ kv : list string * FS.node, ¬ (V `prefix_of` kv.1 ∧ kv.1 ≠ V)) h).
Local Abbreviation R := (remove_tree V h).
Local Abbreviation made := (<[V := FS.Dir]> (remove_tree V h)).

Lemma lookup_emptied k :
  emptied !! k = if decide (V `prefix_of` k /\ k <> V) then None else h !! k.
Proof.
  destruct (decide (V `prefix_of` k /\ k <> V)) as [Hp|Hp].
  - apply map_lookup_filter_None. right. intros x _ Hn. apply Hn, Hp.
  - destruct (h !! k) as [x|] eqn:Hk.
    + apply map_lookup_filter_Some. auto.
    + apply map_lookup_filter_None. auto.
Qed.

Lemma emptied_delete : delete V emptied = R.
Proof.
  apply map_eq. intros k. rewrite lookup_remove_tree.
  destruct (decide (k = V)) as [->|Hne].
  - rewrite lookup_delete_eq, decide_True; reflexivity.
  - rewrite lookup_delete_ne by congruence. rewrite lookup_emptied.
    destruct (decide (V `prefix_of` k)) as [Hp|Hp].
    + rewrite decide_True by auto. reflexivity.
    + rewrite decide_False by tauto. reflexivity.
Qed.

Lemma sub_emptied : f0 ⊆ emptied.
Proof.
  apply f0_sub. intros k Hp Hne. rewrite lookup_emptied.
  rewrite decide_False by tauto. apply h_outside; assumption.
Qed.

Lemma sub_R : f0 ⊆ R.
Proof.
  apply f0_sub. intros k Hp Hne. rewrite lookup_remove_tree.
  rewrite decide_False by exact Hp. apply h_outside; assumption.
Qed.

Lemma lookup_made k :
  made !! k = if decide (k = V) then Some FS.Dir
              else if decide (V `prefix_of` k) then None else h !! k.
Proof.
  destruct (decide (k = V)) as [->|Hne]; [apply lookup_insert_eq|].
  rewrite lookup_insert_ne by congruence. apply lookup_remove_tree.
Qed.

Lemma sub_made : f1 ⊆ made.
Proof.
  apply f1_sub; [|apply lookup_insert_eq].
  intros k Hp Hne. rewrite lookup_made.
  rewrite decide_False by (intros ->; apply Hp; reflexivity).
  rewrite decide_False by exact Hp. apply h_outside; assumption.
Qed.

Lemma sub_unlinked : f1 ⊆ delete K made.
Proof.
  apply f1_sub.
  - intros k Hp Hne. rewrite lookup_delete_ne by congruence.
    rewrite lookup_made.
    rewrite decide_False by (intros ->; apply Hp; reflexivity).
    rewrite decide_False by exact Hp. apply h_outside; assumption.
  - rewrite lookup_delete_ne by apply made_K_ne_V. apply lookup_insert_eq.
Qed.

Lemma step_rmtree_h : FS.rmtree h cwd lvd = (true, R).
Proof.
  unfold FS.rmtree.
  assert (Hsub : f0 ⊆ h) by (apply f0_sub, h_outside).
  rewrite (resolve_follow h _ _ V (step_resolve_V h Hsub))
    by (intros tgt; rewrite h_V; discriminate).
  rewrite node_at_ne by apply made_V_ne. rewrite h_V.
  unfold FS.rmdir. rewrite (step_resolve_V _ sub_emptied).
  rewrite lookup_emptied, decide_False by tauto. rewrite h_V.
  assert (FS.has_children emptied V = false) as ->.
  { apply has_children_false. intros k Hp Hne. rewrite lookup_emptied.
    rewrite decide_True by auto. reflexivity. }
  rewrite emptied_delete. reflexivity.
Qed.

Lemma step_mkdir_R : FS.mkdir R cwd lvd = inr made.
Proof.
  unfold FS.mkdir. rewrite (step_resolve_V _ sub_R).
  rewrite node_at_ne by apply made_V_ne.
  rewrite lookup_remove_tree, decide_True; reflexivity.
Qed.

Lemma made_link_empty :
  made !! K = Some FS.Dir -> FS.has_children made K = false.
Proof.
  rewrite lookup_made. rewrite decide_False by apply made_K_ne_V.
  destruct (decide (V `prefix_of` K)) as [|HVK]; [discriminate|].
  intros HKd. pose proof (proj1 (has_children_false h K) (HhK HKd)) as Hno.
  apply has_children_false. intros k Hp Hne. rewrite lookup_made.
  destruct (decide (k = V)) as [->|HkV].
  - pose proof h_V as HhV. rewrite (Hno V Hp Hne) in HhV. discriminate.
  - destruct (decide (V `prefix_of` k)); [reflexivity|]. apply Hno; assumption.
Qed.

Lemma relinked : <[K := FS.Symlink location]> (delete K made) = f2.
Proof.
  rewrite insert_delete_eq. apply map_eq. intros k.
  rewrite made_lookup_f2.
  destruct (decide (k = K)) as [->|HkK]; [apply lookup_insert_eq|].
  rewrite lookup_insert_ne by congruence. rewrite lookup_made.
  destruct (decide (k = V)) as [->|HkV]; [reflexivity|].
  destruct (decide (V `prefix_of` k)) as [Hp|Hp].
  - symmetry. apply made_below_V; assumption.
  - apply h_outside; assumption.
Qed.

(** Replay on a tree that holds the version directory. *)
Lemma replay_made_run st :
  InRecovery env = true ->
  fs st = h ->
  create_tablespace_directories env location o st = (OK tt, set_fs f2 st).
Proof.
  intros Hrec Hfs.
  assert (Hsub : f0 ⊆ h) by (apply f0_sub, h_outside).
  assert (H1 : chmod env location st = (OK None, st)).
  { unfold chmod. erewrite sys_ok by (rewrite Hfs; apply step_chmod_in, Hsub).
    rewrite <- Hfs. rewrite set_fs_same. reflexivity. }
  assert (H2 : stat env lvd st = (OK (inr FS.Dir), st)).
  { unfold stat, FS.stat. rewrite Hfs.
    rewrite (resolve_follow h _ _ V (step_resolve_V h Hsub))
      by (intros tgt; rewrite h_V; discriminate).
    rewrite node_at_ne by apply made_V_ne. rewrite h_V. reflexivity. }
  assert (H3 : rmtree env lvd st = (OK true, set_fs R st)).
  { unfold rmtree. rewrite Hfs, step_rmtree_h. reflexivity. }
  assert (H4 : mkdir env lvd (set_fs R st) = (OK None, set_fs made st)).
  { unfold mkdir. erewrite sys_ok by apply step_mkdir_R. reflexivity. }
  assert (H5 := run_remove_link env o (set_fs made st) K
                  (step_resolve_K _ sub_made) made_K_ne made_link_empty).
  cbn [fs set_fs] in H5.
  assert (H7 : symlink env location (linkloc_of o)
                 (set_fs (delete K made) st)
               = (OK None, set_fs f2 st)).
  { unfold symlink. erewrite sys_ok; [reflexivity|].
    cbn [fs set_fs]. unfold FS.symlink.
    rewrite (step_resolve_K _ sub_unlinked).
    rewrite node_at_ne by apply made_K_ne.
    rewrite lookup_delete_eq, relinked. reflexivity. }
  unfold create_tablespace_directories.
  rewrite (bind_run _ _ _ _ _ H1). cbv beta iota.
  rewrite bind_ret, bind_when, Hrec.
  rewrite bind_bind, (bind_run _ _ _ _ _ H2). cbv beta iota delta [S_ISDIR].
  rewrite bind_bind, (bind_run _ _ _ _ _ H3). cbv beta iota.
  cbn [negb]. rewrite bind_when.
  rewrite bind_bind, (bind_run _ _ _ _ _ H4). cbv beta iota.
  rewrite bind_ret, bind_when.
  rewrite (bind_run _ _ _ _ _ H5).
  cbv beta iota. rewrite (bind_run _ _ _ _ _ H7). reflexivity.
Qed.

End ReplayAfterCreate.

(** ** Replay of a Create record *)

(** C4: take a create in normal operation that succeeds on a tree (a
    single apply on a clean file system: it finds neither version
    directory nor link and makes both), and let [V] and [K] be the places
    of the version directory and of the link in the tree it leaves.  Then
    replay of the Create record on any tree that holds the version
    directory, that is, on the tree the create left, with whatever has
    since been put into the version directory and whatever is in the place
    of the link, short of a directory that holds something, raises no
    error and ends in the very state the create left: the version
    directory is emptied and made anew and what is in the link's place is
    removed first.  The tree the create left is such a tree itself, so
    replay on it, once or again, changes nothing, and replay on the clean
    tree gives the same state too: redo is idempotent. *)
Theorem create_replay_idempotent (env env' : Env) (record : XLogRecord)
    (st st' : State) (V K : list string) :
  InRecovery env = true ->
  InRecovery env' = false ->
  DataDir env' = DataDir env ->
  tablespace_version_directory env' = tablespace_version_directory env ->
  record_info record = XLOG_TBLSPC_CREATE ->
  well_formed (fs st) ->
  create_tablespace_directories env' (ts_path record) (ts_id record) st
  = (OK tt, st') ->
  FS.resolve (fs st') (DataDir env)
    (Path.slash (ts_path record) (tablespace_version_directory env)) false
  = inr V ->
  FS.resolve (fs st') (DataDir env) (linkloc_of (ts_id record)) false
  = inr K ->
  fs st' !! V = Some FS.Dir
  /\ fs st' !! K = Some (FS.Symlink (ts_path record))
  /\ (forall h,
        same_outside V K (fs st') h ->
        (h !! K = Some FS.Dir -> FS.has_children h K = false) ->
        tblspc_redo env record (set_fs h st') = (OK tt, st'))
  /\ tblspc_redo env record st' = (OK tt, st')
  /\ tblspc_redo env record st = (OK tt, st').
Proof.
  intros Hrec Hnorm Hcwd Hver Hinfo Hwf Hcreate HV HK.
  apply create_normal_OK in Hcreate
    as (n0 & V0 & K0 & Hloc & HV0 & HV0n & HK0 & HK0n & ->);
    [|exact Hnorm].
  rewrite Hcwd, Hver in *. cbn [fs set_fs] in *.
  set (location := ts_path record) in *. set (o := ts_id record) in *.
  set (f0 := fs st) in *.
  pose proof (made_V_ne f0 V0 HV0n) as HVne.
  pose proof (made_K_ne f0 V0 K0 HK0n) as HKne.
  pose proof (made_K_ne_V f0 V0 K0 HK0n) as HKV.
  pose proof (made_f0_V f0 V0 HV0n) as Hf0V.
  pose proof (made_f0_K f0 V0 K0 HK0n) as Hf0K.
  assert (Hsub1 : <[V0 := FS.Dir]> f0
                  ⊆ <[K0 := FS.Symlink location]> (<[V0 := FS.Dir]> f0)).
  { apply insert_subseteq. rewrite lookup_insert_ne by congruence.
    exact Hf0K. }
  assert (Hsub0 : f0 ⊆ <[K0 := FS.Symlink location]> (<[V0 := FS.Dir]> f0)).
  { etransitivity; [|exact Hsub1]. apply insert_subseteq, Hf0V. }
  assert (V = V0) as ->.
  { rewrite (resolve_mono _ _ _ _ _ _ Hsub0 HV0) in HV by discriminate.
    congruence. }
  assert (K = K0) as ->.
  { rewrite (resolve_mono _ _ _ _ _ _ Hsub1 HK0) in HK by discriminate.
    congruence. }
  assert (Hredo : forall s,
             tblspc_redo env record s
             = create_tablespace_directories env location o s).
  { intros s. unfold tblspc_redo. rewrite Hinfo. reflexivity. }
  assert (Hh : forall h,
             same_outside V0 K0
               (<[K0 := FS.Symlink location]> (<[V0 := FS.Dir]> f0)) h ->
             (h !! K0 = Some FS.Dir -> FS.has_children h K0 = false) ->
             tblspc_redo env record
               (set_fs h
                  (set_fs (<[K0 := FS.Symlink location]>
                             (<[V0 := FS.Dir]> f0)) st))
             = (OK tt,
                set_fs (<[K0 := FS.Symlink location]> (<[V0 := FS.Dir]> f0))
                  st)).
  { intros h Hsame HhK. rewrite Hredo.
    rewrite (replay_made_run env location o f0 n0 V0 K0 Hwf Hloc HV0 HV0n
               HK0 HK0n h Hsame HhK (set_fs h _) Hrec eq_refl).
    destruct st; reflexivity. }
  split; [rewrite lookup_insert_ne by congruence; apply lookup_insert_eq|].
  split; [apply lookup_insert_eq|].
  split; [exact Hh|]. split.
  - rewrite <- (Hh (<[K0 := FS.Symlink location]> (<[V0 := FS.Dir]> f0))).
    + destruct st; reflexivity.
    + intros k _ _. reflexivity.
    + rewrite lookup_insert_eq. discriminate.
  - rewrite Hredo.
    apply (replay_clean_run env location o f0 n0 V0 K0 Hloc HV0 HV0n
             HK0 HK0n st Hrec eq_refl).
Qed.

Lemma create_replay_idempotent_witness :
  let record := mkXLogRecord XLOG_TBLSPC_CREATE 16384%N "/data/ts1" in
  let st' := (create_tablespace_directories env0 "/data/ts1" 16384%N
                (state_of fs_linked_fresh)).2 in
  let V := ["mnt"; "disk1"; "GPDB_6_db1"] in
  let K := ["pgdata"; "pg_tblspc"; "16384"] in
  well_formed fs_linked_fresh
  /\ create_tablespace_directories env0 "/data/ts1" 16384%N
       (state_of fs_linked_fresh) = (OK tt, st')
  /\ same_outside V K (fs st') fs_linked_in_use
  /\ tblspc_redo env_redo record (set_fs fs_linked_in_use st') = (OK tt, st')
  /\ tblspc_redo env_redo record st' = (OK tt, st')
  /\ tblspc_redo env_redo record (state_of fs_linked_fresh) = (OK tt, st').
Proof.
  intros record st' V K.
  assert (Hwf : well_formed fs_linked_fresh)
    by (apply well_formed_b_true; vm_compute; reflexivity).
  assert (Hrun : create_tablespace_directories env0 "/data/ts1" 16384%N
                   (state_of fs_linked_fresh) = (OK tt, st'))
    by (apply run_eq; vm_compute; reflexivity).
  assert (Hsame : same_outside V K (fs st') fs_linked_in_use)
    by (apply same_outside_b_true; vm_compute; reflexivity).
  destruct (create_replay_idempotent env_redo env0 record
              (state_of fs_linked_fresh) st' V K
              eq_refl eq_refl eq_refl eq_refl eq_refl Hwf Hrun)
    as (_ & _ & H1 & H2 & H3).
  - vm_compute. reflexivity.
  - vm_compute. reflexivity.
  - split; [exact Hwf|]. split; [exact Hrun|]. split; [exact Hsame|].
    split; [|split; [exact H2|exact H3]].
    apply H1; [exact Hsame|].
    intros H. vm_compute in H. discriminate.
Defined.

(** The condition on the link's place is needed: a directory that holds
    something there, which no create leaves, is not removed, and replay
    over an existing version directory then stops with an ERROR when its
    rmdir fails. *)
Lemma replay_stops_at_directory_for_link :
  ~ (forall env location o st,
        InRecovery env = true ->
        FS.lstat (fs st) (DataDir env)
          (Path.slash location (tablespace_version_directory env))
        = inr FS.Dir ->
        exists st',
          create_tablespace_directories env location o st = (OK tt, st')).
Proof.
  intros H.
  destruct (H env_redo "/data/ts1" 16384%N (state_of fs_directory_for_link))
    as (st' & Hrun).
  - reflexivity.
  - vm_compute. reflexivity.
  - apply (f_equal fst) in Hrun. vm_compute in Hrun. discriminate.
Qed.

(** ** Catalog rows: lookups, rename, drop *)

Lemma scan_by_name_Some name rows i r :
  scan_by_name name rows = Some (i, r) <->
  rows !! i = Some r /\ spcname r = name
  /\ forall j y, rows !! j = Some y -> j < i -> spcname y <> name.
Proof. unfold scan_by_name. rewrite list_find_Some. reflexivity. Qed.

Lemma scan_by_name_None name rows :
  scan_by_name name rows = None <->
  forall r, r ∈ rows -> spcname r <> name.
Proof.
  unfold scan_by_name. rewrite list_find_None, Forall_forall. reflexivity.
Qed.

Lemma scan_by_oid_Some o rows i r :
  scan_by_oid o rows = Some (i, r) <->
  rows !! i = Some r /\ oid r = o
  /\ forall j y, rows !! j = Some y -> j < i -> oid y <> o.
Proof. unfold scan_by_oid. rewrite list_find_Some. reflexivity. Qed.

(** With unique names a row is the one a scan for its name finds. *)
Lemma unique_names_scan rows i r :
  unique_names rows -> rows !! i = Some r ->
  scan_by_name (spcname r) rows = Some (i, r).
Proof.
  intros Hu Hi. apply scan_by_name_Some. split; [exact Hi|].
  split; [reflexivity|]. intros j y Hj Hlt E.
  assert (j = i); [|lia].
  apply (NoDup_lookup _ j i (spcname r) Hu).
  - rewrite list_lookup_fmap, Hj. simpl. congruence.
  - rewrite list_lookup_fmap, Hi. reflexivity.
Qed.

Lemma unique_oids_scan rows i r :
  unique_oids rows -> rows !! i = Some r ->
  scan_by_oid (oid r) rows = Some (i, r).
Proof.
  intros Hu Hi. apply scan_by_oid_Some. split; [exact Hi|].
  split; [reflexivity|]. intros j y Hj Hlt E.
  assert (j = i); [|lia].
  apply (NoDup_lookup _ j i (oid r) Hu).
  - rewrite list_lookup_fmap, Hj. simpl. congruence.
  - rewrite list_lookup_fmap, Hi. reflexivity.
Qed.

Lemma RenameTableSpace_run env oldname newname st t_self tup :
  scan_by_name oldname (catalog st) = Some (t_self, tup) ->
  pg_tablespace_ownercheck env (oid tup) (GetUserId env) = true ->
  allowSystemTableMods env = true \/ IsReservedName env newname = false ->
  scan_by_name newname (catalog st) = None ->
  RenameTableSpace env oldname newname st
  = (OK (oid tup), renamed env t_self tup newname st).
Proof.
  intros Hold Hown Hres Hnew. unfold RenameTableSpace, renamed.
  unfold bind at 1. unfold get at 1. cbv beta iota. rewrite Hold, Hnew.
  rewrite Hown. cbn [negb]. rewrite bind_when.
  assert (negb (allowSystemTableMods env) && IsReservedName env newname
          = false) as ->.
  { destruct Hres as [-> | ->]; [reflexivity|apply andb_false_r]. }
  rewrite bind_when, bind_ret.
  destruct (bool_decide (Gp_role env = GP_ROLE_DISPATCH)); reflexivity.
Qed.

Lemma RenameTableSpace_OK env oldname newname st o st' :
  RenameTableSpace env oldname newname st = (OK o, st') ->
  exists t_self tup,
    scan_by_name oldname (catalog st) = Some (t_self, tup)
    /\ pg_tablespace_ownercheck env (oid tup) (GetUserId env) = true
    /\ (allowSystemTableMods env = true \/ IsReservedName env newname = false)
    /\ scan_by_name newname (catalog st) = None
    /\ o = oid tup
    /\ st' = renamed env t_self tup newname st.
Proof.
  intros H0. pose proof H0 as H. unfold RenameTableSpace in H.
  unfold bind at 1 in H. unfold get at 1 in H. cbv beta iota in H.
  destruct (scan_by_name oldname (catalog st)) as [[t_self tup]|] eqn:Hold.
  2:{ rewrite bind_ereport_ERROR in H. discriminate. }
  rewrite bind_when in H.
  destruct (pg_tablespace_ownercheck env (oid tup) (GetUserId env)) eqn:Hown;
    cbn [negb] in H.
  2:{ unfold aclcheck_error in H. rewrite bind_ereport_ERROR in H.
      discriminate. }
  rewrite bind_when in H.
  destruct (negb (allowSystemTableMods env) && IsReservedName env newname)
    eqn:Hres.
  { rewrite bind_ereport_ERROR in H. discriminate. }
  destruct (scan_by_name newname (catalog st)) eqn:Hnew.
  { rewrite bind_ereport_ERROR in H. discriminate. }
  assert (Hres' : allowSystemTableMods env = true
                  \/ IsReservedName env newname = false).
  { destruct (allowSystemTableMods env); [left; reflexivity|right; exact Hres]. }
  exists t_self, tup.
  rewrite (RenameTableSpace_run env oldname newname st t_self tup
             Hold Hown Hres' Hnew) in H0.
  injection H0 as <- <-. repeat split; try assumption; reflexivity.
Qed.

Lemma renamed_fields env t_self tup newname st :
  catalog (renamed env t_self tup newname st)
  = <[t_self := namestrcpy_spcname tup newname]> (catalog st)
  /\ fs (renamed env t_self tup newname st) = fs st
  /\ log (renamed env t_self tup newname st) = log st
  /\ wal_records (calls (renamed env t_self tup newname st))
     = wal_records (calls st)
  /\ dispatches (calls (renamed env t_self tup newname st))
     = dispatches (calls st).
Proof.
  unfold renamed, wal_records, dispatches.
  destruct (bool_decide (Gp_role env = GP_ROLE_DISPATCH)); simpl;
    rewrite ?omap_app; simpl; rewrite ?app_nil_r; auto.
Qed.

Lemma fmap_insert_same {A B} (g : A -> B) (l : list A) i x y :
  l !! i = Some x -> g y = g x -> g <$> <[i := y]> l = g <$> l.
Proof.
  intros Hi Hg. rewrite list_fmap_insert, Hg.
  apply list_insert_id. rewrite list_lookup_fmap, Hi. reflexivity.
Qed.


(** X2: with unique names, a rename can be taken back: renaming to the
    old name, when that name is acceptable, succeeds with the same id and
    gives back the catalog as it was. *)
Theorem RenameTableSpace_and_back (env : Env) (oldname newname : string)
    (st st1 : State) (o : Oid) :
  unique_names (catalog st) ->
  allowSystemTableMods env = true \/ IsReservedName env oldname = false ->
  RenameTableSpace env oldname newname st = (OK o, st1) ->
  exists st2,
    RenameTableSpace env newname oldname st1 = (OK o, st2)
    /\ catalog st2 = catalog st /\ fs st2 = fs st /\ log st2 = log st.
Proof.
  intros Hu Hres H.
  apply RenameTableSpace_OK in H
    as (i & tup & Hold & Hown & _ & Hnew & -> & ->).
  destruct (renamed_fields env i tup newname st) as (Hc & Hf & Hl & _ & _).
  apply scan_by_name_Some in Hold as (Hi & Hname & Hfirst).
  pose proof (proj1 (scan_by_name_None _ _) Hnew) as Hfree.
  assert (Hlen : i < length (catalog st)) by (eapply lookup_lt_Some, Hi).
  set (tup' := namestrcpy_spcname tup newname).
  assert (Hfind : scan_by_name newname (catalog (renamed env i tup newname st))
                  = Some (i, tup')).
  { rewrite Hc. apply scan_by_name_Some. split.
    { apply list_lookup_insert_eq, Hlen. }
    split; [reflexivity|]. intros j y Hj Hlt E.
    rewrite list_lookup_insert_ne in Hj by lia.
    apply (Hfree y); [eapply list_elem_of_lookup_2, Hj|exact E]. }
  assert (Hgone : scan_by_name oldname (catalog (renamed env i tup newname st))
                  = None).
  { rewrite Hc. apply scan_by_name_None. intros r Hr E.
    apply list_elem_of_lookup in Hr as [j Hj].
    destruct (decide (j = i)) as [->|N].
    + rewrite list_lookup_insert_eq in Hj by exact Hlen.
      injection Hj as <-. simpl in E. subst newname.
      apply (Hfree tup); [eapply list_elem_of_lookup_2, Hi|exact Hname].
    + rewrite list_lookup_insert_ne in Hj by congruence.
      apply N. apply (NoDup_lookup _ j i oldname Hu).
      * rewrite list_lookup_fmap, Hj. simpl. congruence.
      * rewrite list_lookup_fmap, Hi. simpl. congruence. }
  eexists. split.
  { apply (RenameTableSpace_run env newname oldname _ i tup' Hfind);
      [exact Hown|exact Hres|exact Hgone]. }
  destruct (renamed_fields env i tup' oldname (renamed env i tup newname st))
    as (Hc2 & Hf2 & Hl2 & _ & _).
  rewrite Hc2, Hf2, Hl2, Hc, Hf, Hl. repeat split.
  rewrite list_insert_insert_eq. apply list_insert_id.
  rewrite Hi. f_equal. destruct tup; simpl in *. subst. reflexivity.
Qed.

Lemma RenameTableSpace_and_back_witness :
  exists st2,
    RenameTableSpace env0 "mine" "ts1"
      (RenameTableSpace env0 "ts1" "mine" (state_of fs_in_use)).2
    = (OK 16384%N, st2)
    /\ catalog st2 = catalog (state_of fs_in_use)
    /\ fs st2 = fs (state_of fs_in_use)
    /\ log st2 = log (state_of fs_in_use).
Proof.
  apply (RenameTableSpace_and_back env0 "ts1" "mine").
  - unfold unique_names. apply (bool_decide_unpack _). vm_compute. exact I.
  - right. reflexivity.
  - reflexivity.
Defined.


(** ** CreateTableSpace, step by step *)


Lemma when_ERROR_OK b code msg st a st' :
  when b (ereport ERROR code msg) st = (OK a, st') -> b = false /\ st' = st.
Proof. destruct b; simpl; intros H; inversion H; auto. Qed.

Lemma get_tablespace_oid_absent env name st o st' :
  get_tablespace_oid env name true st = (OK o, st') ->
  OidIsValid o = false ->
  st' = st
  /\ match scan_by_name name (catalog st) with
     | Some (_, tup) => oid tup = InvalidOid
     | None => True
     end.
Proof.
  rewrite get_tablespace_oid_missing_ok. intros H Hv.
  destruct (scan_by_name name (catalog st)) as [[i tup]|].
  - destruct (OidIsValid (oid tup)) eqn:Ht.
    + destruct (heap_lock_tuple env (oid tup)); inversion H; subst.
      congruence.
    + inversion H; subst. split; [reflexivity|].
      unfold OidIsValid in Ht. apply negb_false_iff, N.eqb_eq in Ht. exact Ht.
  - inversion H; auto.
Qed.

Lemma CreateTableSpace_OK env stmt st o st' :
  CreateTableSpace env stmt st = (OK o, st') ->
  exists owner options segment stB,
    o = nextOid st
    /\ segment_location env (create_options stmt) st = (OK segment, st)
    /\ Path.is_absolute_path (location_of env stmt segment) = true
    /\ match scan_by_name (create_tablespacename stmt) (catalog st) with
       | Some (_, tup) => oid tup = InvalidOid
       | None => True
       end
    /\ create_tablespace_directories env (location_of env stmt segment) o
         (row_inserted o owner (create_tablespacename stmt) options st)
       = (OK tt, stB)
    /\ st' = create_logged env stmt o (location_of env stmt segment) stB.
Proof.
  intros H. unfold CreateTableSpace in H.
  binv H as u0 s0 E0. apply when_ERROR_OK in E0 as [_ ->].
  binv H as owner s1 E1.
  assert (s1 = st) as ->.
  { destruct (create_owner stmt) as [name|].
    - destruct (get_role_oid env name).
      + inversion E1; reflexivity.
      + rewrite bind_ereport_ERROR in E1. discriminate.
    - inversion E1; reflexivity. }
  clear E1.
  binv H as segment s2 E2.
  pose proof (segment_location_state _ _ _ _ _ E2). subst s2.
  change (canonicalize_path env match segment with
                                | Some l => l
                                | None => create_location stmt
                                end)
    with (location_of env stmt segment) in H.
  binv H as u3 s3 E3. apply when_ERROR_OK in E3 as [_ ->].
  binv H as u4 s4 E4. apply when_ERROR_OK in E4 as [Habs ->].
  binv H as u5 s5 E5. apply when_ERROR_OK in E5 as [_ ->].
  binv H as u6 s6 E6. apply when_ERROR_OK in E6 as [_ ->].
  binv H as existing s7 E7.
  binv H as u8 s8 E8. apply when_ERROR_OK in E8 as [Hinv ->].
  apply get_tablespace_oid_absent in E7 as [-> Hscan]; [|exact Hinv].
  binv H as options s9 E9.
  assert (s9 = st) as ->.
  { destruct (tablespace_reloptions env (create_options stmt));
      inversion E9; reflexivity. }
  clear E9.
  binv H as o' s10 E10. unfold simple_heap_insert in E10.
  injection E10 as <- <-.
  binv H as u11 s11 E11. rewrite call_run in E11. injection E11 as _ <-.
  binv H as u12 s12 E12. rewrite call_run in E12. injection E12 as _ <-.
  binv H as u13 stB E13. destruct u13.
  binv H as u14 s14 E14. rewrite call_run in E14. injection E14 as _ <-.
  binv H as u15 s15 E15. rewrite call_run in E15. injection E15 as _ <-.
  binv H as u16 s16 E16.
  exists owner, options, segment, stB.
  apply negb_false_iff in Habs.
  injection H as <- <-.
  repeat split; try assumption.
  unfold create_logged.
  destruct (bool_decide (Gp_role env = GP_ROLE_DISPATCH)); simpl in E16.
  - rewrite bind_run with (1 := call_run _ _) in E16. rewrite call_run in E16.
    injection E16 as _ <-. reflexivity.
  - injection E16 as _ <-. reflexivity.
Qed.

Lemma get_tablespace_oid_found env name missing_ok st t_self tup :
  scan_by_name name (catalog st) = Some (t_self, tup) ->
  OidIsValid (oid tup) = true ->
  heap_lock_tuple env (oid tup) = HeapTupleMayBeUpdated ->
  get_tablespace_oid env name missing_ok st
  = (OK (oid tup), add_call (heap_lock_tuple_KeyShare (oid tup)) st).
Proof.
  intros Hscan Hv Hlock. unfold get_tablespace_oid.
  unfold bind at 1. unfold get at 1. cbv beta iota. rewrite Hscan.
  cbv beta iota. rewrite Hv, Hlock. cbn [negb andb when].
  unfold bind, call, modify, ret. reflexivity.
Qed.

Lemma get_tablespace_oid_missing env name st :
  scan_by_name name (catalog st) = None ->
  get_tablespace_oid env name false st
  = (RAISE (mkError ERROR ERRCODE_UNDEFINED_OBJECT
              ("tablespace " +:+ name +:+ " does not exist")), st).
Proof.
  intros Hscan. unfold get_tablespace_oid.
  unfold bind at 1. unfold get at 1. cbv beta iota. rewrite Hscan.
  reflexivity.
Qed.

Lemma catalog_create_logged env stmt o location st :
  catalog (create_logged env stmt o location st) = catalog st
  /\ fs (create_logged env stmt o location st) = fs st
  /\ log (create_logged env stmt o location st) = log st.
Proof.
  unfold create_logged.
  destruct (bool_decide (Gp_role env = GP_ROLE_DISPATCH)); auto.
Qed.

(** X3: the row CreateTableSpace inserts is found again.  When the rows
    already there bear valid ids other than the one the OID counter gives
    next, a successful call returns that id, appends one row with the
    statement's name, and afterwards the id leads to the name, the name to
    the id, and every other name to what it led to before. *)
Theorem CreateTableSpace_then_lookup (env : Env) (stmt : CreateTableSpaceStmt)
    (st st' : State) (o : Oid) :
  CreateTableSpace env stmt st = (OK o, st') ->
  (forall r, r ∈ catalog st -> oid r <> InvalidOid /\ oid r <> nextOid st) ->
  nextOid st <> InvalidOid ->
  o = nextOid st
  /\ (exists owner options,
        catalog st'
        = catalog st ++ [mkRow o (create_tablespacename stmt) owner options])
  /\ get_tablespace_name o st' = (OK (Some (create_tablespacename stmt)), st')
  /\ (heap_lock_tuple env o = HeapTupleMayBeUpdated ->
      forall missing_ok,
        get_tablespace_oid env (create_tablespacename stmt) missing_ok st'
        = (OK o, add_call (heap_lock_tuple_KeyShare o) st'))
  /\ (forall name, name <> create_tablespacename stmt ->
                   scan_by_name name (catalog st')
                   = scan_by_name name (catalog st)).
Proof.
  intros H Hrows Hnext.
  apply CreateTableSpace_OK in H
    as (owner & options & segment & stB & -> & _ & _ & Hscan & Hdirs & ->).
  destruct (catalog_create_logged env stmt (nextOid st)
              (location_of env stmt segment) stB) as (Hc & _ & _).
  assert (HcB : catalog stB
                = catalog st ++ [mkRow (nextOid st) (create_tablespacename stmt)
                                   owner options]).
  { destruct (fs_only_create _ _ _ _ _ _ Hdirs) as (-> & _). reflexivity. }
  set (row := mkRow (nextOid st) (create_tablespacename stmt) owner options)
    in *.
  assert (Hno : forall r, r ∈ catalog st ->
                          spcname r <> create_tablespacename stmt).
  { intros r Hr E.
    destruct (scan_by_name (create_tablespacename stmt) (catalog st))
      as [[i tup]|] eqn:Hs.
    - apply scan_by_name_Some in Hs as (Hi & _ & _).
      apply list_elem_of_lookup_2 in Hi. apply Hrows in Hi as [Hi _].
      contradiction.
    - apply (proj1 (scan_by_name_None _ _) Hs r Hr E). }
  assert (Hfind : scan_by_name (create_tablespacename stmt)
                    (catalog st ++ [row])
                  = Some (length (catalog st), row)).
  { apply scan_by_name_Some. split; [|split; [reflexivity|]].
    - rewrite lookup_app_r by lia. rewrite Nat.sub_diag. reflexivity.
    - intros j y Hj Hlt. rewrite lookup_app_l in Hj by exact Hlt.
      apply Hno. eapply list_elem_of_lookup_2, Hj. }
  split; [reflexivity|]. split; [exists owner, options; rewrite Hc; exact HcB|].
  split; [|split].
  - unfold get_tablespace_name, bind, get, ret. rewrite Hc, HcB.
    assert (scan_by_oid (nextOid st) (catalog st ++ [row])
            = Some (length (catalog st), row)) as ->; [|reflexivity].
    apply scan_by_oid_Some. split; [|split; [reflexivity|]].
    + rewrite lookup_app_r by lia. rewrite Nat.sub_diag. reflexivity.
    + intros j y Hj Hlt. rewrite lookup_app_l in Hj by exact Hlt.
      apply Hrows. eapply list_elem_of_lookup_2, Hj.
  - intros Hlock missing_ok.
    apply (get_tablespace_oid_found env _ missing_ok _ (length (catalog st))
             row).
    + rewrite Hc, HcB. exact Hfind.
    + unfold OidIsValid. apply negb_true_iff, N.eqb_neq. exact Hnext.
    + exact Hlock.
  - intros name Hname. rewrite Hc, HcB. unfold scan_by_name.
    destruct (list_find (fun r => spcname r = name) (catalog st))
      as [[i r]|] eqn:Hs.
    + apply list_find_app_Some. left. exact Hs.
    + apply list_find_app_None. split; [exact Hs|].
      apply list_find_None. constructor; [|constructor].
      simpl. congruence.
Qed.

Lemma CreateTableSpace_then_lookup_witness :
  let stmt := mkCreateStmt "ts3" None "/data/ts1" [] in
  let st' := (CreateTableSpace env0 stmt (state_of fs_fresh)).2 in
  CreateTableSpace env0 stmt (state_of fs_fresh) = (OK 16386%N, st')
  /\ get_tablespace_name 16386%N st' = (OK (Some "ts3"), st')
  /\ get_tablespace_oid env0 "ts3" false st'
     = (OK 16386%N, add_call (heap_lock_tuple_KeyShare 16386%N) st').
Proof.
  intros stmt st'.
  assert (Hrun : CreateTableSpace env0 stmt (state_of fs_fresh)
                 = (OK 16386%N, st'))
    by exact (run_eq (CreateTableSpace env0 stmt (state_of fs_fresh))
                (OK 16386%N) ltac:(vm_compute; reflexivity)).
  assert (Hrows : forall r, r ∈ catalog (state_of fs_fresh) ->
                            oid r <> InvalidOid
                            /\ oid r <> nextOid (state_of fs_fresh)).
  { intros r Hr. apply (bool_decide_unpack _).
    revert r Hr. apply Forall_forall. apply (bool_decide_unpack _).
    vm_compute. exact I. }
  destruct (CreateTableSpace_then_lookup env0 stmt (state_of fs_fresh) st'
              16386%N Hrun Hrows ltac:(discriminate))
    as (_ & _ & H1 & H2 & _).
  split; [exact Hrun|]. split; [exact H1|]. apply H2. reflexivity.
Defined.

Lemma list_find_delete_other {A} (P : A -> Prop) `{!forall x, Decision (P x)}
    (l : list A) :
  forall i x, l !! i = Some x -> ~ P x ->
              snd <$> list_find P (delete i l) = snd <$> list_find P l.
Proof.
  induction l as [|y l IH]; intros i x Hi Hx; [discriminate|].
  destruct i as [|i]; simpl in *.
  - injection Hi as ->. rewrite decide_False by exact Hx.
    rewrite <- option_fmap_compose. destruct (list_find P l) as [[j z]|];
      reflexivity.
  - destruct (decide (P y)); [reflexivity|].
    rewrite <- !option_fmap_compose.
    specialize (IH i x Hi Hx).
    destruct (list_find P (delete i l)) as [[j z]|],
             (list_find P l) as [[j' z']|]; simpl in *; congruence.
Qed.

Lemma unique_names_delete rows i :
  unique_names rows -> unique_names (delete i rows).
Proof.
  unfold unique_names. rewrite list_fmap_delete.
  intros H. exact (sublist_NoDup _ _ H (sublist_delete _ _)).
Qed.

Lemma unique_names_delete_scan rows i r :
  unique_names rows -> rows !! i = Some r ->
  scan_by_name (spcname r) (delete i rows) = None.
Proof.
  intros Hu Hi. apply scan_by_name_None. intros y Hy E.
  unfold unique_names in Hu.
  rewrite <- (take_drop_middle rows i r Hi) in Hu.
  rewrite fmap_app, fmap_cons in Hu.
  apply NoDup_app in Hu as (_ & Hleft & Hright).
  apply NoDup_cons in Hright as [Hright _].
  rewrite delete_take_drop in Hy. apply elem_of_app in Hy as [Hy|Hy].
  - apply (Hleft (spcname r)).
    + rewrite <- E. apply list_elem_of_fmap. eauto.
    + left.
  - apply Hright. rewrite <- E. apply list_elem_of_fmap. eauto.
Qed.

Lemma DropTableSpace_finish_run env stmt o st :
  exists st',
    DropTableSpace_finish env stmt o st = (OK tt, st')
    /\ catalog st' = catalog st /\ fs st' = fs st /\ log st' = log st
    /\ wal_records (calls st')
       = wal_records (calls st) ++ [mkXLogRecord XLOG_TBLSPC_DROP o ""]
    /\ calls st'
       = calls st
         ++ [XLogInsert (mkXLogRecord XLOG_TBLSPC_DROP o ""); ForceSyncCommit;
             LWLockRelease_TablespaceCreateLock]
         ++ (if bool_decide (Gp_role env = GP_ROLE_DISPATCH)
             then [CdbDispatchUtilityStatement (T_DropTableSpaceStmt stmt)
                     [DF_CANCEL_ON_ERROR; DF_WITH_SNAPSHOT; DF_NEED_TWO_PHASE]]
             else []).
Proof.
  unfold DropTableSpace_finish, wal_records.
  destruct (bool_decide (Gp_role env = GP_ROLE_DISPATCH)); eexists;
    (split; [reflexivity|]); simpl; rewrite <- ?app_assoc; simpl;
    rewrite ?omap_app; simpl; rewrite ?app_nil_r; auto.
Qed.

(** X4: with unique names, a successful DropTableSpace of an existing
    tablespace deletes exactly its row: the name is then free, every other
    name leads to the row it led to before, and names stay unique. *)
Theorem DropTableSpace_removes_the_row (env : Env) (stmt : DropTableSpaceStmt)
    (st st' : State) (t_self : nat) (tup : pg_tablespace) :
  unique_names (catalog st) ->
  scan_by_name (drop_tablespacename stmt) (catalog st) = Some (t_self, tup) ->
  DropTableSpace env stmt st = (OK tt, st') ->
  catalog st' = delete t_self (catalog st)
  /\ scan_by_name (drop_tablespacename stmt) (catalog st') = None
  /\ (forall name, name <> drop_tablespacename stmt ->
                   snd <$> scan_by_name name (catalog st')
                   = snd <$> scan_by_name name (catalog st))
  /\ unique_names (catalog st').
Proof.
  intros Hu Hscan H. unfold DropTableSpace in H.
  binv H as found s1 E1.
  apply DropTableSpace_catalog_OK in E1
    as [(_ & Hnone & _)
       |(i & tuple & Hs & -> & _ & _ & _ & Hc1 & _)]; [congruence|].
  rewrite Hscan in Hs. injection Hs as <- <-.
  binv H as u2 s2 E2.
  apply DropTableSpace_directories_calls in E2 as (Hc2 & _).
  destruct (DropTableSpace_finish_run env stmt (oid tup) s2)
    as (s3 & Hrun & Hc3 & _).
  rewrite Hrun in H. injection H as <-.
  assert (Hc : catalog s3 = delete t_self (catalog st)) by congruence.
  apply scan_by_name_Some in Hscan as (Hi & Hname & _).
  rewrite Hc. split; [reflexivity|]. split; [|split].
  - rewrite <- Hname. apply unique_names_delete_scan; assumption.
  - intros name Hne. unfold scan_by_name.
    apply (list_find_delete_other _ _ _ tup Hi). congruence.
  - apply unique_names_delete, Hu.
Qed.

Lemma DropTableSpace_removes_the_row_witness :
  let st' := (DropTableSpace env0 (mkDropStmt "ts1" false)
                (state_of fs_idle)).2 in
  catalog st' = [row_pg_default; row_pg_global; row_ts2]
  /\ scan_by_name "ts1" (catalog st') = None.
Proof.
  intros st'.
  destruct (DropTableSpace_removes_the_row env0 (mkDropStmt "ts1" false)
              (state_of fs_idle) st' 2 row_ts1)
    as (H1 & H2 & _).
  - unfold unique_names. apply (bool_decide_unpack _). vm_compute. exact I.
  - reflexivity.
  - exact (run_eq (DropTableSpace env0 (mkDropStmt "ts1" false)
                     (state_of fs_idle)) (OK tt)
             ltac:(vm_compute; reflexivity)).
  - split; [exact H1|exact H2].
Defined.

Lemma get_tablespace_oid_OK_valid env name missing_ok st o st' :
  get_tablespace_oid env name missing_ok st = (OK o, st') ->
  OidIsValid o = true ->
  exists t_self tup,
    scan_by_name name (catalog st) = Some (t_self, tup)
    /\ oid tup = o
    /\ st' = add_call (heap_lock_tuple_KeyShare o) st.
Proof.
  unfold get_tablespace_oid.
  unfold bind at 1. unfold get at 1. cbv beta iota.
  destruct (scan_by_name name (catalog st)) as [[i tup]|].
  - intros H Hv. exists i, tup. split; [reflexivity|].
    rewrite bind_when in H.
    destruct (OidIsValid (oid tup)) eqn:Ht.
    + rewrite bind_bind, (bind_run _ _ _ _ _ (call_run _ _)) in H.
      destruct (heap_lock_tuple env (oid tup));
        try (rewrite bind_ereport_ERROR in H; discriminate).
      rewrite bind_ret in H. cbn [negb andb when] in H.
      rewrite bind_ret in H. injection H as <- <-. auto.
    + cbn [negb andb] in H. rewrite bind_when in H.
      destruct missing_ok; cbn [negb] in H.
      * injection H as <- <-. congruence.
      * rewrite bind_ereport_ERROR in H. discriminate.
  - intros H Hv. rewrite bind_when in H.
    change (OidIsValid InvalidOid) with false in H.
    cbn [negb andb] in H. rewrite bind_when in H.
    destruct missing_ok; cbn [negb] in H.
    + injection H as <- <-. discriminate.
    + rewrite bind_ereport_ERROR in H. discriminate.
Qed.

(** X5: on a catalog with unique names and unique ids the two lookups
    are inverse to each other: the id that get_tablespace_oid returns for
    a name leads get_tablespace_name back to that name, and the name that
    get_tablespace_name returns for a valid id leads get_tablespace_oid,
    once the row lock is granted, back to that id. *)
Theorem get_tablespace_oid_and_name_inverse (env : Env) (st : State)
    (name : string) (o : Oid) :
  unique_names (catalog st) ->
  unique_oids (catalog st) ->
  OidIsValid o = true ->
  (forall missing_ok st',
      get_tablespace_oid env name missing_ok st = (OK o, st') ->
      get_tablespace_name o st' = (OK (Some name), st'))
  /\ (forall missing_ok,
        get_tablespace_name o st = (OK (Some name), st) ->
        heap_lock_tuple env o = HeapTupleMayBeUpdated ->
        get_tablespace_oid env name missing_ok st
        = (OK o, add_call (heap_lock_tuple_KeyShare o) st)).
Proof.
  intros Hn Ho Hv. split.
  - intros missing_ok st' H.
    apply get_tablespace_oid_OK_valid in H as (i & tup & Hs & <- & ->);
      [|exact Hv].
    apply scan_by_name_Some in Hs as (Hi & <- & _).
    unfold get_tablespace_name, bind, get, ret. simpl.
    rewrite (unique_oids_scan _ _ _ Ho Hi). reflexivity.
  - intros missing_ok H Hlock.
    unfold get_tablespace_name, bind, get, ret in H.
    destruct (scan_by_oid o (catalog st)) as [[i tup]|] eqn:Hs;
      [|discriminate].
    simpl in H. injection H as <-.
    apply scan_by_oid_Some in Hs as (Hi & <- & _).
    apply (get_tablespace_oid_found env _ missing_ok st i tup).
    + apply unique_names_scan; assumption.
    + exact Hv.
    + exact Hlock.
Qed.

Lemma get_tablespace_oid_and_name_inverse_witness :
  get_tablespace_name 16384%N
    (get_tablespace_oid env0 "ts1" false (state_of fs_in_use)).2
  = (OK (Some "ts1"),
     (get_tablespace_oid env0 "ts1" false (state_of fs_in_use)).2)
  /\ get_tablespace_oid env0 "ts2" true (state_of fs_in_use)
     = (OK 16385%N,
        add_call (heap_lock_tuple_KeyShare 16385%N) (state_of fs_in_use)).
Proof.
  assert (Hn : unique_names (catalog (state_of fs_in_use))).
  { unfold unique_names. apply (bool_decide_unpack _). vm_compute. exact I. }
  assert (Ho : unique_oids (catalog (state_of fs_in_use))).
  { unfold unique_oids. apply (bool_decide_unpack _). vm_compute. exact I. }
  split.
  - apply (proj1 (get_tablespace_oid_and_name_inverse env0
                    (state_of fs_in_use) "ts1" 16384%N Hn Ho eq_refl) false).
    reflexivity.
  - apply (proj2 (get_tablespace_oid_and_name_inverse env0
                    (state_of fs_in_use) "ts2" 16385%N Hn Ho eq_refl) true);
      reflexivity.
Defined.

(** ** The WAL records a command writes *)

Abbreviation no_wal := (preserves (fun st => wal_records (calls st))).

Lemma wal_records_app cs1 cs2 :
  wal_records (cs1 ++ cs2) = wal_records cs1 ++ wal_records cs2.
Proof. apply omap_app. Qed.

Lemma wal_records_add_call c st :
  match c with XLogInsert _ => False | _ => True end ->
  wal_records (calls (add_call c st)) = wal_records (calls st).
Proof.
  intros Hc. simpl. rewrite wal_records_app.
  destruct c; simpl; try apply app_nil_r. contradiction.
Qed.














(** ** ALTER TABLESPACE ... SET / RESET *)

(** X7: AlterTableSpaceOptions replaces the options of the row it finds by
    what transformRelOptions makes of them, and changes nothing else: the
    ids, names and owners of all rows, the files and the log stay, no WAL
    record is written and nothing is dispatched.  A call that fails leaves
    the state as it was: with an undefined-object error for a missing
    name, a privilege error when the caller does not own the tablespace,
    and otherwise the error transformRelOptions reports. *)
Theorem AlterTableSpaceOptions_changes_the_options_only (env : Env)
    (transformRelOptions : option (list string) -> list DefElem -> bool
                           -> ErrorData + option (list string))
    (stmt : AlterTableSpaceOptionsStmt) (st st' : State) (r : Result Oid) :
  AlterTableSpaceOptions env transformRelOptions stmt st = (r, st') ->
  match r with
  | OK o =>
      exists t_self tup newOptions,
        scan_by_name (alter_tablespacename stmt) (catalog st)
        = Some (t_self, tup)
        /\ o = oid tup
        /\ transformRelOptions (spcoptions tup) (alter_options stmt)
             (isReset stmt) = inr newOptions
        /\ catalog st'
           = <[t_self := heap_modify_tuple_spcoptions tup newOptions]>
               (catalog st)
        /\ oid <$> catalog st' = oid <$> catalog st
        /\ spcname <$> catalog st' = spcname <$> catalog st
        /\ spcowner <$> catalog st' = spcowner <$> catalog st
        /\ fs st' = fs st /\ log st' = log st
        /\ wal_records (calls st') = wal_records (calls st)
        /\ dispatches (calls st') = dispatches (calls st)
  | RAISE e =>
      st' = st
      /\ match scan_by_name (alter_tablespacename stmt) (catalog st) with
         | None =>
             err_level e = ERROR /\ sqlerrcode e = ERRCODE_UNDEFINED_OBJECT
         | Some (_, tup) =>
             if pg_tablespace_ownercheck env (oid tup) (GetUserId env)
             then transformRelOptions (spcoptions tup) (alter_options stmt)
                    (isReset stmt) = inl e
             else err_level e = ERROR
                  /\ sqlerrcode e = ERRCODE_INSUFFICIENT_PRIVILEGE
         end
  end.
Proof.
  unfold AlterTableSpaceOptions.
  unfold bind at 1. unfold get at 1. cbv beta iota.
  destruct (scan_by_name (alter_tablespacename stmt) (catalog st))
    as [[i tup]|] eqn:Hscan.
  2:{ rewrite bind_ereport_ERROR. intros H. injection H as <- <-. auto. }
  rewrite bind_when.
  destruct (pg_tablespace_ownercheck env (oid tup) (GetUserId env));
    cbn [negb].
  2:{ unfold aclcheck_error. rewrite bind_ereport_ERROR.
      intros H. injection H as <- <-. auto. }
  destruct (transformRelOptions (spcoptions tup) (alter_options stmt)
              (isReset stmt)) as [e|newOptions] eqn:Htro.
  { unfold bind at 1. intros H. injection H as <- <-.
    split; reflexivity. }
  rewrite bind_ret. unfold bind, simple_heap_update, call, modify, ret.
  intros H. injection H as <- <-.
  apply scan_by_name_Some in Hscan as (Hi & Hname & _).
  exists i, tup, newOptions. cbn [catalog fs log calls].
  repeat split;
    try (apply (fmap_insert_same _ _ _ _ _ Hi); reflexivity).
  - exact Htro.
  - rewrite wal_records_add_call by exact I. reflexivity.
  - rewrite dispatches_add_call by exact I. reflexivity.
Qed.

Lemma AlterTableSpaceOptions_changes_the_options_only_witness :
  let tro := fun (old : option (list string)) (l : list DefElem)
                 (reset : bool) =>
               @inr ErrorData _
                 (Some ((fun d => defname d +:+ "=" +:+ arg d) <$> l)) in
  let stmt := mkOptionsStmt "ts1" [mkDefElem "random_page_cost" "2"] false in
  let st' := (AlterTableSpaceOptions env0 tro stmt (state_of fs_in_use)).2 in
  AlterTableSpaceOptions env0 tro stmt (state_of fs_in_use)
  = (OK 16384%N, st')
  /\ catalog st'
     = [row_pg_default; row_pg_global;
        mkRow 16384%N "ts1" 10%N (Some ["random_page_cost=2"]); row_ts2]
  /\ fs st' = fs (state_of fs_in_use).
Proof.
  intros tro stmt st'.
  assert (Hrun : AlterTableSpaceOptions env0 tro stmt (state_of fs_in_use)
                 = (OK 16384%N, st')) by reflexivity.
  split; [exact Hrun|].
  destruct (AlterTableSpaceOptions_changes_the_options_only env0 tro stmt
              (state_of fs_in_use) st' (OK 16384%N) Hrun)
    as (i & tup & newOptions & Hscan & _ & Htro & Hc & _ & _ & _ & Hf & _).
  split; [|exact Hf].
  injection Hscan as <- <-. injection Htro as <-. exact Hc.
Defined.

(** ** Per-database directories *)

Lemma mkdir_sub g cwd path g' :
  FS.mkdir g cwd path = inr g' ->
  g ⊆ g' /\ FS.stat g' cwd path = inr FS.Dir.
Proof.
  unfold FS.mkdir, FS.stat.
  destruct (FS.resolve g cwd path false) as [e|p] eqn:Hp; [discriminate|].
  destruct (FS.node_at g p) eqn:Hn; [discriminate|].
  intros H. injection H as <-.
  assert (Hne : p <> []) by (intros ->; discriminate).
  rewrite node_at_ne in Hn by exact Hne.
  assert (Hsub : g ⊆ <[p := FS.Dir]> g) by (apply insert_subseteq, Hn).
  split; [exact Hsub|].
  assert (Hres : FS.resolve (<[p := FS.Dir]> g) cwd path false = inr p).
  { apply (resolve_mono g _ _ _ _ _ Hsub Hp). discriminate. }
  rewrite (resolve_follow _ _ _ _ Hres)
    by (intros tgt; rewrite lookup_insert_eq; discriminate).
  rewrite node_at_ne by exact Hne. rewrite lookup_insert_eq. reflexivity.
Qed.

(** What [mkdir] leaves of a state: all but the tree, which holds what it
    held. *)
Lemma mkdir_grows env path st r st1 :
  mkdir env path st = (OK r, st1) ->
  catalog st1 = catalog st /\ log st1 = log st /\ calls st1 = calls st
  /\ fs st ⊆ fs st1
  /\ (r = None -> FS.stat (fs st1) (DataDir env) path = inr FS.Dir).
Proof.
  unfold mkdir, sys.
  destruct (FS.mkdir (fs st) (DataDir env) path) as [e|g'] eqn:Hm;
    intros H; injection H as <- <-.
  - repeat split; [reflexivity|discriminate].
  - apply mkdir_sub in Hm as [Hsub Hstat]. repeat split; auto.
Qed.

Lemma mkdir_parent_checked path (r1 : option FS.Errno) st u st1 :
  match r1 with
  | Some e2 =>
      when (negb (bool_decide (e2 = FS.EEXIST)))
        (ereport ERROR (errcode_for_file_access e2)
           ("could not create directory " +:+ path))
  | None => ret tt
  end st = (OK u, st1) ->
  st1 = st.
Proof.
  destruct r1 as [e2|]; intros H.
  - apply when_ERROR_OK in H as [_ ->]. reflexivity.
  - injection H as _ <-. reflexivity.
Qed.

(** X8: when TablespaceCreateDbspace returns, the directory of the
    database in the tablespace is there, so that calling it again, in
    replay or not, changes nothing and takes no lock.  The call itself
    removes nothing from the tree, writes no log, leaves the catalog
    alone, and has released TablespaceCreateLock if it took it. *)
Theorem TablespaceCreateDbspace_then_exists (env : Env) (spcNode dbNode : Oid)
    (isRedo : bool) (st st' : State) :
  TablespaceCreateDbspace env spcNode dbNode isRedo st = (OK tt, st') ->
  catalog st' = catalog st /\ log st' = log st
  /\ fs st ⊆ fs st'
  /\ (calls st' = calls st
      \/ calls st' = calls st ++ [LWLockAcquire_TablespaceCreateLock;
                                  LWLockRelease_TablespaceCreateLock])
  /\ (spcNode <> GLOBALTABLESPACE_OID env ->
      FS.stat (fs st') (DataDir env) (GetDatabasePath env dbNode spcNode)
      = inr FS.Dir)
  /\ (forall isRedo',
         TablespaceCreateDbspace env spcNode dbNode isRedo' st'
         = (OK tt, st')).
Proof.
  intros H.
  assert (Hagain : FS.stat (fs st') (DataDir env)
                     (GetDatabasePath env dbNode spcNode) = inr FS.Dir ->
                   forall isRedo',
                     TablespaceCreateDbspace env spcNode dbNode isRedo' st'
                     = (OK tt, st')).
  { intros Hs isRedo'. unfold TablespaceCreateDbspace.
    destruct (spcNode =? GLOBALTABLESPACE_OID env)%N; [reflexivity|].
    unfold bind, stat. rewrite Hs. reflexivity. }
  unfold TablespaceCreateDbspace in H.
  destruct (spcNode =? GLOBALTABLESPACE_OID env)%N eqn:Hg.
  { injection H as <-. apply N.eqb_eq in Hg.
    repeat split; auto; [contradiction|].
    intros isRedo'. unfold TablespaceCreateDbspace.
    rewrite (proj2 (N.eqb_eq _ _) Hg). reflexivity. }
  set (dir := GetDatabasePath env dbNode spcNode) in *.
  binv H as r0 s0 E0. unfold stat in E0. injection E0 as <- <-.
  destruct (FS.stat (fs st) (DataDir env) dir) as [e|n] eqn:Hstat.
  2:{ destruct n; cbn [FS.is_dir negb] in H;
        try (rewrite ?bind_ereport_ERROR in H; discriminate).
      injection H as <-. repeat split; auto. }
  destruct (bool_decide (e = FS.ENOENT)) eqn:He;
    [|discriminate].
  binv H as u1 s1 E1. rewrite call_run in E1. injection E1 as _ <-.
  binv H as u2 s2 E2.
  rewrite call_run in H. injection H as <-.
  assert (Hs2 : catalog s2 = catalog st /\ log s2 = log st
                /\ calls s2 = calls st ++ [LWLockAcquire_TablespaceCreateLock]
                /\ fs st ⊆ fs s2
                /\ FS.stat (fs s2) (DataDir env) dir = inr FS.Dir).
  { binv E2 as r3 s3 E3. unfold stat in E3. injection E3 as <- <-.
    cbn [fs add_call] in E2. rewrite Hstat in E2. cbn [S_ISDIR] in E2.
    binv E2 as r4 s4 E4.
    apply mkdir_grows in E4 as (Hc4 & Hl4 & Hk4 & Hf4 & Hd4).
    destruct r4 as [e1|].
    2:{ injection E2 as _ <-. cbn [catalog log calls fs add_call] in *.
        repeat split; auto. }
    destruct (negb (bool_decide (e1 = FS.ENOENT)) || negb isRedo);
      [discriminate|].
    binv E2 as r5 s5 E5.
    apply mkdir_grows in E5 as (Hc5 & Hl5 & Hk5 & Hf5 & _).
    binv E2 as u5 s5' E5'. apply mkdir_parent_checked in E5'. subst s5'.
    binv E2 as r6 s6 E6.
    apply mkdir_grows in E6 as (Hc6 & Hl6 & Hk6 & Hf6 & _).
    binv E2 as u6 s6' E6'. apply mkdir_parent_checked in E6'. subst s6'.
    binv E2 as r7 s7 E7.
    apply mkdir_grows in E7 as (Hc7 & Hl7 & Hk7 & Hf7 & Hd7).
    destruct r7 as [e3|]; [discriminate|].
    injection E2 as _ <-.
    cbn [catalog log calls fs add_call] in *.
    split; [congruence|]. split; [congruence|]. split; [congruence|].
    split; [|apply Hd7; reflexivity].
    etransitivity; [exact Hf4|]. etransitivity; [exact Hf5|].
    etransitivity; [exact Hf6|exact Hf7]. }
  destruct Hs2 as (Hc & Hl & Hk & Hf & Hd).
  cbn [catalog log fs calls add_call] in *.
  split; [exact Hc|]. split; [exact Hl|]. split; [exact Hf|].
  split; [right; rewrite Hk, <- app_assoc; reflexivity|].
  split; [intros _; exact Hd|apply (Hagain Hd)].
Qed.

Lemma TablespaceCreateDbspace_then_exists_witness :
  let st' := (TablespaceCreateDbspace env0 16384%N 5%N false
                (state_of fs_in_use)).2 in
  TablespaceCreateDbspace env0 16384%N 5%N false (state_of fs_in_use)
  = (OK tt, st')
  /\ FS.stat (fs (state_of fs_in_use)) (DataDir env0)
       (GetDatabasePath env0 5%N 16384%N) = inl FS.ENOENT
  /\ FS.stat (fs st') (DataDir env0) (GetDatabasePath env0 5%N 16384%N)
     = inr FS.Dir
  /\ TablespaceCreateDbspace env0 16384%N 5%N true st' = (OK tt, st').
Proof.
  intros st'.
  assert (Hrun : TablespaceCreateDbspace env0 16384%N 5%N false
                   (state_of fs_in_use) = (OK tt, st'))
    by exact (run_eq (TablespaceCreateDbspace env0 16384%N 5%N false
                        (state_of fs_in_use)) (OK tt)
                ltac:(vm_compute; reflexivity)).
  destruct (TablespaceCreateDbspace_then_exists env0 16384%N 5%N false
              (state_of fs_in_use) st' Hrun)
    as (_ & _ & _ & _ & Hd & Hagain).
  split; [exact Hrun|]. split; [vm_compute; reflexivity|].
  split; [apply Hd; discriminate|apply Hagain].
Defined.

(** ** The setting temp_tablespaces *)

Lemma bind_ext {A B} (m : M A) (k1 k2 : A -> M B) st :
  (forall a s, k1 a s = k2 a s) -> bind m k1 st = bind m k2 st.
Proof.
  intros Hk. unfold bind. destruct (m st) as [[a|e] s]; [apply Hk|reflexivity].
Qed.

(** For a source that is neither interactive nor a test the loop of the
    check hook is the loop of PrepareTempTablespaces. *)
Lemma check_temp_tablespaces_loop_quiet env guc source names :
  (source <=? PGC_S_TEST guc)%Z = true ->
  (source =? PGC_S_TEST guc)%Z = false ->
  (PGC_S_INTERACTIVE guc <=? source)%Z = false ->
  forall tblSpcs numSpcs st,
    check_temp_tablespaces_loop env guc source names tblSpcs numSpcs st
    = PrepareTempTablespaces_loop env names tblSpcs numSpcs st.
Proof.
  intros Hle Hne Hni.
  induction names as [|curname rest IH]; intros tblSpcs numSpcs st;
    [reflexivity|].
  cbn [check_temp_tablespaces_loop PrepareTempTablespaces_loop].
  rewrite Hle, Hne, Hni.
  destruct (bool_decide (curname = "")); [apply IH|].
  apply bind_ext. intros curoid s.
  destruct (curoid =? InvalidOid)%N; [cbn [when]; rewrite bind_ret; apply IH|].
  destruct (curoid =? MyDatabaseTableSpace env)%N; [apply IH|].
  destruct (negb (bool_decide
                    (pg_tablespace_aclcheck_CREATE env curoid (GetUserId env)
                     = ACLCHECK_OK)));
    [cbn [when]; rewrite bind_ret; apply IH|apply IH].
Qed.

(** X9: a new value of temp_tablespaces that comes, inside a
    transaction, from a source that is neither interactive nor a test is
    taken as PrepareTempTablespaces would take it.  When its list syntax
    is valid and the hook gets its memory, the check hook answers true
    where PrepareTempTablespaces, reading that value with no list set
    yet, returns, and the assign hook run on what the check hook left then
    ends in the very state PrepareTempTablespaces ends in: the same list
    of ids is handed to fd.c and nothing is logged for a name that was
    skipped.  Where PrepareTempTablespaces fails on a row lock, the check
    hook fails with the same error. *)
Theorem check_temp_tablespaces_as_prepared (env : Env) (guc : GucEnv)
    (source : Z) (st : State) (names : list string) :
  IsTransactionState env = true ->
  TempTablespacesAreSet st = false ->
  SplitIdentifierString env (temp_tablespaces env) = Some names ->
  (source <= PGC_S_TEST guc)%Z ->
  source <> PGC_S_TEST guc ->
  (source < PGC_S_INTERACTIVE guc)%Z ->
  (forall n, malloc_ok guc n = true) ->
  match PrepareTempTablespaces env st with
  | (OK _, st') =>
      exists tblSpcs s,
        check_temp_tablespaces env guc (temp_tablespaces env) source st
        = (OK (hook_true (Some tblSpcs)), s)
        /\ assign_temp_tablespaces env (Some tblSpcs) s = (OK tt, st')
        /\ tempTableSpaces st' = Some tblSpcs
  | (RAISE e, st') =>
      check_temp_tablespaces env guc (temp_tablespaces env) source st
      = (RAISE e, st')
  end.
Proof.
  intros Htx Hunset Hsplit Hle Hne Hni Hmalloc.
  rewrite PrepareTempTablespaces_run by assumption. rewrite Hsplit.
  unfold check_temp_tablespaces. rewrite Hsplit, Htx.
  assert (Hloop : check_temp_tablespaces_loop env guc source names
                    (replicate (length names) InvalidOid) 0 st
                  = PrepareTempTablespaces_loop env names
                      (replicate (length names) InvalidOid) 0 st).
  { apply check_temp_tablespaces_loop_quiet;
      [apply Z.leb_le, Hle|apply Z.eqb_neq, Hne|apply Z.leb_gt, Hni]. }
  destruct (PrepareTempTablespaces_loop env names
              (replicate (length names) InvalidOid) 0 st) as [[r|e] s]
    eqn:Hprep.
  - rewrite (bind_run _ _ _ _ _ Hprep). cbv beta iota.
    exists (take r.2 r.1), s.
    rewrite (bind_run _ _ _ _ _ Hloop). cbv beta iota.
    rewrite Hmalloc. repeat split.
  - rewrite (bind_run _ _ _ _ _ Hprep).
    rewrite (bind_run _ _ _ _ _ Hloop). reflexivity.
Qed.

Lemma check_temp_tablespaces_as_prepared_witness :
  let guc := mkGucEnv 11 12 (fun _ => true) in
  exists s,
    check_temp_tablespaces env0 guc (temp_tablespaces env0) 3
      (state_of fs_in_use)
    = (OK (hook_true (Some [16384%N; InvalidOid; InvalidOid])), s)
    /\ assign_temp_tablespaces env0 (Some [16384%N; InvalidOid; InvalidOid]) s
       = PrepareTempTablespaces env0 (state_of fs_in_use).
Proof.
  intros guc.
  pose proof (check_temp_tablespaces_as_prepared env0 guc 3
                (state_of fs_in_use)
                ["ts1"; ""; "nosuch"; "pg_default"; "ts2"]
                eq_refl eq_refl eq_refl) as H.
  assert (Hrun : PrepareTempTablespaces env0 (state_of fs_in_use)
                 = (OK tt, (PrepareTempTablespaces env0
                              (state_of fs_in_use)).2))
    by exact (run_eq (PrepareTempTablespaces env0 (state_of fs_in_use))
                (OK tt) ltac:(vm_compute; reflexivity)).
  rewrite Hrun in H.
  destruct H as (tblSpcs & s & Hcheck & Hassign & Hlist);
    [simpl; lia|discriminate|simpl; lia|reflexivity|].
  assert (tblSpcs = [16384%N; InvalidOid; InvalidOid]) as ->.
  { apply (f_equal (fun x => default [] x)) in Hlist.
    vm_compute in Hlist. symmetry. exact Hlist. }
  exists s. split; [exact Hcheck|]. rewrite Hrun. exact Hassign.
Defined.

Lemma get_tablespace_oid_strict env name st o st' :
  get_tablespace_oid env name false st = (OK o, st') ->
  exists t_self tup,
    scan_by_name name (catalog st) = Some (t_self, tup)
    /\ oid tup = o /\ OidIsValid o = true
    /\ catalog st' = catalog st.
Proof.
  unfold get_tablespace_oid.
  unfold bind at 1. unfold get at 1. cbv beta iota.
  destruct (scan_by_name name (catalog st)) as [[i tup]|].
  - intros H. exists i, tup. split; [reflexivity|].
    rewrite bind_when in H.
    destruct (OidIsValid (oid tup)) eqn:Ht.
    + rewrite bind_bind, (bind_run _ _ _ _ _ (call_run _ _)) in H.
      destruct (heap_lock_tuple env (oid tup));
        try (rewrite bind_ereport_ERROR in H; discriminate).
      rewrite bind_ret in H. cbn [negb andb when] in H.
      rewrite bind_ret in H. injection H as <- <-. auto.
    + cbn [negb andb] in H. rewrite bind_when in H. cbn [negb] in H.
      rewrite bind_ereport_ERROR in H. discriminate.
  - intros H. rewrite bind_when in H.
    change (OidIsValid InvalidOid) with false in H.
    cbn [negb andb] in H. rewrite bind_when in H. cbn [negb] in H.
    rewrite bind_ereport_ERROR in H. discriminate.
Qed.

Lemma check_temp_tablespaces_loop_interactive env guc source names :
  (source <=? PGC_S_TEST guc)%Z = false ->
  (PGC_S_INTERACTIVE guc <=? source)%Z = true ->
  forall tblSpcs numSpcs st tbl' n' st',
    check_temp_tablespaces_loop env guc source names tblSpcs numSpcs st
    = (OK (tbl', n'), st') ->
    n' = numSpcs + length names
    /\ length tbl' = length tblSpcs
    /\ catalog st' = catalog st
    /\ Forall (temp_name_verified env (catalog st)) names.
Proof.
  intros Hgt Hint.
  induction names as [|curname rest IH];
    intros tblSpcs numSpcs st tbl' n' st' H.
  { injection H as <- <- <-. simpl. rewrite Nat.add_0_r. auto. }
  cbn [check_temp_tablespaces_loop] in H. rewrite Hgt, Hint in H.
  destruct (bool_decide (curname = "")) eqn:Hempty.
  { apply IH in H as (-> & Hlen & Hc & Hall).
    rewrite length_insert in Hlen. apply bool_decide_eq_true in Hempty.
    repeat split; [simpl; lia|exact Hlen|exact Hc|].
    constructor; [left; exact Hempty|exact Hall]. }
  binv H as curoid s1 E1.
  apply get_tablespace_oid_strict in E1 as (i & tup & Hscan & <- & Hv & Hc1).
  assert ((oid tup =? InvalidOid)%N = false) as Hnz.
  { unfold OidIsValid in Hv. apply negb_true_iff in Hv. exact Hv. }
  rewrite Hnz in H.
  destruct (oid tup =? MyDatabaseTableSpace env)%N eqn:Hmine.
  { apply IH in H as (-> & Hlen & Hc & Hall).
    rewrite length_insert in Hlen. apply N.eqb_eq in Hmine.
    repeat split; [simpl; lia|exact Hlen|congruence|].
    constructor; [right; exists i, tup; auto|].
    rewrite <- Hc1. exact Hall. }
  destruct (bool_decide
              (pg_tablespace_aclcheck_CREATE env (oid tup) (GetUserId env)
               = ACLCHECK_OK)) eqn:Hacl; cbn [negb] in H.
  - apply IH in H as (-> & Hlen & Hc & Hall).
    rewrite length_insert in Hlen. apply bool_decide_eq_true in Hacl.
    repeat split; [simpl; lia|exact Hlen|congruence|].
    constructor; [right; exists i, tup; auto|].
    rewrite <- Hc1. exact Hall.
  - exfalso. apply bool_decide_eq_false in Hacl.
    cbn [when] in H. unfold aclcheck_error in H.
    destruct (pg_tablespace_aclcheck_CREATE env (oid tup) (GetUserId env));
      [congruence| |]; rewrite bind_ereport_ERROR in H; discriminate.
Qed.

(** X10: in an interactive SET inside a transaction the check hook of
    temp_tablespaces takes no name on faith.  When it returns, every name
    of the list is empty or names a tablespace that is the database's own
    or one the user may create in; the list it hands on has one id for
    every name; and it answers false only when it got no memory.  A name
    that does not stand this test ends the hook with an ERROR: unlike
    PrepareTempTablespaces it skips nothing. *)
Theorem check_temp_tablespaces_interactive (env : Env) (guc : GucEnv)
    (newval : string) (source : Z) (names : list string) (st st' : State)
    (r : check_hook_result) :
  IsTransactionState env = true ->
  SplitIdentifierString env newval = Some names ->
  (PGC_S_TEST guc < source)%Z ->
  (PGC_S_INTERACTIVE guc <= source)%Z ->
  check_temp_tablespaces env guc newval source st = (OK r, st') ->
  Forall (temp_name_verified env (catalog st)) names
  /\ catalog st' = catalog st
  /\ match r with
     | hook_true (Some tblSpcs) => length tblSpcs = length names
     | hook_true None => False
     | hook_false detail =>
         detail = None /\ malloc_ok guc (length names) = false
     end.
Proof.
  intros Htx Hsplit Hgt Hint H.
  unfold check_temp_tablespaces in H. rewrite Hsplit, Htx in H.
  binv H as res s1 E1. destruct res as [tbl' n'].
  apply check_temp_tablespaces_loop_interactive in E1
    as (-> & Hlen & Hc & Hall);
    [|apply Z.leb_gt, Hgt|apply Z.leb_le, Hint].
  cbn [fst snd] in H. rewrite Nat.add_0_l in H.
  split; [exact Hall|].
  destruct (malloc_ok guc (length names)) eqn:Hm; cbn [negb] in H;
    injection H as <- <-; (split; [exact Hc|]).
  - rewrite length_take, Hlen, length_replicate. lia.
  - split; reflexivity.
Qed.

Lemma check_temp_tablespaces_interactive_witness :
  let guc := mkGucEnv 11 12 (fun _ => true) in
  let env := env_with false GP_ROLE_DISPATCH None true in
  (check_temp_tablespaces env guc "ts1,,pg_default" 13
     (state_of fs_in_use)).1
  = OK (hook_true (Some [16384%N; InvalidOid; InvalidOid]))
  /\ Forall (temp_name_verified env (catalog (state_of fs_in_use)))
       ["ts1"; ""; "pg_default"]
  /\ (exists e, (check_temp_tablespaces env guc "ts1,nosuch" 13
                   (state_of fs_in_use)).1 = RAISE e
                /\ sqlerrcode e = ERRCODE_UNDEFINED_OBJECT).
Proof.
  intros guc env.
  split; [vm_compute; reflexivity|]. split.
  - apply (check_temp_tablespaces_interactive env guc "ts1,,pg_default" 13
             ["ts1"; ""; "pg_default"] (state_of fs_in_use)
             (check_temp_tablespaces env guc "ts1,,pg_default" 13
                (state_of fs_in_use)).2
             (hook_true (Some [16384%N; InvalidOid; InvalidOid])));
      [reflexivity|reflexivity|simpl; lia|simpl; lia|].
    exact (run_eq (check_temp_tablespaces env guc "ts1,,pg_default" 13
                     (state_of fs_in_use)) _ ltac:(vm_compute; reflexivity)).
  - eexists. split; vm_compute; reflexivity.
Defined.
